(** * LiveMedBench: grading and aggregation pipeline

    A shallow embedding of [src/evaluate/evaluate_model.py],
    [src/evaluate/run_model.py] and [src/evaluate/metric_calc.py].

    Conventions of the embedding.
    - A Python [str] is a [string], read as the UTF-8 bytes of the text.
    - Points and scores are rationals [Q]; Python's float arithmetic is
      taken as exact arithmetic on these values.
    - A Python [dict] is an association list in insertion order;
      assignment to a key that is present replaces the value in place.
    - External calls, sleeps, warnings and file writes are events of a
      trace threaded through a state-and-exception monad. *)

From Stdlib Require Import String Ascii List Bool Arith ZArith QArith Lia Lqa.
From Stdlib Require Import DecimalString DecimalNat.
Import ListNotations.

Close Scope Q_scope.
Open Scope string_scope.
Open Scope nat_scope.

(** ** Python strings *)

Module Py.

Definition dq : string := String (ascii_of_nat 34) "".
Definition nl : string := String (ascii_of_nat 10) "".

(** [s.startswith(p)] *)
Fixpoint startswith (p s : string) {struct p} : bool :=
  match p with
  | "" => true
  | String a p' =>
      match s with
      | "" => false
      | String b s' => Ascii.eqb a b && startswith p' s'
      end
  end.

(** [needle in hay] *)
Fixpoint contains (needle hay : string) : bool :=
  startswith needle hay ||
  match hay with
  | "" => false
  | String _ rest => contains needle rest
  end.

Definition lower_ascii (c : ascii) : ascii :=
  let n := nat_of_ascii c in
  if (65 <=? n) && (n <=? 90) then ascii_of_nat (n + 32) else c.

(** [s.lower()], on the letters A to Z: the texts looked for in a
    lowered reply are ASCII. *)
Fixpoint lower (s : string) : string :=
  match s with
  | "" => ""
  | String c rest => String (lower_ascii c) (lower rest)
  end.

(** The characters for which [str.isspace] holds, UTF-8 encoded. *)
Definition chr (n : nat) : string := String (ascii_of_nat n) "".
Definition chr2 (a b : nat) : string := String (ascii_of_nat a) (chr b).
Definition chr3 (a b c : nat) : string := String (ascii_of_nat a) (chr2 b c).

Definition py_whitespace : list string :=
  [ chr 9; chr 10; chr 11; chr 12; chr 13; chr 28; chr 29; chr 30; chr 31;
    chr 32; chr2 194 133; chr2 194 160; chr3 225 154 128;
    chr3 226 128 128; chr3 226 128 129; chr3 226 128 130; chr3 226 128 131;
    chr3 226 128 132; chr3 226 128 133; chr3 226 128 134; chr3 226 128 135;
    chr3 226 128 136; chr3 226 128 137; chr3 226 128 138;
    chr3 226 128 168; chr3 226 128 169; chr3 226 128 175;
    chr3 226 129 159; chr3 227 128 128 ].

(** Number of bytes of the whitespace character [s] starts with, 0 if
    it starts with none. *)
Definition space_len (s : string) : nat :=
  match find (fun w => startswith w s) py_whitespace with
  | Some w => String.length w
  | None => 0
  end.

Fixpoint lstrip_from (skip : nat) (s : string) : string :=
  match skip with
  | S k => match s with
           | "" => ""
           | String _ rest => lstrip_from k rest
           end
  | 0 => match space_len s with
         | 0 => s
         | S k => match s with
                  | "" => ""
                  | String _ rest => lstrip_from k rest
                  end
         end
  end.

Definition lstrip (s : string) : string := lstrip_from 0 s.

Definition is_blank (s : string) : bool := (lstrip s =? "")%string.

Fixpoint rstrip (s : string) : string :=
  match s with
  | "" => ""
  | String c rest => if is_blank s then "" else String c (rstrip rest)
  end.

(** [s.strip()] *)
Definition strip (s : string) : string := rstrip (lstrip s).

(** A text made of whitespace characters only. *)
Inductive whitespace_only : string -> Prop :=
| ws_empty : whitespace_only ""
| ws_more w s : In w py_whitespace -> whitespace_only s ->
                whitespace_only (w ++ s).

(** [str(n)] for a natural number and for an integer. *)
Definition str_of_nat (n : nat) : string :=
  NilEmpty.string_of_uint (Nat.to_uint n).

Definition str_of_Z (z : Z) : string :=
  NilEmpty.string_of_int (Z.to_int z).

(** [s.replace(old, new)] for a one-character [old]. *)
Fixpoint replace_char (old : ascii) (new : string) (s : string) : string :=
  match s with
  | "" => ""
  | String c rest =>
      if Ascii.eqb c old then new ++ replace_char old new rest
      else String c (replace_char old new rest)
  end.

(** *** Dictionaries *)

Section Assoc.
Context {K V : Type}.
Variable eqb : K -> K -> bool.

Definition assoc := list (K * V).

(** [d.get(k)] *)
Fixpoint assoc_get (k : K) (d : assoc) : option V :=
  match d with
  | [] => None
  | (k', v) :: rest => if eqb k' k then Some v else assoc_get k rest
  end.

(** [k in d] *)
Definition assoc_mem (k : K) (d : assoc) : bool :=
  match assoc_get k d with Some _ => true | None => false end.

(** [d[k] = v] *)
Fixpoint assoc_set (k : K) (v : V) (d : assoc) : assoc :=
  match d with
  | [] => [(k, v)]
  | (k', v') :: rest =>
      if eqb k' k then (k, v) :: rest
      else (k', v') :: assoc_set k v rest
  end.
End Assoc.

Arguments assoc K V : clear implicits.

(** A dictionary with string keys. *)
Definition dict (V : Type) : Type := assoc string V.
Definition dict_get {V} : string -> dict V -> option V :=
  assoc_get String.eqb.
Definition dict_mem {V} : string -> dict V -> bool := assoc_mem String.eqb.
Definition dict_set {V} : string -> V -> dict V -> dict V :=
  assoc_set String.eqb.
Definition dict_values {K V} (d : assoc K V) : list V := map snd d.
Definition dict_keys {K V} (d : assoc K V) : list K := map fst d.

(** *** More string methods *)

(** [s.endswith(suffix)] *)
Definition endswith (suffix s : string) : bool :=
  (String.length suffix <=? String.length s)
  && (substring (String.length s - String.length suffix)
        (String.length suffix) s =? suffix)%string.

(** [s[start:-stop]], for a positive [stop]: the characters from
    position [start] up to [stop] characters before the end, none when
    the two bounds cross. *)
Definition slice_between (start stop : nat) (s : string) : string :=
  substring start (String.length s - stop - start) s.

End Py.

(** ** JSON values and the decoder [json.loads]

    [json.loads] belongs to Python's standard library.  It is modelled
    by a recursive-descent decoder for the grammar the library accepts:
    the four whitespace characters, the literals, [NaN] and the
    infinities, numbers, strings with their escapes, arrays and objects.
    A decoding error is [None]. *)

Module Json.
Import Py.

#[local] Unset Elimination Schemes.
Inductive json : Type :=
| JNull
| JBool (b : bool)
| JInt (z : Z)
| JFloat (lexeme : string)
| JStr (s : string)
| JList (items : list json)
| JDict (pairs : list (string * json)).
#[local] Set Elimination Schemes.

Definition c_quote : ascii := ascii_of_nat 34.

Definition is_ws (c : ascii) : bool :=
  let n := nat_of_ascii c in
  (n =? 32) || (n =? 9) || (n =? 10) || (n =? 13).

Fixpoint skip_ws (s : string) : string :=
  match s with
  | String c rest => if is_ws c then skip_ws rest else s
  | "" => ""
  end.

Definition is_digit (c : ascii) : bool :=
  let n := nat_of_ascii c in (48 <=? n) && (n <=? 57).

Fixpoint take_digits (s : string) : string * string :=
  match s with
  | String c rest =>
      if is_digit c then
        let '(ds, r) := take_digits rest in (String c ds, r)
      else ("", s)
  | "" => ("", "")
  end.

Fixpoint Z_of_digits (acc : Z) (ds : string) : Z :=
  match ds with
  | "" => acc
  | String c rest =>
      Z_of_digits (10 * acc + Z.of_nat (nat_of_ascii c - 48))%Z rest
  end.

(** The integer part of the number pattern: an optional minus sign, then
    a single zero or a digit string that does not start with zero. *)
Definition match_integer (s : string) : option (string * string) :=
  let '(sign, body) :=
    match s with
    | String "-"%char rest => ("-", rest)
    | _ => ("", s)
    end in
  match body with
  | String "0"%char rest => Some (sign ++ "0", rest)
  | String c _ =>
      if is_digit c then
        let '(ds, r) := take_digits body in Some (sign ++ ds, r)
      else None
  | "" => None
  end.

(** The fraction (a dot and one or more digits), matched whole or not at
    all. *)
Definition match_frac (s : string) : string * string :=
  match s with
  | String "."%char rest =>
      match take_digits rest with
      | ("", _) => ("", s)
      | (ds, r) => ("." ++ ds, r)
      end
  | _ => ("", s)
  end.

(** The exponent (e or E, an optional sign, one or more digits), matched
    whole or not at all. *)
Definition match_exp (s : string) : string * string :=
  match s with
  | String e rest =>
      if Ascii.eqb e "e"%char || Ascii.eqb e "E"%char then
        let '(sign, body) :=
          match rest with
          | String "-"%char r => ("-", r)
          | String "+"%char r => ("+", r)
          | _ => ("", rest)
          end in
        match take_digits body with
        | ("", _) => ("", s)
        | (ds, r) => (String e (sign ++ ds), r)
        end
      else ("", s)
  | "" => ("", s)
  end.

Definition match_number (s : string) : option (json * string) :=
  match match_integer s with
  | None => None
  | Some (int_part, r1) =>
      let '(frac, r2) := match_frac r1 in
      let '(exp, r3) := match_exp r2 in
      match frac, exp with
      | "", "" =>
          Some (JInt (match int_part with
                      | String "-"%char ds => - Z_of_digits 0 ds
                      | ds => Z_of_digits 0 ds
                      end)%Z, r3)
      | _, _ => Some (JFloat (int_part ++ frac ++ exp), r3)
      end
  end.

Definition hex_val (c : ascii) : option N :=
  let n := N_of_ascii c in
  if (48 <=? n)%N && (n <=? 57)%N then Some (n - 48)%N
  else if (97 <=? n)%N && (n <=? 102)%N then Some (n - 87)%N
  else if (65 <=? n)%N && (n <=? 70)%N then Some (n - 55)%N
  else None.

(** The four hexadecimal digits of a [\u] escape. *)
Definition decode_uXXXX (s : string) : option (N * string) :=
  match s with
  | String a (String b (String c (String d rest))) =>
      match hex_val a, hex_val b, hex_val c, hex_val d with
      | Some x, Some y, Some z, Some t =>
          Some (((x * 16 + y) * 16 + z) * 16 + t, rest)%N
      | _, _, _, _ => None
      end
  | _ => None
  end.

Definition byte (n : N) : string := String (ascii_of_N n) "".

Definition utf8_encode (cp : N) : string :=
  if (cp <? 128)%N then byte cp
  else if (cp <? 2048)%N then
    byte (192 + cp / 64) ++ byte (128 + cp mod 64)
  else if (cp <? 65536)%N then
    byte (224 + cp / 4096) ++ byte (128 + (cp / 64) mod 64)
    ++ byte (128 + cp mod 64)
  else
    byte (240 + cp / 262144) ++ byte (128 + (cp / 4096) mod 64)
    ++ byte (128 + (cp / 64) mod 64) ++ byte (128 + cp mod 64).

Definition backslash_escape (c : ascii) : option string :=
  if Ascii.eqb c c_quote then Some dq
  else match c with
       | "\"%char => Some "\"
       | "/"%char => Some "/"
       | "b"%char => Some (chr 8)
       | "f"%char => Some (chr 12)
       | "n"%char => Some (chr 10)
       | "r"%char => Some (chr 13)
       | "t"%char => Some (chr 9)
       | _ => None
       end.

(** The body of a string after its opening quote (strict mode: a raw
    control character is an error). *)
Fixpoint scanstring (fuel : nat) (s : string) : option (string * string) :=
  match fuel with
  | 0 => None
  | S f =>
      match s with
      | "" => None
      | String c rest =>
          if Ascii.eqb c c_quote then Some ("", rest)
          else if Ascii.eqb c "\"%char then
            match rest with
            | "" => None
            | String "u"%char rest1 =>
                match decode_uXXXX rest1 with
                | None => None
                | Some (uni, rest2) =>
                    let '(cp, rest3) :=
                      match rest2 with
                      | String "\"%char (String "u"%char rest2') =>
                          if (55296 <=? uni)%N && (uni <=? 56319)%N then
                            match decode_uXXXX rest2' with
                            | Some (uni2, r) =>
                                if (56320 <=? uni2)%N && (uni2 <=? 57343)%N
                                then (65536 + ((uni - 55296) * 1024
                                               + (uni2 - 56320)), r)%N
                                else (uni, rest2)
                            | None => (uni, rest2)
                            end
                          else (uni, rest2)
                      | _ => (uni, rest2)
                      end in
                    match scanstring f rest3 with
                    | Some (tl, r) => Some (utf8_encode cp ++ tl, r)
                    | None => None
                    end
                end
            | String e rest1 =>
                match backslash_escape e, scanstring f rest1 with
                | Some x, Some (tl, r) => Some (x ++ tl, r)
                | _, _ => None
                end
            end
          else if nat_of_ascii c <? 32 then None
          else match scanstring f rest with
               | Some (tl, r) => Some (String c tl, r)
               | None => None
               end
      end
  end.

Section Containers.
Variable scan_once : string -> option (json * string).

(** The items of an array after the first item's position. *)
Fixpoint array_items (fuel : nat) (s : string) (acc : list json)
  : option (list json * string) :=
  match fuel with
  | 0 => None
  | S f =>
      match scan_once s with
      | None => None
      | Some (v, r) =>
          match skip_ws r with
          | String "]"%char r' => Some ((acc ++ [v])%list, r')
          | String ","%char r' => array_items f (skip_ws r') (acc ++ [v])
          | _ => None
          end
      end
  end.

(** The pairs of an object; [s] starts after a key's opening quote. *)
Fixpoint object_pairs (fuel : nat) (s : string) (acc : dict json)
  : option (dict json * string) :=
  match fuel with
  | 0 => None
  | S f =>
      match scanstring (S (String.length s)) s with
      | None => None
      | Some (key, r) =>
          match skip_ws r with
          | String ":"%char r1 =>
              match scan_once (skip_ws r1) with
              | None => None
              | Some (v, r2) =>
                  match skip_ws r2 with
                  | String "}"%char r' => Some (dict_set key v acc, r')
                  | String ","%char r' =>
                      match skip_ws r' with
                      | String c r'' =>
                          if Ascii.eqb c c_quote
                          then object_pairs f r'' (dict_set key v acc)
                          else None
                      | "" => None
                      end
                  | _ => None
                  end
              end
          | _ => None
          end
      end
  end.
End Containers.

Fixpoint scan_once (fuel : nat) (s : string) : option (json * string) :=
  match fuel with
  | 0 => None
  | S f =>
      match s with
      | "" => None
      | String c rest =>
          if Ascii.eqb c c_quote then
            match scanstring (S (String.length rest)) rest with
            | Some (str, r) => Some (JStr str, r)
            | None => None
            end
          else if Ascii.eqb c "{"%char then
            match skip_ws rest with
            | String "}"%char r => Some (JDict [], r)
            | String c' r =>
                if Ascii.eqb c' c_quote then
                  match object_pairs (scan_once f) f r [] with
                  | Some (d, r') => Some (JDict d, r')
                  | None => None
                  end
                else None
            | "" => None
            end
          else if Ascii.eqb c "["%char then
            match skip_ws rest with
            | String "]"%char r => Some (JList [], r)
            | r =>
                match array_items (scan_once f) f r [] with
                | Some (l, r') => Some (JList l, r')
                | None => None
                end
            end
          else if startswith "null" s then
            Some (JNull, substring 4 (String.length s) s)
          else if startswith "true" s then
            Some (JBool true, substring 4 (String.length s) s)
          else if startswith "false" s then
            Some (JBool false, substring 5 (String.length s) s)
          else
            match match_number s with
            | Some res => Some res
            | None =>
                if startswith "NaN" s then
                  Some (JFloat "NaN", substring 3 (String.length s) s)
                else if startswith "Infinity" s then
                  Some (JFloat "Infinity", substring 8 (String.length s) s)
                else if startswith "-Infinity" s then
                  Some (JFloat "-Infinity", substring 9 (String.length s) s)
                else None
            end
      end
  end.

(** [json.loads(text)]: one value between optional whitespace. *)
Definition json_loads (text : string) : option json :=
  match scan_once (S (String.length text)) (skip_ws text) with
  | Some (v, r) =>
      match skip_ws r with
      | "" => Some v
      | _ => None
      end
  | None => None
  end.

End Json.

(** ** Effects: the chat-completion service, sleeps, warnings, file writes *)

Module Eff.

(** What one call of [client.chat.completions.create] does: it raises,
    or it returns a first choice with its [message.content] and
    [finish_reason] (either may be [None]). *)
Inductive api_result : Type :=
| ApiRaise (e : string)
| ApiReturn (content : option string) (finish_reason : option string).

(** The service: its answer to the [n]-th call of the run, for a model
    name and a prompt. *)
Definition client : Type := nat -> string -> string -> api_result.

(** The warnings the retry loops and the reply parser print. *)
Inductive log : Type :=
| LogRetry (wait_time : Z)
| LogExhausted
| LogUnparsed.

Inductive event (F : Type) : Type :=
| EvCall (model prompt : string)
| EvSleep (seconds : Q)
| EvLog (l : log)
| EvSave (content : F).

Arguments EvCall {F}.
Arguments EvSleep {F}.
Arguments EvLog {F}.
Arguments EvSave {F}.

Inductive outcome (A : Type) : Type :=
| Ok (a : A)
| Raised (e : string).

Arguments Ok {A}.
Arguments Raised {A}.

Section Monad.
Context {F : Type}.

Definition trace := list (event F).

Definition M (A : Type) : Type := trace -> outcome A * trace.

Definition ret {A} (a : A) : M A := fun w => (Ok a, w).

Definition bind {A B} (m : M A) (k : A -> M B) : M B :=
  fun w => match m w with
           | (Ok a, w') => k a w'
           | (Raised e, w') => (Raised e, w')
           end.

Definition raise {A} (e : string) : M A := fun w => (Raised e, w).

(** [try: m  except Exception as e: h e] *)
Definition try_catch {A} (m : M A) (h : string -> M A) : M A :=
  fun w => match m w with
           | (Ok a, w') => (Ok a, w')
           | (Raised e, w') => h e w'
           end.

Definition emit (e : event F) : M unit := fun w => (Ok tt, (w ++ [e])%list).

Definition is_call (e : event F) : bool :=
  match e with EvCall _ _ => true | _ => false end.

Definition calls (w : trace) : list (event F) := filter is_call w.

(** [client.chat.completions.create(model=..., messages=[user prompt])] *)
Definition create (c : client) (model prompt : string)
  : M (option string * option string) :=
  fun w =>
    let w' := (w ++ [EvCall model prompt])%list in
    match c (List.length (calls w)) model prompt with
    | ApiRaise e => (Raised e, w')
    | ApiReturn content finish => (Ok (content, finish), w')
    end.

(** [time.sleep(seconds)] *)
Definition sleep (seconds : Q) : M unit := emit (EvSleep seconds).

Definition print (l : log) : M unit := emit (EvLog l).
End Monad.

Arguments trace F : clear implicits.
Arguments M F A : clear implicits.

Declare Scope eff_scope.
Delimit Scope eff_scope with eff.
Notation "x <- m ;; k" := (bind m (fun x => k))
  (at level 61, m at next level, right associativity) : eff_scope.
Notation "m ;; k" := (bind m (fun _ => k))
  (at level 61, right associativity) : eff_scope.

(** [x or default] on an optional string. *)
Definition or_else (x : option string) (default : string) : string :=
  match x with
  | Some s => if (s =? "")%string then default else s
  | None => default
  end.

End Eff.

(** ** [evaluate_model.py] *)

Module EvaluateModel.
Import Py Json Eff.
#[local] Open Scope eff_scope.

Definition EVALUATOR_MODEL : string := "gpt-4.1-2025-04-14".

(** [EVALUATION_PROMPT], cut at its three fields. *)
Definition prompt_before_query : string :=
  "
Role: You are an Objective Grader.
Task: Evaluate the Model Response (M_out) against the provided Rubric (R).

Instructions:
- Objective Verification: For each criterion in the Rubric, determine if the Model Response satisfies it.
- Binary Judgment: Return true (Met) or false (Not Met).
- Positive Criteria Logic: true if the model includes the required information.
- Negative Criteria Logic: true if the model commits the error (e.g., if the rubric asks " ++ dq ++ "Does model suggest antibiotics?" ++ dq ++ " and the model suggests them, return true). Note: The scoring formula handles the negative sign; you simply detect presence.
- Evidence: Quote the specific sentence from the model output that supports your decision.

Input:
- User Query (Q): This is the original question from the patient, built as:
    Q = " ++ dq ++ dq ++ dq.

Definition prompt_before_response : string :=
  dq ++ dq ++ dq ++ "
- Model Response (M_out):
".

Definition prompt_before_criterion : string :=
  "

- Rubric (R): JSON list of criteria from Phase 1. In this call you will receive exactly one criterion:
[
  {" ++ dq ++ "question" ++ dq ++ ": " ++ dq.

Definition prompt_after_criterion : string :=
  dq ++ "}
]

Output Format (JSON):
[
  {
    " ++ dq ++ "question" ++ dq ++ ": " ++ dq ++ "Does the model identify the likely cause as Norovirus?" ++ dq ++ ",
    " ++ dq ++ "met" ++ dq ++ ": true,
    " ++ dq ++ "reasoning" ++ dq ++ ": " ++ dq ++ "Model explicitly states 'symptoms suggest Norovirus'." ++ dq ++ "
  },
  {
    " ++ dq ++ "question" ++ dq ++ ": " ++ dq ++ "Does the model recommend antibiotics?" ++ dq ++ ",
    " ++ dq ++ "met" ++ dq ++ ": false,
    " ++ dq ++ "reasoning" ++ dq ++ ": " ++ dq ++ "Model correctly states 'antibiotics are not effective'." ++ dq ++ "
  }
]

Now, given the User Query (Q), the Model Response (M_out) and the Rubric (R) with one criterion, output a JSON list with a single object in the exact format above, where:
- " ++ dq ++ "question" ++ dq ++ " is the criterion string you evaluated,
- " ++ dq ++ "met" ++ dq ++ " is true or false,
- " ++ dq ++ "reasoning" ++ dq ++ " briefly quotes or summarizes the evidence from the model response (and, if relevant, the user query) that supports your decision.
".

Definition create_evaluation_prompt
  (criterion model_response user_query : string) : string :=
  prompt_before_query ++ strip user_query
  ++ prompt_before_response ++ strip model_response
  ++ prompt_before_criterion ++ strip criterion
  ++ prompt_after_criterion.

(** *** Data *)

(** A case id as the files hold it: a string or a number. *)
Inductive pyid : Type :=
| IdStr (s : string)
| IdInt (z : Z).

(** [str(case_id)] *)
Definition str (i : pyid) : string :=
  match i with
  | IdStr s => s
  | IdInt z => str_of_Z z
  end.

(** Equality of two ids as Python values. *)
Definition pyid_eqb (a b : pyid) : bool :=
  match a, b with
  | IdStr s, IdStr t => (s =? t)%string
  | IdInt x, IdInt y => (x =? y)%Z
  | _, _ => false
  end.

(** One item of a rubric.  Its points are a number, 0 when the field
    is missing.  An item whose [points] holds null is not a value of
    this type: for such an item the grading run raises [TypeError] at
    the product [points * score], after the judge was called. *)
Record rubric_item : Type := {
  criterion : string;
  points : Q;
  axe : string
}.

(** One case of the rubric file; a missing or null field is its
    default ([None] for the id, the empty string or list otherwise). *)
Record rubric_case : Type := {
  rc_case_id : option pyid;
  rc_post_time : string;
  rc_narrative : string;
  rc_core_request : string;
  rc_rubric_items : list rubric_item
}.

Record judgment : Type := {
  j_criterion : string;
  j_points : Q;
  j_axe : string;
  j_score : Z;
  j_weighted_score : Q
}.

Record eval_record : Type := {
  case_id : option pyid;
  evaluations : dict judgment
}.

(** A record of the model-result file: field name to text. *)
Definition model_case : Type := dict string.

Definition E : Type -> Type := M (list eval_record).

(** *** The reply parser (the body of [call_gpt_evaluator] after the
    call returned) *)

(** The [try] block reading the JSON answer; [None] when it falls
    through to the heuristics. *)
Definition parse_met (text : string) : option string :=
  match json_loads text with
  | Some (JList (first :: _)) =>
      match first with
      | JDict d =>
          match dict_get "met" d with
          | Some (JBool met) => Some (if met then "1" else "0")
          | Some (JStr met) =>
              let lowered := lower (strip met) in
              if (lowered =? "true")%string then Some "1"
              else if (lowered =? "false")%string then Some "0"
              else None
          | _ => None
          end
      | _ => None
      end
  | _ => None
  end.

Definition parse_reply (text : string) : E string :=
  match parse_met text with
  | Some r => ret r
  | None =>
      let lowered_text := lower text in
      let yes_no : E string :=
        if contains "yes" lowered_text || contains "satisf" lowered_text
        then ret "1"
        else if contains "no" lowered_text
                || contains "not satisf" lowered_text
        then ret "0"
        else print LogUnparsed ;; ret "0" in
      if contains (dq ++ "met" ++ dq) lowered_text then
        if contains "true" lowered_text then ret "1"
        else if contains "false" lowered_text then ret "0"
        else yes_no
      else yes_no
  end.

(** *** [call_gpt_evaluator] *)

(** The iterations of [for attempt in range(max_retries)] from
    [attempt] on, [remaining] of them. *)
Fixpoint evaluator_attempts (c : client) (prompt : string)
  (max_retries remaining attempt : nat) : E string :=
  match remaining with
  | 0 => ret "0"
  | S remaining' =>
      try_catch
        (response <- create c EVALUATOR_MODEL prompt ;;
         let text := strip (or_else (fst response) "") in
         parse_reply text)
        (fun e =>
           if attempt <? max_retries - 1 then
             let wait_time := ((Z.of_nat attempt + 1) * 2)%Z in
             print (LogRetry wait_time) ;;
             sleep (inject_Z wait_time) ;;
             evaluator_attempts c prompt max_retries remaining' (S attempt)
           else
             print LogExhausted ;; ret "0")
  end.

Definition call_gpt_evaluator (c : client) (prompt : string)
  (max_retries : nat) : E string :=
  evaluator_attempts c prompt max_retries max_retries 0.

(** [int(result)] on the decimal texts. *)
Definition py_int (s : string) : E Z :=
  let t := strip s in
  match take_digits t with
  | (String d ds, "") => ret (Z_of_digits 0 (String d ds))
  | _ => raise "ValueError"
  end.

(** *** [evaluate_rubric_item] *)
Definition evaluate_rubric_item (c : client)
  (criterion model_response user_query : string) : E Z :=
  if (model_response =? "")%string || (strip model_response =? "")%string
  then ret 0%Z
  else
    let prompt :=
      create_evaluation_prompt criterion model_response user_query in
    result <- call_gpt_evaluator c prompt 3 ;;
    py_int result.

(** *** [process_evaluations] *)

Definition empty_record (cid : pyid) : eval_record :=
  {| case_id := Some cid; evaluations := [] |}.

Definition rubric_key (rubric_idx : nat) : string :=
  "rubric_" ++ str_of_nat rubric_idx.

(** The loop [for rubric_idx, rubric_item in enumerate(rubric_items, 1)]
    from position [rubric_idx] on. *)
Fixpoint grade_items (c : client) (model_response user_query : string)
  (rubric_idx : nat) (items : list rubric_item)
  (model_evaluations : dict judgment) : E (dict judgment) :=
  match items with
  | [] => ret model_evaluations
  | rubric_item :: rest =>
      if (criterion rubric_item =? "")%string then
        grade_items c model_response user_query (S rubric_idx) rest
          model_evaluations
      else
        score <- evaluate_rubric_item c (criterion rubric_item)
                   model_response user_query ;;
        let entry :=
          {| j_criterion := criterion rubric_item;
             j_points := points rubric_item;
             j_axe := axe rubric_item;
             j_score := score;
             j_weighted_score := (points rubric_item * inject_Z score)%Q |} in
        sleep (2 # 10) ;;
        grade_items c model_response user_query (S rubric_idx) rest
          (dict_set (rubric_key rubric_idx) entry model_evaluations)
  end.

(** The dict comprehension indexing the loaded output file by
    [str(case_id)]. *)
Fixpoint index_existing (existing_list : list eval_record)
  (acc : dict eval_record) : dict eval_record :=
  match existing_list with
  | [] => acc
  | e :: rest =>
      match case_id e with
      | Some cid => index_existing rest (dict_set (str cid) e acc)
      | None => index_existing rest acc
      end
  end.

(** [existing_file] is the list the output file holds, when the file
    exists and loads as a list. *)
Definition load_existing (resume : bool)
  (existing_file : option (list eval_record)) : dict eval_record :=
  match resume, existing_file with
  | true, Some existing_list => index_existing existing_list []
  | _, _ => []
  end.

(** The response text of a model record: the configured field, then
    the field [response]. *)
Definition lookup_response (model_case : model_case)
  (response_field : string) : string :=
  let model_response := or_else (dict_get response_field model_case) "" in
  if (model_response =? "")%string
     && negb (response_field =? "response")%string
  then or_else (dict_get "response" model_case) ""
  else model_response.

(** *** [load_model_results] *)

(** An element of the model-result file: a JSON object, given by its
    [case_id] field ([None] when the field is missing or null) and the
    record itself, or a value that is not an object. *)
Inductive result_item : Type :=
| ItemDict (item_case_id : option pyid) (item : model_case)
| ItemOther.

(** The root of the model-result file: a list, an object (its keys in
    file order) or another value. *)
Inductive result_root : Type :=
| RootList (items : list result_item)
| RootDict (entries : list (string * result_item))
| RootOther.

(** The model-result file on disk: absent, not loadable as JSON, or
    holding a value. *)
Inductive result_file : Type :=
| FileMissing
| FileUnreadable
| FileHolds (data : result_root).

(** [v.get("case_id") or k] *)
Definition id_or_key (case_id : option pyid) (k : string) : string :=
  match case_id with
  | None => k
  | Some (IdStr s) => if (s =? "")%string then k else s
  | Some (IdInt z) => if (z =? 0)%Z then k else str (IdInt z)
  end.

(** [for item in data] on a list root. *)
Fixpoint index_items (data : list result_item)
  (model_dict : dict model_case) : dict model_case :=
  match data with
  | [] => model_dict
  | ItemOther :: rest => index_items rest model_dict
  | ItemDict None _ :: rest => index_items rest model_dict
  | ItemDict (Some case_id) item :: rest =>
      index_items rest (dict_set (str case_id) item model_dict)
  end.

(** [for k, v in data.items()] on an object root. *)
Fixpoint index_entries (data : list (string * result_item))
  (model_dict : dict model_case) : dict model_case :=
  match data with
  | [] => model_dict
  | (k, ItemOther) :: rest => index_entries rest model_dict
  | (k, ItemDict case_id v) :: rest =>
      index_entries rest (dict_set (id_or_key case_id k) v model_dict)
  end.

(** [load_model_results]; the [except] clause turns the [TypeError] of
    the last branch and any failure of [load_json_file] into the empty
    dict.  [response_field] is not used by the function. *)
Definition load_model_results (model_result_file : result_file)
  (response_field : string) : dict model_case :=
  match model_result_file with
  | FileMissing => []
  | FileUnreadable => []
  | FileHolds (RootList items) => index_items items []
  | FileHolds (RootDict entries) => index_entries entries []
  | FileHolds RootOther => []
  end.

Section Run.
Variable c : client.
Variable model_results : dict model_case.
Variable existing_evaluations : dict eval_record.
Variable response_field : string.
Variable max_cases : option nat.

Definition budget_reached (processed_count : nat) : bool :=
  match max_cases with
  | Some m => m <=? processed_count
  | None => false
  end.

(** The loop [for idx, case in enumerate(rubric_data)]; the result is
    the list [results] when the loop ends. *)
Fixpoint eval_loop (cases : list rubric_case)
  (results : list eval_record) (processed_count : nat)
  : E (list eval_record) :=
  match cases with
  | [] => ret results
  | case :: rest =>
      if budget_reached processed_count then ret results
      else
        match rc_case_id case with
        | None => eval_loop rest results processed_count
        | Some cid =>
            let case_id_str := str cid in
            let rubric_items := rc_rubric_items case in
            match rubric_items with
            | [] =>
                if dict_mem case_id_str existing_evaluations
                then eval_loop rest results processed_count
                else eval_loop rest (results ++ [empty_record cid])
                       processed_count
            | _ :: _ =>
                match dict_get case_id_str existing_evaluations with
                | Some stored =>
                    eval_loop rest (results ++ [stored]) processed_count
                | None =>
                    let processed_count := S processed_count in
                    match dict_get case_id_str model_results with
                    | None =>
                        eval_loop rest (results ++ [empty_record cid])
                          processed_count
                    | Some model_case =>
                        let model_response :=
                          lookup_response model_case response_field in
                        if (model_response =? "")%string then
                          eval_loop rest (results ++ [empty_record cid])
                            processed_count
                        else
                          let user_query :=
                            strip (rc_narrative case ++ nl ++ nl
                                   ++ rc_core_request case) in
                          model_evaluations <-
                            grade_items c model_response user_query 1
                              rubric_items [] ;;
                          let result :=
                            {| case_id := Some cid;
                               evaluations := model_evaluations |} in
                          let results := (results ++ [result])%list in
                          (if processed_count mod 5 =? 0 then
                             emit (EvSave (dict_values existing_evaluations
                                           ++ results)%list)
                           else ret tt) ;;
                          eval_loop rest results processed_count
                    end
                end
            end
        end
  end.
End Run.

(** [process_evaluations]; the value returned is [final_results], the
    list written to the output file at the end. *)
Definition process_evaluations (c : client)
  (rubric_data : list rubric_case) (model_results : dict model_case)
  (existing_file : option (list eval_record)) (response_field : string)
  (max_cases : option nat) (resume : bool) : E (list eval_record) :=
  let existing_evaluations := load_existing resume existing_file in
  results <- eval_loop c model_results existing_evaluations response_field
               max_cases rubric_data [] 0 ;;
  let final_results := (dict_values existing_evaluations ++ results)%list in
  emit (EvSave final_results) ;;
  ret final_results.

End EvaluateModel.

(** ** [run_model.py] *)

Module RunModel.
Import Py Eff.
Import EvaluateModel(pyid, IdStr, IdInt, pyid_eqb).
#[local] Open Scope eff_scope.

(** The entry [case_id] of an input case: the key is missing, or it
    holds null, or it holds an id. *)
Inductive case_id_field : Type :=
| KeyMissing
| KeyNull
| KeyId (i : pyid).

(** One case of the input data file. *)
Record input_case : Type := {
  ic_case_id : case_id_field;
  ic_post_time : string;
  ic_narrative : string;
  ic_core_request : string;
  ic_doctor_advice : string
}.

Record response_record : Type := {
  rr_case_id : option pyid;
  rr_post_time : string;
  rr_narrative : string;
  rr_core_request : string;
  rr_model_response : string;
  rr_finish_reason : string;
  rr_doctor_advice : string
}.

Definition R : Type -> Type := M (list response_record).

(** [has_chinese]: a character in U+4E00..U+9FFF is, in UTF-8, a
    sequence led by E5..E9, or by E4 with a second byte from B8 on. *)
Fixpoint has_chinese (text : string) : bool :=
  match text with
  | "" => false
  | String ch rest =>
      let n := nat_of_ascii ch in
      if (229 <=? n) && (n <=? 233) then true
      else if (n =? 228)
              && match rest with
                 | String ch2 _ => 184 <=? nat_of_ascii ch2
                 | "" => false
                 end
      then true
      else has_chinese rest
  end.

Definition create_prompt (narrative core_request : string) : string :=
  let combined_text := narrative ++ nl ++ nl ++ core_request in
  let instruction :=
    if has_chinese combined_text then
      "请直接用中文回答下面的问题，不要给出推理过程或中间步骤。"
    else
      "IMPORTANT: Provide ONLY the final answer to the following question, "
      ++ "without any explanation or reasoning steps." in
  instruction ++ nl ++ nl ++ narrative ++ nl ++ nl ++ core_request.

(** The triple [call_chat_model] returns. *)
Record chat_result : Type := {
  raw_response : option (option string * option string);
  text : string;
  finish_reason : string
}.

(** The iterations of [for attempt in range(max_retries)] from
    [attempt] on; [None] is the value of a call whose loop ends without
    a [return]. *)
Fixpoint chat_attempts (c : client) (model prompt : string)
  (max_retries remaining attempt : nat) : R (option chat_result) :=
  match remaining with
  | 0 => ret None
  | S remaining' =>
      try_catch
        (response <- create c model prompt ;;
         let content := or_else (fst response) "" in
         let finish_reason := or_else (snd response) "unknown" in
         ret (Some {| raw_response := Some response;
                      text := strip content;
                      finish_reason := finish_reason |}))
        (fun e =>
           if attempt <? max_retries - 1 then
             let wait_time := ((Z.of_nat attempt + 1) * 2)%Z in
             print (LogRetry wait_time) ;;
             sleep (inject_Z wait_time) ;;
             chat_attempts c model prompt max_retries remaining' (S attempt)
           else
             print LogExhausted ;;
             ret (Some {| raw_response := None;
                          text := "ERROR: " ++ e;
                          finish_reason := "error" |}))
  end.

Definition call_chat_model (c : client) (model prompt : string)
  (max_retries : nat) : R (option chat_result) :=
  chat_attempts c model prompt max_retries max_retries 0.

Definition save_results (results : list response_record) : R unit :=
  emit (EvSave results).

(** The ids of the loaded records: the values of [r.get("case_id")]
    that are not [None]. *)
Fixpoint ids_of (results : list response_record) : list pyid :=
  match results with
  | [] => []
  | r :: rest =>
      match rr_case_id r with
      | Some i => i :: ids_of rest
      | None => ids_of rest
      end
  end.

(** The set [processed_case_ids] built from the loaded records.  Its
    elements are Python values: an id, or [None] once a case whose
    [case_id] is null was processed. *)
Definition loaded_ids (results : list response_record)
  : list (option pyid) :=
  map Some (ids_of results).

(** Equality of two values that are an id or [None]. *)
Definition value_eqb (a b : option pyid) : bool :=
  match a, b with
  | Some x, Some y => pyid_eqb x y
  | None, None => true
  | _, _ => false
  end.

(** [case_id in processed_case_ids] *)
Definition id_in (i : option pyid) (ids : list (option pyid)) : bool :=
  existsb (value_eqb i) ids.

(** [case.get("case_id", f"case_{idx}")]: the default is used only when
    the key is missing; a key that holds null gives [None]. *)
Definition effective_id (idx : nat) (case : input_case) : option pyid :=
  match ic_case_id case with
  | KeyId i => Some i
  | KeyNull => None
  | KeyMissing => Some (IdStr ("case_" ++ str_of_nat idx))
  end.

Section Run.
Variable c : client.
Variable model : string.
Variable max_cases : option nat.

(** The loop [for idx, case in enumerate(data)] from [idx] on. *)
Fixpoint cases_loop (idx : nat) (data : list input_case)
  (results : list response_record)
  (processed_case_ids : list (option pyid))
  (processed_count : nat) : R (list response_record) :=
  match data with
  | [] => ret results
  | case :: rest =>
      let case_id := effective_id idx case in
      if id_in case_id processed_case_ids then
        cases_loop (S idx) rest results processed_case_ids processed_count
      else
        let narrative := ic_narrative case in
        let core_request := ic_core_request case in
        let processed_count := S processed_count in
        let prompt := create_prompt narrative core_request in
        answer <- call_chat_model c model prompt 3 ;;
        match answer with
        | None => raise "TypeError"
        | Some a =>
            let record :=
              {| rr_case_id := case_id;
                 rr_post_time := ic_post_time case;
                 rr_narrative := narrative;
                 rr_core_request := core_request;
                 rr_model_response := text a;
                 rr_finish_reason := finish_reason a;
                 rr_doctor_advice := ic_doctor_advice case |} in
            let results := (results ++ [record])%list in
            let processed_case_ids :=
              (processed_case_ids ++ [case_id])%list in
            save_results results ;;
            if match max_cases with
               | Some m => m <=? processed_count
               | None => false
               end
            then ret results
            else
              sleep (5 # 10) ;;
              cases_loop (S idx) rest results processed_case_ids
                processed_count
        end
  end.
End Run.

(** [existing_file] is the list the output file holds, when the file
    exists and loads as a list. *)
Definition process_cases (c : client) (model : string)
  (data : list input_case) (existing_file : option (list response_record))
  (max_cases : option nat) (resume : bool) : R (list response_record) :=
  let results :=
    match resume, existing_file with
    | true, Some existing_results => existing_results
    | _, _ => []
    end in
  cases_loop c model max_cases 0 data results (loaded_ids results) 0.

(** [main], once the data file is loaded and the client is made: the
    run, then the final save. *)
Definition main (c : client) (model : string)
  (data : list input_case) (existing_file : option (list response_record))
  (max_cases : option nat) (resume : bool) : R unit :=
  results <- process_cases c model data existing_file max_cases resume ;;
  save_results results.

End RunModel.

(** ** [metric_calc.py] *)

Module MetricCalc.
Import Py.
Import EvaluateModel(pyid, IdStr, IdInt, pyid_eqb, str, rubric_item,
  criterion, points, axe, rubric_case, rc_case_id, rc_post_time,
  rc_rubric_items, judgment, j_criterion, j_weighted_score, eval_record,
  case_id, evaluations).

(** [0 < q] on numbers. *)
Definition Qpos_b (q : Q) : bool := negb (Qle_bool q 0).

(** [sum(values)] *)
Definition py_sum (values : list Q) : Q := fold_left Qplus values 0%Q.

(** *** [calculate_max_possible_score] *)
Definition calculate_max_possible_score (rubric_items : list rubric_item)
  : Q :=
  match rubric_items with
  | [] => 0%Q
  | _ =>
      fold_left
        (fun max_score item =>
           if Qpos_b (points item) then (max_score + points item)%Q
           else max_score)
        rubric_items 0%Q
  end.

(** *** [calculate_case_total_score] *)

(** The dictionary [rubric_criteria]: criterion to points, over the
    items with a non-empty criterion. *)
Definition rubric_criteria_of (rubric_items : list rubric_item) : dict Q :=
  fold_left
    (fun rubric_criteria item =>
       if (criterion item =? "")%string then rubric_criteria
       else dict_set (criterion item) (points item) rubric_criteria)
    rubric_items [].

Definition calculate_case_total_score (evaluations : dict judgment)
  (rubric_items : list rubric_item) : Q :=
  match evaluations, rubric_items with
  | [], _ => 0%Q
  | _, [] => 0%Q
  | _, _ =>
      let rubric_criteria := rubric_criteria_of rubric_items in
      fold_left
        (fun total_score entry =>
           let rubric_data := snd entry in
           let criterion := j_criterion rubric_data in
           if (criterion =? "")%string
              || negb (dict_mem criterion rubric_criteria)
           then total_score
           else (total_score + j_weighted_score rubric_data)%Q)
        evaluations 0%Q
  end.

(** The per-case value computed inside [calculate_model_scores]. *)
Definition per_example_score (evaluations : dict judgment)
  (rubric_items : list rubric_item) : Q :=
  let total_score := calculate_case_total_score evaluations rubric_items in
  let max_possible_score := calculate_max_possible_score rubric_items in
  if Qpos_b max_possible_score then (total_score / max_possible_score)%Q
  else 0%Q.

(** The entry of [rubric_mapping] for one case. *)
Record rubric_info : Type := {
  ri_post_time : string;
  ri_rubric_items : list rubric_item
}.

Record case_score : Type := {
  score : Q;
  post_time : string;
  year_month : string
}.

(** [not case_id] *)
Definition falsy_id (i : option pyid) : bool :=
  match i with
  | None => true
  | Some (IdStr s) => (s =? "")%string
  | Some (IdInt z) => (z =? 0)%Z
  end.

(** [rubric_mapping.get(case_id, {})]: the keys of the mapping are
    strings, so only a string id can be found. *)
Definition lookup_rubric (i : pyid) (rubric_mapping : dict rubric_info)
  : rubric_info :=
  match i with
  | IdStr s =>
      match dict_get s rubric_mapping with
      | Some info => info
      | None => {| ri_post_time := ""; ri_rubric_items := [] |}
      end
  | IdInt _ => {| ri_post_time := ""; ri_rubric_items := [] |}
  end.

(** Insertion sort for [sorted] on strings. *)
Fixpoint insert_sorted (s : string) (l : list string) : list string :=
  match l with
  | [] => [s]
  | x :: rest =>
      if String.leb s x then s :: l else x :: insert_sorted s rest
  end.

Definition sorted (l : list string) : list string :=
  fold_right insert_sorted [] l.

(** [months.add(m)] on a set kept as a duplicate-free list. *)
Definition set_add (m : string) (months : list string) : list string :=
  if existsb (String.eqb m) months then months else (months ++ [m])%list.

(** [max(0.0, min(1.0, avg))] *)
Definition clip (avg : Q) : Q :=
  let m := if Qpos_b (1 - avg) then avg else 1%Q in
  if Qpos_b m then m else 0%Q.

(** The mean of a score list clipped to the unit interval, 0 for the
    empty list. *)
Definition clipped_mean (scores : list Q) : Q :=
  match scores with
  | [] => 0%Q
  | _ => clip (py_sum scores / inject_Z (Z.of_nat (List.length scores)))%Q
  end.

(** [d[k]] on a [defaultdict]. *)
Definition get_default {V} (k : string) (d : dict V) (default : V) : V :=
  match dict_get k d with
  | Some v => v
  | None => default
  end.

Record table : Type := {
  header : list string;
  monthly_rows : list (string * list Q * nat);
  overall_row : list Q * nat
}.

Section Dates.
(** [datetime.fromisoformat] and [datetime.strftime] belong to
    Python's standard library; a parse that raises is [None]. *)
Variable datetime : Type.
Variable fromisoformat : string -> option datetime.
Variable strftime : datetime -> string -> string.

(** *** [extract_year_month] *)
Definition extract_year_month (post_time : string) : string :=
  match fromisoformat (replace_char "Z"%char "+00:00" post_time) with
  | Some dt => strftime dt "%Y-%m"
  | None => "Unknown"
  end.

(** *** [calculate_model_scores] *)
Definition calculate_model_scores (evaluation_data : list eval_record)
  (rubric_mapping : dict rubric_info) : assoc pyid case_score :=
  fold_left
    (fun case_scores case_eval =>
       match case_id case_eval with
       | Some cid =>
           if falsy_id (Some cid) then case_scores
           else
             let rubric_info := lookup_rubric cid rubric_mapping in
             let rubric_items := ri_rubric_items rubric_info in
             let post_time := ri_post_time rubric_info in
             assoc_set pyid_eqb cid
               {| score :=
                    per_example_score (evaluations case_eval) rubric_items;
                  post_time := post_time;
                  year_month :=
                    if (post_time =? "")%string then "Unknown"
                    else extract_year_month post_time |}
               case_scores
       | None => case_scores
       end)
    evaluation_data [].

(** *** [main] *)

Definition build_rubric_mapping (rubric_data : list rubric_case)
  : dict rubric_info :=
  fold_left
    (fun rubric_mapping case =>
       match rc_case_id case with
       | Some cid =>
           dict_set (str cid)
             {| ri_post_time := rc_post_time case;
                ri_rubric_items := rc_rubric_items case |}
             rubric_mapping
       | None => rubric_mapping
       end)
    rubric_data [].

Definition build_all_model_scores
  (model_files : dict (list eval_record))
  (rubric_mapping : dict rubric_info) : dict (assoc pyid case_score) :=
  fold_left
    (fun all_model_scores file =>
       dict_set (fst file)
         (calculate_model_scores (snd file) rubric_mapping)
         all_model_scores)
    model_files [].

Definition collect_months (all_model_scores : dict (assoc pyid case_score))
  : list string :=
  fold_left
    (fun all_months model_scores =>
       fold_left
         (fun all_months entry =>
            let year_month := year_month (snd entry) in
            if (year_month =? "Unknown")%string then all_months
            else set_add year_month all_months)
         (snd model_scores) all_months)
    all_model_scores [].

(** The grouping loop: the state is [monthly_scores] and
    [monthly_case_counts]. *)
Definition group_by_month (first_model_name : string)
  (all_model_scores : dict (assoc pyid case_score))
  : dict (dict (list Q)) * dict nat :=
  fold_left
    (fun st model_scores =>
       let model_name := fst model_scores in
       fold_left
         (fun st entry =>
            let '(monthly_scores, monthly_case_counts) := st in
            let score_info := snd entry in
            let year_month := year_month score_info in
            if (year_month =? "Unknown")%string then st
            else
              let by_model := get_default year_month monthly_scores [] in
              let scores := get_default model_name by_model [] in
              (dict_set year_month
                 (dict_set model_name (scores ++ [score score_info])%list
                    by_model)
                 monthly_scores,
               if (model_name =? first_model_name)%string then
                 dict_set year_month
                   (get_default year_month monthly_case_counts 0 + 1)
                   monthly_case_counts
               else monthly_case_counts))
         (snd model_scores) st)
    all_model_scores ([], []).

Definition monthly_avg_of (model_names : list string)
  (all_months : list string) (monthly_scores : dict (dict (list Q)))
  : dict (dict Q) :=
  fold_left
    (fun monthly_avg year_month =>
       fold_left
         (fun monthly_avg model_name =>
            let scores :=
              get_default model_name
                (get_default year_month monthly_scores []) [] in
            dict_set year_month
              (dict_set model_name (clipped_mean scores)
                 (get_default year_month monthly_avg []))
              monthly_avg)
         model_names monthly_avg)
    (sorted all_months) [].

Definition overall_avgs_of
  (all_model_scores : dict (assoc pyid case_score)) : dict Q :=
  fold_left
    (fun overall_avgs model_scores =>
       let all_scores := map (fun e => score (snd e)) (snd model_scores) in
       dict_set (fst model_scores) (clipped_mean all_scores) overall_avgs)
    all_model_scores [].

(** The table [main] computes from the loaded files; cells are kept as
    numbers. *)
Definition build_table (model_files : dict (list eval_record))
  (rubric_data : list rubric_case) : table :=
  let rubric_mapping := build_rubric_mapping rubric_data in
  let all_model_scores :=
    build_all_model_scores model_files rubric_mapping in
  let all_months := collect_months all_model_scores in
  let first_model_name :=
    match all_model_scores with
    | (name, _) :: _ => name
    | [] => ""
    end in
  let '(monthly_scores, monthly_case_counts) :=
    group_by_month first_model_name all_model_scores in
  let monthly_avg :=
    monthly_avg_of (dict_keys model_files) all_months monthly_scores in
  let overall_avgs := overall_avgs_of all_model_scores in
  let all_model_names := sorted (dict_keys model_files) in
  {| header := ("Date" :: all_model_names ++ ["# case"])%list;
     monthly_rows :=
       map
         (fun year_month =>
            (year_month,
             map (fun model_name =>
                    get_default model_name
                      (get_default year_month monthly_avg []) 0%Q)
                 all_model_names,
             get_default year_month monthly_case_counts 0))
         (sorted (dict_keys monthly_avg));
     overall_row :=
       (map (fun model_name => get_default model_name overall_avgs 0%Q)
            all_model_names,
        fold_left Nat.add (dict_values monthly_case_counts) 0) |}.

(** [main], from the loaded files to the table it writes; [None] when
    no evaluation file is found. *)
Definition main (model_files : dict (list eval_record))
  (rubric_data : list rubric_case) : option table :=
  match model_files with
  | [] => None
  | _ => Some (build_table model_files rubric_data)
  end.
End Dates.

(** *** [load_model_files] *)

Section Files.
(** [glob.glob] and [pathlib.Path] belong to Python's standard
    library: [globbed] is the list of paths [glob.glob(pattern)]
    returns, and [name] is the last component of a path. *)
Variable path : Type.
Variable name : path -> string.

Definition load_model_files (globbed : list path) : dict path :=
  fold_left
    (fun model_files p =>
       let filename := name p in
       if startswith "evaluation_results_" filename
          && endswith ".json" filename
       then
         let model_name :=
           slice_between (String.length "evaluation_results_")
             (String.length ".json") filename in
         dict_set model_name p model_files
       else model_files)
    globbed [].
End Files.

End MetricCalc.

(** * Properties *)

(** ** Strings and dictionaries *)

Module PyFacts.
Import Py.

Lemma lstrip_whitespace (w s : string) :
  In w py_whitespace -> lstrip (w ++ s) = lstrip s.
Proof.
  unfold py_whitespace; intros H.
  repeat (destruct H as [<- | H]; [reflexivity | ]).
  destruct H.
Qed.

Lemma lstrip_whitespace_only (s : string) :
  whitespace_only s -> lstrip s = "".
Proof.
  induction 1 as [ | w s Hw Hs IH].
  - reflexivity.
  - rewrite lstrip_whitespace by assumption. exact IH.
Qed.

Lemma strip_whitespace_only (s : string) :
  whitespace_only s -> strip s = "".
Proof.
  intros H. unfold strip. rewrite (lstrip_whitespace_only s H). reflexivity.
Qed.

Section AssocFacts.
Context {K V : Type}.
Variable eqb : K -> K -> bool.
Hypothesis eqb_spec : forall a b, eqb a b = true <-> a = b.

Lemma assoc_set_fresh (k : K) (v : V) (d : assoc K V) :
  assoc_get eqb k d = None -> assoc_set eqb k v d = (d ++ [(k, v)])%list.
Proof.
  induction d as [ | [k' v'] d IH]; simpl; intros H.
  - reflexivity.
  - destruct (eqb k' k); [discriminate | ]. now rewrite IH.
Qed.

Lemma assoc_get_none (k : K) (d : assoc K V) :
  ~ In k (map fst d) -> assoc_get eqb k d = None.
Proof.
  induction d as [ | [k' v'] d IH]; simpl; intros H.
  - reflexivity.
  - destruct (eqb k' k) eqn:E.
    + apply eqb_spec in E. tauto.
    + apply IH. tauto.
Qed.

Lemma assoc_get_in (k : K) (v : V) (d : assoc K V) :
  assoc_get eqb k d = Some v -> In (k, v) d.
Proof.
  induction d as [ | [k' v'] d IH]; simpl; intros H.
  - discriminate.
  - destruct (eqb k' k) eqn:E.
    + apply eqb_spec in E. inversion H; subst. now left.
    + right. now apply IH.
Qed.

Lemma assoc_get_some_key (k : K) (d : assoc K V) :
  In k (map fst d) -> exists v, assoc_get eqb k d = Some v.
Proof.
  induction d as [ | [k' v'] d IH]; simpl; intros H.
  - destruct H.
  - destruct (eqb k' k) eqn:E.
    + now exists v'.
    + destruct H as [H | H].
      * apply eqb_spec in H. congruence.
      * now apply IH.
Qed.

Lemma assoc_set_keys (k : K) (v : V) (d : assoc K V) :
  forall k', In k' (map fst (assoc_set eqb k v d)) <->
             k' = k \/ In k' (map fst d).
Proof.
  induction d as [ | [k0 v0] d IH]; simpl; intros k'.
  - intuition.
  - destruct (eqb k0 k) eqn:E; simpl.
    + apply eqb_spec in E. subst. intuition.
    + rewrite IH. intuition.
Qed.

Lemma assoc_get_set_same (k : K) (v : V) (d : assoc K V) :
  assoc_get eqb k (assoc_set eqb k v d) = Some v.
Proof.
  assert (R : eqb k k = true) by now apply eqb_spec.
  induction d as [ | [k0 v0] d IH]; simpl.
  - now rewrite R.
  - destruct (eqb k0 k) eqn:E; simpl.
    + now rewrite R.
    + now rewrite E.
Qed.

Lemma assoc_get_set_other (k k' : K) (v : V) (d : assoc K V) :
  k' <> k ->
  assoc_get eqb k' (assoc_set eqb k v d) = assoc_get eqb k' d.
Proof.
  intros N.
  assert (R : eqb k k' = false).
  { destruct (eqb k k') eqn:E; [ | reflexivity].
    apply eqb_spec in E. congruence. }
  induction d as [ | [k0 v0] d IH]; simpl.
  - now rewrite R.
  - destruct (eqb k0 k) eqn:E; simpl.
    + apply eqb_spec in E. subst. now rewrite R.
    + destruct (eqb k0 k'); [reflexivity | exact IH].
Qed.
End AssocFacts.

Lemma str_of_nat_inj (a b : nat) : str_of_nat a = str_of_nat b -> a = b.
Proof.
  unfold str_of_nat. intros H.
  assert (E : Some (Nat.to_uint a) = Some (Nat.to_uint b)).
  { rewrite <- (NilEmpty.usu (Nat.to_uint a)), <- (NilEmpty.usu (Nat.to_uint b)).
    now rewrite H. }
  inversion E as [E'].
  rewrite <- (Unsigned.of_to a), <- (Unsigned.of_to b). now rewrite E'.
Qed.

Lemma append_inj_l (p s t : string) : p ++ s = p ++ t -> s = t.
Proof.
  induction p as [ | c p IH]; simpl; intros H.
  - exact H.
  - inversion H. now apply IH.
Qed.

(** *** Dictionaries, entry by entry *)

Section AssocEntries.
Context {K V : Type}.
Variable eqb : K -> K -> bool.
Hypothesis eqb_spec : forall a b, eqb a b = true <-> a = b.

Lemma assoc_set_In (k : K) (v : V) (d : assoc K V) (k' : K) (v' : V) :
  In (k', v') (assoc_set eqb k v d) -> (k' = k /\ v' = v) \/ In (k', v') d.
Proof.
  induction d as [ | [k0 v0] d IH]; simpl.
  - intros [H | []]. inversion H. auto.
  - destruct (eqb k0 k); simpl.
    + intros [H | H]; [inversion H; auto | auto].
    + intros [H | H]; [auto | ]. destruct (IH H); auto.
Qed.

Lemma assoc_set_NoDup (k : K) (v : V) (d : assoc K V) :
  NoDup (map fst d) -> NoDup (map fst (assoc_set eqb k v d)).
Proof.
  induction d as [ | [k0 v0] d IH]; simpl; intros H.
  - constructor; [intros [] | constructor].
  - inversion H as [ | ? ? Hnotin Hnd]; subst.
    destruct (eqb k0 k) eqn:E; simpl.
    + apply eqb_spec in E. subst. now constructor.
    + constructor; [ | now apply IH].
      rewrite (assoc_set_keys eqb eqb_spec). intros [-> | Hin].
      * assert (eqb k k = true) by now apply eqb_spec. congruence.
      * contradiction.
Qed.

(** The dictionary without the key [k]. *)
Definition remove_key (k : K) (d : assoc K V) : assoc K V :=
  filter (fun e => negb (eqb (fst e) k)) d.

Lemma remove_key_set_same (k : K) (v : V) (d : assoc K V) :
  remove_key k (assoc_set eqb k v d) = remove_key k d.
Proof.
  assert (R : eqb k k = true) by now apply eqb_spec.
  induction d as [ | [k0 v0] d IH]; simpl.
  - now rewrite R.
  - destruct (eqb k0 k) eqn:E; simpl.
    + now rewrite R.
    + now rewrite E, IH.
Qed.

Lemma remove_key_set_other (k k' : K) (v : V) (d : assoc K V) :
  k' <> k ->
  remove_key k (assoc_set eqb k' v d) = assoc_set eqb k' v (remove_key k d).
Proof.
  intros N.
  assert (R : eqb k' k = false).
  { destruct (eqb k' k) eqn:E; [ | reflexivity].
    apply eqb_spec in E. contradiction. }
  induction d as [ | [k0 v0] d IH]; simpl.
  - now rewrite R.
  - destruct (eqb k0 k') eqn:E; simpl.
    + apply eqb_spec in E. subst k0. rewrite R. simpl.
      assert (R' : eqb k' k' = true) by now apply eqb_spec.
      now rewrite R'.
    + destruct (eqb k0 k); simpl; [exact IH | ].
      now rewrite E, IH.
Qed.
End AssocEntries.

(** The dictionary with [g] applied to every value. *)
Definition map_values {K V W : Type} (g : V -> W) (d : assoc K V)
  : assoc K W :=
  map (fun e => (fst e, g (snd e))) d.

Lemma assoc_set_map_values {K V W : Type} (eqb : K -> K -> bool)
  (g : V -> W) (k : K) (v : V) (d : assoc K V) :
  assoc_set eqb k (g v) (map_values g d) = map_values g (assoc_set eqb k v d).
Proof.
  induction d as [ | [k0 v0] d IH]; simpl; [reflexivity | ].
  destruct (eqb k0 k); simpl; [reflexivity | now rewrite IH].
Qed.

Lemma map_values_keys {K V W : Type} (g : V -> W) (d : assoc K V) :
  dict_keys (map_values g d) = dict_keys d.
Proof.
  unfold dict_keys, map_values. rewrite map_map. reflexivity.
Qed.

(** Dropping the elements on which a step does nothing does not change
    a fold. *)
Lemma fold_left_filter_noop {A B : Type} (step : A -> B -> A)
  (keep : B -> bool) (l : list B) :
  (forall st e, In e l -> keep e = false -> step st e = st) ->
  forall st, fold_left step (filter keep l) st = fold_left step l st.
Proof.
  induction l as [ | e l IH]; intros H st; [reflexivity | ].
  simpl. destruct (keep e) eqn:E; simpl.
  - apply IH. intros st' e' Hin. apply H. now right.
  - rewrite (H st e (or_introl eq_refl) E).
    apply IH. intros st' e' Hin. apply H. now right.
Qed.

End PyFacts.

(** ** Traces and the retry schedule *)

Module EffFacts.
Import Eff.
#[local] Open Scope list_scope.

(** What a retry policy prescribes: attempts and the waits between them. *)
Inductive step : Type :=
| Attempt
| Wait (seconds : Q).

Section Traces.
Context {F : Type}.
Implicit Types w evs : trace F.

Definition step_of (e : event F) : list step :=
  match e with
  | EvCall _ _ => [Attempt]
  | EvSleep q => [Wait q]
  | _ => []
  end.

Definition skeleton (evs : trace F) : list step := flat_map step_of evs.

Lemma calls_app w evs : calls (w ++ evs) = calls w ++ calls evs.
Proof. apply filter_app. Qed.

Lemma skeleton_app w evs :
  skeleton (w ++ evs) = skeleton w ++ skeleton evs.
Proof. apply flat_map_app. Qed.

Lemma calls_length_call w model prompt :
  List.length (calls (w ++ [EvCall model prompt])) = S (List.length (calls w)).
Proof. rewrite calls_app, length_app. simpl. lia. Qed.
End Traces.

(** [k] attempts, the first of them the [i]-th of the call: after the
    [i]-th attempt fails the caller waits [i * 2] seconds. *)
Fixpoint schedule (i k : nat) : list step :=
  match k with
  | 0 => []
  | S k' =>
      match k' with
      | 0 => [Attempt]
      | S _ => Attempt :: Wait (inject_Z (Z.of_nat i * 2)) :: schedule (S i) k'
      end
  end.

(** Every call event of an explicit list of events is the expected one. *)
Ltac only_calls :=
  repeat (apply Forall_cons; [intros ?; first [reflexivity | discriminate] | ]);
  apply Forall_nil.

Definition is_attempt (s : step) : bool :=
  match s with Attempt => true | Wait _ => false end.

(** The number of attempts of a list of steps. *)
Definition attempts (l : list step) : nat := List.length (filter is_attempt l).

Lemma attempts_schedule (k i : nat) : attempts (schedule i k) = k.
Proof.
  revert i. induction k as [ | k IH]; intros i; [reflexivity | ].
  destruct k as [ | k']; [reflexivity | ].
  change (schedule i (S (S k')))
    with (Attempt :: Wait (inject_Z (Z.of_nat i * 2)) :: schedule (S i) (S k')).
  change (S (attempts (schedule (S i) (S k'))) = S (S k')).
  now rewrite IH.
Qed.

Lemma calls_attempts {F : Type} (evs : trace F) :
  List.length (calls evs) = attempts (skeleton evs).
Proof.
  unfold attempts, calls, skeleton.
  induction evs as [ | e evs IH]; [reflexivity | ].
  destruct e; simpl; rewrite ?IH; reflexivity.
Qed.

Lemma calls_all_equal {F : Type} (call : event F) (evs : trace F) :
  Forall (fun e => is_call e = true -> e = call) evs ->
  calls evs = repeat call (List.length (calls evs)).
Proof.
  unfold calls. induction 1 as [ | e evs He Hall IH]; [reflexivity | ].
  simpl. destruct (is_call e) eqn:Ec; [ | exact IH].
  simpl. rewrite <- IH. now rewrite (He eq_refl).
Qed.

Definition raises (r : api_result) : Prop :=
  match r with ApiRaise _ => True | ApiReturn _ _ => False end.

Definition error_of (r : api_result) : string :=
  match r with ApiRaise e => e | ApiReturn _ _ => "" end.

End EffFacts.

(** ** The reply parser and the grading client *)

Module EvaluateModelFacts.
Import Py Json Eff EffFacts PyFacts EvaluateModel.
#[local] Open Scope list_scope.

Lemma parse_met_binary (text r : string) :
  parse_met text = Some r -> r = "0" \/ r = "1".
Proof.
  unfold parse_met. intros H.
  repeat match type of H with
         | context [match ?x with _ => _ end] => destruct x
         end;
    inversion H; auto.
Qed.

(** The parser returns, with one of the two digits, after at most a
    warning. *)
Lemma parse_reply_spec (text : string) (w : trace (list eval_record)) :
  exists r evs,
    parse_reply text w = (Ok r, w ++ evs)
    /\ (r = "0" \/ r = "1")
    /\ (evs = [] \/ evs = [EvLog LogUnparsed]).
Proof.
  unfold parse_reply.
  destruct (parse_met text) as [r | ] eqn:E.
  - exists r, []. rewrite app_nil_r. split; [reflexivity | ].
    split; [now apply parse_met_binary with text | now left].
  - cbv zeta.
    repeat match goal with
           | |- context [if ?b then _ else _] => destruct b
           end;
      first [ exists "1", []; rewrite app_nil_r; now auto
            | exists "0", []; rewrite app_nil_r; now auto
            | exists "0", [EvLog LogUnparsed]; now auto ].
Qed.

Lemma py_int_binary (r : string) (w : trace (list eval_record)) :
  r = "0" \/ r = "1" ->
  exists z, py_int r w = (Ok z, w) /\ (z = 0 \/ z = 1)%Z.
Proof.
  intros [-> | ->]; [exists 0%Z | exists 1%Z]; split; auto.
Qed.

(** The reply the prompt asks for, with [value] in the field [met]. *)
Definition reply_met (value : string) : string :=
  "[{" ++ dq ++ "question" ++ dq ++ ":" ++ dq ++ "Q" ++ dq ++ ","
  ++ dq ++ "met" ++ dq ++ ":" ++ value ++ ","
  ++ dq ++ "reasoning" ++ dq ++ ":" ++ dq ++ "..." ++ dq ++ "}]".

(** C2. For every reply text the parser returns, without raising, one of
    the two digits, whose integer value is 0 or 1; the JSON list with
    [met] true gives 1, with [met] false gives 0, the plain text "the
    criterion is satisfied" gives 1, and the empty text gives 0 after
    the warning that no rule matched. *)
Theorem C2_parser_total_binary :
  (forall (text : string) (w : trace (list eval_record)),
      exists r evs z,
        parse_reply text w = (Ok r, w ++ evs)
        /\ py_int r (w ++ evs) = (Ok z, w ++ evs)
        /\ (z = 0 \/ z = 1)%Z)
  /\ parse_reply (reply_met "true") [] = (Ok "1", [])
  /\ parse_reply (reply_met "false") [] = (Ok "0", [])
  /\ parse_reply "the criterion is satisfied" [] = (Ok "1", [])
  /\ parse_reply "" [] = (Ok "0", [EvLog LogUnparsed]).
Proof.
  split.
  - intros text w.
    destruct (parse_reply_spec text w) as (r & evs & E & B & _).
    destruct (py_int_binary r (w ++ evs) B) as (z & Ez & Bz).
    now exists r, evs, z.
  - repeat split; vm_compute; reflexivity.
Qed.

(** The retry loop of the judge call, for any number of attempts left. *)
Lemma evaluator_attempts_spec (c : client) (prompt : string) :
  forall (remaining attempt : nat) (w : trace (list eval_record)),
    1 <= remaining ->
    exists r evs k,
      evaluator_attempts c prompt (attempt + remaining) remaining attempt w
      = (Ok r, w ++ evs)
      /\ (r = "0" \/ r = "1")
      /\ 1 <= k <= remaining
      /\ skeleton evs = schedule (S attempt) k
      /\ Forall (fun e => is_call e = true -> e = EvCall EVALUATOR_MODEL prompt)
                evs
      /\ (forall j, j < k - 1 ->
            raises (c (List.length (calls w) + j) EVALUATOR_MODEL prompt))
      /\ (k < remaining ->
            ~ raises (c (List.length (calls w) + (k - 1)) EVALUATOR_MODEL prompt))
      /\ ((forall j, j < remaining ->
             raises (c (List.length (calls w) + j) EVALUATOR_MODEL prompt)) ->
          r = "0" /\ k = remaining).
Proof.
  induction remaining as [ | remaining IH]; intros attempt w Hpos; [lia | ].
  cbn [evaluator_attempts]. unfold try_catch, bind at 1, create.
  set (n := List.length (calls w)).
  set (call := EvCall EVALUATOR_MODEL prompt).
  destruct (c n EVALUATOR_MODEL prompt) as [e | content finish] eqn:Hc.
  - (* the attempt raises *)
    destruct remaining as [ | remaining'].
    + (* last attempt *)
      replace (attempt <? attempt + 1 - 1) with false
        by (symmetry; apply Nat.ltb_ge; lia).
      exists "0", [call; EvLog LogExhausted], 1.
      unfold bind, print, emit, ret. rewrite <- app_assoc. simpl.
      repeat split; auto; try lia.
      only_calls.
    + replace (attempt <? attempt + S (S remaining') - 1) with true
        by (symmetry; apply Nat.ltb_lt; lia).
      unfold bind at 1 2, print, sleep, emit.
      replace (attempt + S (S remaining')) with (S attempt + S remaining')
        by lia.
      set (wait := ((Z.of_nat attempt + 1) * 2)%Z).
      destruct (IH (S attempt)
                  (((w ++ [call]) ++ [EvLog (LogRetry wait)])
                   ++ [EvSleep (inject_Z wait)]))
        as (r & evs & k & E & B & Hk & Hs & Hall & Hr & Hnr & Hex); [lia | ].
      rewrite E.
      assert (Hn : List.length
                     (calls (((w ++ [call]) ++ [EvLog (LogRetry wait)])
                             ++ [EvSleep (inject_Z wait)])) = S n).
      { rewrite !calls_app, !length_app. simpl. fold n. lia. }
      rewrite Hn in Hr, Hnr, Hex.
      exists r, ([call; EvLog (LogRetry wait); EvSleep (inject_Z wait)] ++ evs),
        (S k).
      split; [now rewrite <- !app_assoc | ].
      split; [exact B | ].
      split; [lia | ].
      split.
      { destruct k as [ | k']; [lia | ].
        rewrite skeleton_app, Hs.
        change (schedule (S attempt) (S (S k')))
          with (Attempt :: Wait (inject_Z (Z.of_nat (S attempt) * 2))
                  :: schedule (S (S attempt)) (S k')).
        replace (Z.of_nat (S attempt) * 2)%Z with wait by (unfold wait; lia).
        reflexivity. }
      split.
      { apply Forall_app. split; [only_calls | exact Hall]. }
      split.
      { intros j Hj. destruct j as [ | j'].
        - rewrite Nat.add_0_r. fold n. rewrite Hc. exact I.
        - replace (n + S j') with (S n + j') by lia. apply Hr. lia. }
      split.
      { intros Hlt. replace (n + (S k - 1)) with (S n + (k - 1)) by lia.
        apply Hnr. lia. }
      intros Hraise.
      destruct Hex as [-> ->]; [ | split; [reflexivity | lia]].
      intros j Hj. replace (S n + j) with (n + S j) by lia.
      apply Hraise. lia.
  - (* the attempt returns *)
    cbn [fst].
    destruct (parse_reply_spec (strip (or_else content "")) (w ++ [call]))
      as (r & pevs & E & B & Hp).
    unfold bind. rewrite E.
    exists r, ([call] ++ pevs), 1.
    split; [now rewrite <- app_assoc | ].
    split; [exact B | ].
    split; [lia | ].
    split; [destruct Hp as [-> | ->]; reflexivity | ].
    split; [destruct Hp as [-> | ->]; only_calls | ].
    split; [intros j Hj; lia | ].
    split.
    { intros _. simpl. rewrite Nat.add_0_r. fold n. rewrite Hc. exact (fun x => x). }
    intros Hraise. specialize (Hraise 0 ltac:(lia)).
    rewrite Nat.add_0_r in Hraise. fold n in Hraise. rewrite Hc in Hraise.
    destruct Hraise.
Qed.

(** The judge call with the default three attempts. *)
Lemma call_gpt_evaluator_spec (c : client) (prompt : string)
  (w : trace (list eval_record)) :
  exists r evs k,
    call_gpt_evaluator c prompt 3 w = (Ok r, w ++ evs)
    /\ (r = "0" \/ r = "1")
    /\ 1 <= k <= 3
    /\ skeleton evs = schedule 1 k
    /\ Forall (fun e => is_call e = true -> e = EvCall EVALUATOR_MODEL prompt)
              evs
    /\ (forall j, j < k - 1 ->
          raises (c (List.length (calls w) + j) EVALUATOR_MODEL prompt))
    /\ (k < 3 ->
          ~ raises (c (List.length (calls w) + (k - 1)) EVALUATOR_MODEL prompt))
    /\ ((forall j, j < 3 ->
           raises (c (List.length (calls w) + j) EVALUATOR_MODEL prompt)) ->
        r = "0" /\ k = 3).
Proof.
  exact (evaluator_attempts_spec c prompt 3 0 w ltac:(lia)).
Qed.

(** One rubric item: the grading client returns 0 or 1, and every call it
    makes, at most three, sends the prompt of that item. *)
Lemma evaluate_rubric_item_spec (c : client)
  (criterion model_response user_query : string)
  (w : trace (list eval_record)) :
  exists score evs n,
    evaluate_rubric_item c criterion model_response user_query w
    = (Ok score, w ++ evs)
    /\ (score = 0 \/ score = 1)%Z
    /\ n <= 3
    /\ calls evs
       = repeat (EvCall EVALUATOR_MODEL
                   (create_evaluation_prompt criterion model_response
                      user_query)) n.
Proof.
  unfold evaluate_rubric_item.
  destruct ((model_response =? "")%string
            || (strip model_response =? "")%string).
  - exists 0%Z, [], 0. rewrite app_nil_r. repeat split; auto.
  - set (prompt := create_evaluation_prompt criterion model_response user_query).
    destruct (call_gpt_evaluator_spec c prompt w)
      as (r & evs & k & E & B & Hk & Hs & Hall & _).
    destruct (py_int_binary r (w ++ evs) B) as (z & Ez & Bz).
    exists z, evs, k. unfold bind. rewrite E, Ez.
    repeat split; auto; try lia.
    rewrite (calls_all_equal _ _ Hall) at 1.
    now rewrite calls_attempts, Hs, attempts_schedule.
Qed.

(** C8. When the response text is empty or made of whitespace only, the
    grading client returns 0 and leaves the trace as it was: the judge
    is not called. *)
Theorem C8_blank_response_short_circuits (c : client)
  (criterion model_response user_query : string)
  (w : trace (list eval_record)) :
  model_response = "" \/ whitespace_only model_response ->
  evaluate_rubric_item c criterion model_response user_query w = (Ok 0%Z, w).
Proof.
  intros H. unfold evaluate_rubric_item.
  assert (E : strip model_response = "").
  { destruct H as [-> | H]; [reflexivity | now apply strip_whitespace_only]. }
  rewrite E. simpl. rewrite orb_true_r. reflexivity.
Qed.

Lemma C8_blank_response_witness :
  evaluate_rubric_item (fun _ _ _ => ApiReturn (Some "yes") None)
    "X" (chr 32 ++ chr 9 ++ chr3 227 128 128 ++ chr 10)%string "q" []
  = (Ok 0%Z, []).
Proof.
  apply C8_blank_response_short_circuits. right.
  apply (ws_more (chr 32)); [simpl; tauto | ].
  apply (ws_more (chr 9)); [simpl; tauto | ].
  apply (ws_more (chr3 227 128 128)); [simpl; tauto | ].
  apply (ws_more (chr 10) ""); [simpl; tauto | ].
  apply ws_empty.
Defined.

(** *** The case grader *)

Lemma rubric_key_inj (a b : nat) : rubric_key a = rubric_key b -> a = b.
Proof.
  unfold rubric_key. intros H.
  apply str_of_nat_inj. now apply append_inj_l with "rubric_".
Qed.

(** The rubric items with their positions, counted from [k]. *)
Definition positions (k : nat) (items : list rubric_item)
  : list (nat * rubric_item) :=
  combine (seq k (List.length items)) items.

(** The items that are judged: those with a criterion, each with its
    position among all the items. *)
Definition judged (k : nat) (items : list rubric_item)
  : list (nat * rubric_item) :=
  filter (fun p => negb (criterion (snd p) =? "")%string) (positions k items).

(** The judgment stored for an item that got [score]. *)
Definition entry_of (item : rubric_item) (score : Z) : judgment :=
  {| j_criterion := criterion item;
     j_points := points item;
     j_axe := axe item;
     j_score := score;
     j_weighted_score := (points item * inject_Z score)%Q |}.

Definition stored (ps : nat * rubric_item * Z) : string * judgment :=
  (rubric_key (fst (fst ps)), entry_of (snd (fst ps)) (snd ps)).

(** The calls made for an item judged with [n] attempts. *)
Definition calls_for (model_response user_query : string)
  (pn : nat * rubric_item * nat) : trace (list eval_record) :=
  repeat (EvCall EVALUATOR_MODEL
            (create_evaluation_prompt (criterion (snd (fst pn)))
               model_response user_query))
         (snd pn).

Lemma positions_cons (k : nat) (item : rubric_item) (rest : list rubric_item) :
  positions k (item :: rest) = (k, item) :: positions (S k) rest.
Proof. reflexivity. Qed.

Lemma positions_nth (items : list rubric_item) :
  forall k i item,
    In (i, item) (positions k items) ->
    k <= i /\ nth_error items (i - k) = Some item.
Proof.
  induction items as [ | x items IH]; intros k i item H.
  - destruct H.
  - rewrite positions_cons in H. destruct H as [H | H].
    + inversion H; subst. rewrite Nat.sub_diag. auto.
    + apply IH in H. destruct H as [Hle Hn]. split; [lia | ].
      replace (i - k) with (S (i - S k)) by lia. exact Hn.
Qed.

Lemma grade_items_spec (c : client) (model_response user_query : string) :
  forall (items : list rubric_item) (k : nat) (d : dict judgment)
         (w : trace (list eval_record)),
    (forall key, In key (dict_keys d) -> exists j, j < k /\ key = rubric_key j) ->
    exists scores counts evs,
      grade_items c model_response user_query k items d w
      = (Ok (d ++ map stored (combine (judged k items) scores)), w ++ evs)
      /\ List.length scores = List.length (judged k items)
      /\ Forall (fun score => score = 0 \/ score = 1)%Z scores
      /\ List.length counts = List.length (judged k items)
      /\ Forall (fun n => n <= 3) counts
      /\ calls evs
         = flat_map (calls_for model_response user_query)
             (combine (judged k items) counts).
Proof.
  induction items as [ | item rest IH]; intros k d w Hkeys.
  - exists [], [], []. simpl. rewrite !app_nil_r. repeat split; auto.
  - cbn [grade_items]. unfold judged. rewrite positions_cons. cbn [filter snd].
    destruct (criterion item =? "")%string eqn:Ecrit; cbn [negb].
    + apply IH. intros key Hin. destruct (Hkeys key Hin) as (j & Hj & ->).
      exists j. split; [lia | reflexivity].
    + destruct (evaluate_rubric_item_spec c (criterion item) model_response
                  user_query w) as (score & evs1 & n & E & B & Hn & Hcalls).
      unfold bind at 1. rewrite E. unfold bind, sleep, emit.
      assert (Hfresh : dict_get (rubric_key k) d = None).
      { apply (assoc_get_none String.eqb String.eqb_eq).
        intros Hin. destruct (Hkeys _ Hin) as (j & Hj & Heq).
        apply rubric_key_inj in Heq. lia. }
      unfold dict_set.
      rewrite (assoc_set_fresh String.eqb (rubric_key k) _ d Hfresh).
      destruct (IH (S k)
                  (d ++ [(rubric_key k,
                          {| j_criterion := criterion item;
                             j_points := points item;
                             j_axe := axe item;
                             j_score := score;
                             j_weighted_score :=
                               (points item * inject_Z score)%Q |})])
                  ((w ++ evs1) ++ [EvSleep (2 # 10)]))
        as (scores & counts & evs & E' & Hls & Hsc & Hlc & Hct & Hcs).
      { intros key Hin. unfold dict_keys in Hin.
        rewrite map_app in Hin. apply in_app_or in Hin.
        destruct Hin as [Hin | [<- | []]].
        - destruct (Hkeys key Hin) as (j & Hj & ->).
          exists j. split; [lia | reflexivity].
        - exists k. split; [lia | reflexivity]. }
      rewrite E'.
      exists (score :: scores), (n :: counts), (evs1 ++ [EvSleep (2 # 10)] ++ evs).
      split.
      { cbn [combine map]. rewrite <- !app_assoc. reflexivity. }
      split; [simpl; now rewrite Hls | ].
      split; [now constructor | ].
      split; [simpl; now rewrite Hlc | ].
      split; [now constructor | ].
      rewrite !calls_app, Hcalls, Hcs. reflexivity.
Qed.

(** C6. Grading a case walks the rubric items in input order: the
    mapping it returns holds, in that order, one judgment per item with
    a non-empty criterion, under the key [rubric_<k>] where [k] is the
    1-based position of the item among all the items; an item with an
    empty criterion gets no judgment and no judge call (the calls of the
    run are those of the judged items, in order, at most three each).
    Every stored judgment copies the item's criterion, points and axe,
    has a score of 0 or 1, and a weighted score of points times score. *)
Theorem C6_case_grader_mapping (c : client)
  (model_response user_query : string) (items : list rubric_item)
  (w : trace (list eval_record)) :
  exists scores counts evs,
    grade_items c model_response user_query 1 items [] w
    = (Ok (map stored (combine (judged 1 items) scores)), w ++ evs)
    /\ List.length scores = List.length (judged 1 items)
    /\ List.length counts = List.length (judged 1 items)
    /\ Forall (fun n => n <= 3) counts
    /\ calls evs
       = flat_map (calls_for model_response user_query)
           (combine (judged 1 items) counts)
    /\ Forall
         (fun kj : string * judgment =>
            exists k item,
              fst kj = rubric_key k
              /\ 1 <= k
              /\ nth_error items (k - 1) = Some item
              /\ criterion item <> ""
              /\ j_criterion (snd kj) = criterion item
              /\ j_points (snd kj) = points item
              /\ j_axe (snd kj) = axe item
              /\ (j_score (snd kj) = 0 \/ j_score (snd kj) = 1)%Z
              /\ j_weighted_score (snd kj)
                 = (j_points (snd kj) * inject_Z (j_score (snd kj)))%Q)
         (map stored (combine (judged 1 items) scores)).
Proof.
  destruct (grade_items_spec c model_response user_query items 1 [] w)
    as (scores & counts & evs & E & Hls & Hsc & Hlc & Hct & Hcs).
  { intros key []. }
  exists scores, counts, evs.
  repeat (split; [assumption | ]).
  apply Forall_forall. intros kj Hin.
  apply in_map_iff in Hin. destruct Hin as ([[k item] score] & <- & Hin).
  pose proof (in_combine_l _ _ _ _ Hin) as Hj.
  pose proof (in_combine_r _ _ _ _ Hin) as Hs.
  apply filter_In in Hj. destruct Hj as [Hpos Hne].
  apply positions_nth in Hpos. destruct Hpos as [Hk Hnth].
  rewrite Forall_forall in Hsc.
  exists k, item. cbn [stored fst snd entry_of j_criterion j_points j_axe
                        j_score j_weighted_score].
  repeat split; auto.
  intros Hempty. cbn [snd] in Hne. rewrite Hempty in Hne. discriminate.
Qed.

(** *** The grading run controller on concrete runs *)

(** A judge that always answers that the criterion is met. *)
Definition judge_yes : client :=
  fun _ _ _ => ApiReturn (Some (reply_met "true")) (Some "stop").

Definition item_X : rubric_item :=
  {| criterion := "X"; points := 10; axe := "accuracy" |}.

Definition case_a : rubric_case :=
  {| rc_case_id := Some (IdStr "a"); rc_post_time := "2025-04-08T00:00:00";
     rc_narrative := "n"; rc_core_request := "r";
     rc_rubric_items := [item_X] |}.

Definition case_b : rubric_case :=
  {| rc_case_id := Some (IdStr "b"); rc_post_time := "2025-04-09T00:00:00";
     rc_narrative := "n"; rc_core_request := "r";
     rc_rubric_items := [item_X] |}.

(** Case [a] with a rubric that lost its items. *)
Definition case_a_no_rubric : rubric_case :=
  {| rc_case_id := Some (IdStr "a"); rc_post_time := "2025-04-08T00:00:00";
     rc_narrative := "n"; rc_core_request := "r";
     rc_rubric_items := [] |}.

(** The record of case [a] in the output file of an earlier run. *)
Definition stored_a : eval_record :=
  {| case_id := Some (IdStr "a");
     evaluations := [("rubric_1", entry_of item_X 1)] |}.

Definition graded_b : eval_record :=
  {| case_id := Some (IdStr "b");
     evaluations := [("rubric_1", entry_of item_X 1)] |}.

Definition answers : dict model_case :=
  [("a", [("model_response", "Rest and fluids.")]);
   ("b", [("model_response", "Rest and fluids.")])].

(** On resume, a case found in the loaded output file is not graded again:
    its stored record is appended to [results] as it is, and the loop goes
    on from the same trace. *)
Lemma resume_reuses_stored_record (c : client) (model_results : dict model_case)
  (existing_evaluations : dict eval_record) (response_field : string)
  (max_cases : option nat) (case : rubric_case) (rest : list rubric_case)
  (results : list eval_record) (processed_count : nat)
  (w : trace (list eval_record)) (cid : pyid) (stored : eval_record) :
  budget_reached max_cases processed_count = false ->
  rc_case_id case = Some cid ->
  rc_rubric_items case <> [] ->
  dict_get (str cid) existing_evaluations = Some stored ->
  eval_loop c model_results existing_evaluations response_field max_cases
    (case :: rest) results processed_count w
  = eval_loop c model_results existing_evaluations response_field max_cases
      rest (results ++ [stored]) processed_count w.
Proof.
  intros Hb Hid Hitems Hget. cbn [eval_loop].
  rewrite Hb, Hid. destruct (rc_rubric_items case); [congruence | ].
  now rewrite Hget.
Qed.

(** C1. A resumed run over the rubric cases [b] (not yet graded) and [a]
    (already in the output file) grades only [b], with one judge call,
    and reuses the stored record of [a] unchanged; but the list it
    persists holds the record of [a] twice, the second copy after the
    newly produced record of [b].  The same happens when [a] is the only
    case. *)
Theorem C1_resume_persists_reused_record_twice :
  process_evaluations judge_yes [case_b; case_a] answers (Some [stored_a])
    "model_response" None true []
  = (Ok [stored_a; graded_b; stored_a],
     [EvCall EVALUATOR_MODEL
        (create_evaluation_prompt "X" "Rest and fluids."
           (strip ("n" ++ nl ++ nl ++ "r")%string));
      EvSleep (2 # 10);
      EvSave [stored_a; graded_b; stored_a]])
  /\ fst (process_evaluations judge_yes [case_a] answers (Some [stored_a])
            "model_response" None true [])
     = Ok [stored_a; stored_a].
Proof.
  split; vm_compute; reflexivity.
Qed.

(** A case without rubric items that is in the loaded output file gets
    no empty record: the persisted list holds the loaded record only,
    while the same run without resume persists the empty record. *)
Lemma C9_empty_record_depends_on_loaded_results :
  process_evaluations judge_yes [case_a_no_rubric] answers (Some [stored_a])
    "model_response" None true []
  = (Ok [stored_a], [EvSave [stored_a]])
  /\ ~ In (empty_record (IdStr "a")) [stored_a]
  /\ process_evaluations judge_yes [case_a_no_rubric] answers (Some [stored_a])
       "model_response" None false []
     = (Ok [empty_record (IdStr "a")], [EvSave [empty_record (IdStr "a")]]).
Proof.
  split; [vm_compute; reflexivity | ].
  split; [ | vm_compute; reflexivity].
  intros [H | []]. discriminate H.
Qed.

(** C9. A case whose rubric has no items is settled before the
    already-graded check and without grading: the loop goes on from the
    same trace and the same count of processed cases, and appends an
    empty record exactly when the case id is not in the loaded results;
    when it is, nothing is appended, not even the stored record. *)
Theorem C9_no_rubric_skip (c : client) (model_results : dict model_case)
  (existing_evaluations : dict eval_record) (response_field : string)
  (max_cases : option nat) (case : rubric_case) (rest : list rubric_case)
  (results : list eval_record) (processed_count : nat)
  (w : trace (list eval_record)) (cid : pyid) :
  budget_reached max_cases processed_count = false ->
  rc_case_id case = Some cid ->
  rc_rubric_items case = [] ->
  eval_loop c model_results existing_evaluations response_field max_cases
    (case :: rest) results processed_count w
  = eval_loop c model_results existing_evaluations response_field max_cases
      rest
      (if dict_mem (str cid) existing_evaluations then results
       else results ++ [empty_record cid])
      processed_count w.
Proof.
  intros Hb Hid Hitems. cbn [eval_loop].
  rewrite Hb, Hid, Hitems.
  now destruct (dict_mem (str cid) existing_evaluations).
Qed.

Lemma C9_no_rubric_skip_witness :
  eval_loop judge_yes answers [("a", stored_a)] "model_response" None
    [case_a_no_rubric] [] 0 []
  = (Ok [], [])
  /\ eval_loop judge_yes answers [] "model_response" None
       [case_a_no_rubric] [] 0 []
     = (Ok [empty_record (IdStr "a")], []).
Proof.
  split.
  - rewrite (C9_no_rubric_skip judge_yes answers [("a", stored_a)]
               "model_response" None case_a_no_rubric [] [] 0 []
               (IdStr "a") eq_refl eq_refl eq_refl).
    reflexivity.
  - rewrite (C9_no_rubric_skip judge_yes answers []
               "model_response" None case_a_no_rubric [] [] 0 []
               (IdStr "a") eq_refl eq_refl eq_refl).
    reflexivity.
Defined.

End EvaluateModelFacts.

(** ** The generation call and the response run controller *)

Module RunModelFacts.
Import Py Eff EffFacts PyFacts EvaluateModel RunModel.
#[local] Open Scope list_scope.

(** The answer built from a call that returned. *)
Definition answer_of (content finish : option string) : chat_result :=
  {| raw_response := Some (content, finish);
     text := strip (or_else content "");
     finish_reason := or_else finish "unknown" |}.

(** The placeholder returned when the last attempt raised [e]. *)
Definition error_answer (e : string) : chat_result :=
  {| raw_response := None;
     text := ("ERROR: " ++ e)%string;
     finish_reason := "error" |}.

(** The retry loop of the generation call, for any number of attempts
    left. *)
Lemma chat_attempts_spec (c : client) (model prompt : string) :
  forall (remaining attempt : nat) (w : trace (list response_record)),
    1 <= remaining ->
    exists a evs k,
      chat_attempts c model prompt (attempt + remaining) remaining attempt w
      = (Ok (Some a), w ++ evs)
      /\ 1 <= k <= remaining
      /\ skeleton evs = schedule (S attempt) k
      /\ Forall (fun e => is_call e = true -> e = EvCall model prompt) evs
      /\ (forall j, j < k - 1 ->
            raises (c (List.length (calls w) + j) model prompt))
      /\ (k < remaining ->
            ~ raises (c (List.length (calls w) + (k - 1)) model prompt))
      /\ ((forall j, j < remaining ->
             raises (c (List.length (calls w) + j) model prompt)) ->
          k = remaining
          /\ a = error_answer
                   (error_of (c (List.length (calls w) + (remaining - 1))
                                model prompt))).
Proof.
  induction remaining as [ | remaining IH]; intros attempt w Hpos; [lia | ].
  cbn [chat_attempts]. unfold try_catch, bind at 1, create.
  set (n := List.length (calls w)).
  set (call := @EvCall (list response_record) model prompt).
  destruct (c n model prompt) as [e | content finish] eqn:Hc.
  - (* the attempt raises *)
    destruct remaining as [ | remaining'].
    + (* last attempt *)
      replace (attempt <? attempt + 1 - 1) with false
        by (symmetry; apply Nat.ltb_ge; lia).
      exists (error_answer e), [call; EvLog LogExhausted], 1.
      unfold bind, print, emit, ret. rewrite <- app_assoc. simpl.
      repeat split; auto; try lia; [only_calls | ].
      rewrite Nat.add_0_r. fold n. now rewrite Hc.
    + replace (attempt <? attempt + S (S remaining') - 1) with true
        by (symmetry; apply Nat.ltb_lt; lia).
      unfold bind at 1 2, print, sleep, emit.
      replace (attempt + S (S remaining')) with (S attempt + S remaining')
        by lia.
      set (wait := ((Z.of_nat attempt + 1) * 2)%Z).
      destruct (IH (S attempt)
                  (((w ++ [call]) ++ [EvLog (LogRetry wait)])
                   ++ [EvSleep (inject_Z wait)]))
        as (a & evs & k & E & Hk & Hs & Hall & Hr & Hnr & Hex); [lia | ].
      rewrite E.
      assert (Hn : List.length
                     (calls (((w ++ [call]) ++ [EvLog (LogRetry wait)])
                             ++ [EvSleep (inject_Z wait)])) = S n).
      { rewrite !calls_app, !length_app. simpl. fold n. lia. }
      rewrite Hn in Hr, Hnr, Hex.
      exists a, ([call; EvLog (LogRetry wait); EvSleep (inject_Z wait)] ++ evs),
        (S k).
      split; [now rewrite <- !app_assoc | ].
      split; [lia | ].
      split.
      { destruct k as [ | k']; [lia | ].
        rewrite skeleton_app, Hs.
        change (schedule (S attempt) (S (S k')))
          with (Attempt :: Wait (inject_Z (Z.of_nat (S attempt) * 2))
                  :: schedule (S (S attempt)) (S k')).
        replace (Z.of_nat (S attempt) * 2)%Z with wait by (unfold wait; lia).
        reflexivity. }
      split.
      { apply Forall_app. split; [only_calls | exact Hall]. }
      split.
      { intros j Hj. destruct j as [ | j'].
        - rewrite Nat.add_0_r. fold n. rewrite Hc. exact I.
        - replace (n + S j') with (S n + j') by lia. apply Hr. lia. }
      split.
      { intros Hlt. replace (n + (S k - 1)) with (S n + (k - 1)) by lia.
        apply Hnr. lia. }
      intros Hraise.
      destruct Hex as [-> ->].
      { intros j Hj. replace (S n + j) with (n + S j) by lia.
        apply Hraise. lia. }
      split; [reflexivity | ].
      replace (n + (S (S remaining') - 1)) with (S n + (S remaining' - 1))
        by lia.
      reflexivity.
  - (* the attempt returns *)
    cbn [fst snd]. unfold bind, ret.
    exists (answer_of content finish), [call], 1.
    split; [reflexivity | ].
    split; [lia | ].
    split; [reflexivity | ].
    split; [only_calls | ].
    split; [intros j Hj; lia | ].
    split.
    { intros _. simpl. rewrite Nat.add_0_r. fold n. rewrite Hc.
      exact (fun x => x). }
    intros Hraise. specialize (Hraise 0 ltac:(lia)).
    rewrite Nat.add_0_r in Hraise. fold n in Hraise. rewrite Hc in Hraise.
    destruct Hraise.
Qed.

(** The generation call with the default three attempts. *)
Lemma call_chat_model_spec (c : client) (model prompt : string)
  (w : trace (list response_record)) :
  exists a evs k,
    call_chat_model c model prompt 3 w = (Ok (Some a), w ++ evs)
    /\ 1 <= k <= 3
    /\ skeleton evs = schedule 1 k
    /\ Forall (fun e => is_call e = true -> e = EvCall model prompt) evs
    /\ (forall j, j < k - 1 ->
          raises (c (List.length (calls w) + j) model prompt))
    /\ (k < 3 -> ~ raises (c (List.length (calls w) + (k - 1)) model prompt))
    /\ ((forall j, j < 3 -> raises (c (List.length (calls w) + j) model prompt)) ->
        k = 3
        /\ a = error_answer
                 (error_of (c (List.length (calls w) + 2) model prompt))).
Proof.
  exact (chat_attempts_spec c model prompt 3 0 w ltac:(lia)).
Qed.

(** C7. The judge call and the generation call, with their default of
    three attempts, never raise.  Each makes [k] attempts, between one
    and three: every attempt before the last raised, and the call stops
    at the first attempt that returns.  After the [i]-th attempt raises
    the call waits [i * 2] seconds before the next one (2 seconds, then
    4).  When all three attempts raise, the judge call returns the
    score 0 and the generation call returns the placeholder whose text
    is the error message tagged [ERROR: ] and whose completion status is
    [error]. *)
Theorem C7_bounded_retries_with_linear_backoff (c : client)
  (model prompt : string)
  (wj : trace (list eval_record)) (wg : trace (list response_record)) :
  schedule 1 3 = [Attempt; Wait 2; Attempt; Wait 4; Attempt]
  /\ (exists r evs k,
         call_gpt_evaluator c prompt 3 wj = (Ok r, wj ++ evs)
         /\ 1 <= k <= 3
         /\ skeleton evs = schedule 1 k
         /\ (forall j, j < k - 1 ->
               raises (c (List.length (calls wj) + j) EVALUATOR_MODEL prompt))
         /\ (k < 3 ->
               ~ raises (c (List.length (calls wj) + (k - 1))
                           EVALUATOR_MODEL prompt))
         /\ ((forall j, j < 3 ->
                raises (c (List.length (calls wj) + j) EVALUATOR_MODEL prompt)) ->
             k = 3 /\ r = "0" /\ py_int r (wj ++ evs) = (Ok 0%Z, wj ++ evs)))
  /\ (exists a evs k,
         call_chat_model c model prompt 3 wg = (Ok (Some a), wg ++ evs)
         /\ 1 <= k <= 3
         /\ skeleton evs = schedule 1 k
         /\ (forall j, j < k - 1 ->
               raises (c (List.length (calls wg) + j) model prompt))
         /\ (k < 3 ->
               ~ raises (c (List.length (calls wg) + (k - 1)) model prompt))
         /\ ((forall j, j < 3 ->
                raises (c (List.length (calls wg) + j) model prompt)) ->
             k = 3
             /\ text a
                = ("ERROR: "
                   ++ error_of (c (List.length (calls wg) + 2) model prompt))%string
             /\ finish_reason a = "error"
             /\ raw_response a = None)).
Proof.
  split; [reflexivity | ]. split.
  - destruct (EvaluateModelFacts.call_gpt_evaluator_spec c prompt wj)
      as (r & evs & k & E & _ & Hk & Hs & _ & Hr & Hnr & Hex).
    exists r, evs, k. repeat (split; [assumption | ]).
    intros Hraise. destruct (Hex Hraise) as [-> ->]. now repeat split.
  - destruct (call_chat_model_spec c model prompt wg)
      as (a & evs & k & E & Hk & Hs & _ & Hr & Hnr & Hex).
    exists a, evs, k. repeat (split; [assumption | ]).
    intros Hraise. destruct (Hex Hraise) as [-> ->]. now repeat split.
Qed.

(** *** The response run controller *)

Lemma pyid_eqb_eq (a b : pyid) : pyid_eqb a b = true <-> a = b.
Proof.
  destruct a as [s | x], b as [t | y]; simpl; split; intros H;
    try discriminate; try (inversion H; subst).
  - apply String.eqb_eq in H. now subst.
  - apply String.eqb_refl.
  - apply Z.eqb_eq in H. now subst.
  - apply Z.eqb_refl.
Qed.

Lemma value_eqb_eq (a b : option pyid) : value_eqb a b = true <-> a = b.
Proof.
  destruct a as [x | ], b as [y | ]; simpl.
  - rewrite pyid_eqb_eq. split; congruence.
  - split; discriminate.
  - split; discriminate.
  - tauto.
Qed.

Lemma id_in_In (i : option pyid) (ids : list (option pyid)) :
  id_in i ids = true <-> In i ids.
Proof.
  unfold id_in. rewrite existsb_exists. split.
  - intros (x & Hx & E). apply value_eqb_eq in E. now subst.
  - intros H. exists i. split; [exact H | now apply value_eqb_eq].
Qed.

Lemma ids_of_app (l1 l2 : list response_record) :
  ids_of (l1 ++ l2) = ids_of l1 ++ ids_of l2.
Proof.
  induction l1 as [ | r l1 IH]; simpl; [reflexivity | ].
  destruct (rr_case_id r); simpl; now rewrite IH.
Qed.

Lemma ids_of_In (i : pyid) (l : list response_record) :
  In i (ids_of l) <-> exists r, In r l /\ rr_case_id r = Some i.
Proof.
  induction l as [ | r l IH]; simpl.
  - split; [intros [] | intros (r & [] & _)].
  - destruct (rr_case_id r) as [i' | ] eqn:E; simpl; rewrite IH; split.
    + intros [-> | (r' & Hin & Hr')]; [exists r; auto | exists r'; auto].
    + intros (r' & [-> | Hin] & Hr');
        [left; congruence | right; exists r'; auto].
    + intros (r' & Hin & Hr'). exists r'; auto.
    + intros (r' & [-> | Hin] & Hr'); [congruence | exists r'; auto].
Qed.

(** The loaded set holds the ids of the loaded records, and never
    [None]. *)
Lemma loaded_ids_In (i : pyid) (results : list response_record) :
  In (Some i) (loaded_ids results) <-> In i (ids_of results).
Proof.
  unfold loaded_ids. rewrite in_map_iff. split.
  - intros (x & E & H). congruence.
  - intros H. now exists i.
Qed.

Lemma loaded_ids_no_null (results : list response_record) :
  ~ In None (loaded_ids results).
Proof.
  unfold loaded_ids. rewrite in_map_iff. intros (x & E & _). discriminate E.
Qed.

Lemma record_ids_In (i : pyid) (news : list response_record) :
  In (Some i) (map rr_case_id news) <-> In i (ids_of news).
Proof.
  rewrite ids_of_In, in_map_iff. split.
  - intros (r & E & H). now exists r.
  - intros (r & H & E). now exists r.
Qed.

(** The id synthesized for a case without the key [case_id] at position
    [idx]. *)
Definition synthesized_id (idx : nat) : pyid :=
  IdStr ("case_" ++ str_of_nat idx).

Lemma synthesized_id_inj (p q : nat) :
  synthesized_id p = synthesized_id q -> p = q.
Proof.
  unfold synthesized_id. intros H.
  apply str_of_nat_inj, append_inj_l with "case_". congruence.
Qed.

(** The loop of the run: it returns, the records it appends are those
    of the cases whose id was not processed yet, each with the id of its
    case, and without a case budget every id ends among the processed
    ones. *)
Lemma cases_loop_spec (c : client) (model : string) (max_cases : option nat) :
  forall (data : list input_case) (idx : nat)
         (results : list response_record) (ids : list (option pyid))
         (processed_count : nat) (w : trace (list response_record)),
    exists news w',
      cases_loop c model max_cases idx data results ids processed_count w
      = (Ok (results ++ news), w')
      /\ Forall
           (fun r =>
              exists j case,
                nth_error data j = Some case
                /\ rr_case_id r = effective_id (idx + j) case
                /\ id_in (effective_id (idx + j) case) ids = false)
           news
      /\ (max_cases = None ->
          forall j case,
            nth_error data j = Some case ->
            In (effective_id (idx + j) case) (ids ++ map rr_case_id news)).
Proof.
  induction data as [ | case rest IH];
    intros idx results ids processed_count w.
  - exists [], w. rewrite app_nil_r. repeat split; auto.
    intros _ j case H. destruct j; discriminate H.
  - cbn [cases_loop].
    destruct (id_in (effective_id idx case) ids) eqn:Hin.
    + (* already processed *)
      destruct (IH (S idx) results ids processed_count w)
        as (news & w' & E & Hnews & Hall).
      exists news, w'. split; [exact E | ]. split.
      * eapply Forall_impl; [ | exact Hnews].
        intros r (j & case' & Hn & Hid & Hfresh).
        exists (S j), case'. replace (idx + S j) with (S idx + j) by lia. auto.
      * intros Hmax j case' Hn. destruct j as [ | j'].
        -- inversion Hn; subst. rewrite Nat.add_0_r.
           apply in_or_app. left. now apply id_in_In.
        -- replace (idx + S j') with (S idx + j') by lia. now apply Hall.
    + (* a new case *)
      destruct (call_chat_model_spec c model
                  (create_prompt (ic_narrative case) (ic_core_request case)) w)
        as (a & evs & k & E & _).
      unfold bind at 1. rewrite E.
      set (record := {| rr_case_id := effective_id idx case;
                        rr_post_time := ic_post_time case;
                        rr_narrative := ic_narrative case;
                        rr_core_request := ic_core_request case;
                        rr_model_response := text a;
                        rr_finish_reason := finish_reason a;
                        rr_doctor_advice := ic_doctor_advice case |}).
      assert (Hrec : exists j case0,
                 nth_error (case :: rest) j = Some case0
                 /\ rr_case_id record = effective_id (idx + j) case0
                 /\ id_in (effective_id (idx + j) case0) ids = false).
      { exists 0, case. rewrite Nat.add_0_r. auto. }
      assert (Hkeep : forall news,
                 Forall
                   (fun r =>
                      exists j case0,
                        nth_error rest j = Some case0
                        /\ rr_case_id r = effective_id (S idx + j) case0
                        /\ id_in (effective_id (S idx + j) case0)
                             (ids ++ [effective_id idx case]) = false)
                   news ->
                 Forall
                   (fun r =>
                      exists j case0,
                        nth_error (case :: rest) j = Some case0
                        /\ rr_case_id r = effective_id (idx + j) case0
                        /\ id_in (effective_id (idx + j) case0) ids = false)
                   (record :: news)).
      { intros news Hnews. constructor; [exact Hrec | ].
        eapply Forall_impl; [ | exact Hnews].
        intros r (j & case' & Hn & Hid & Hfresh).
        exists (S j), case'. replace (idx + S j) with (S idx + j) by lia.
        repeat split; auto.
        unfold id_in in *. rewrite existsb_app in Hfresh.
        now apply orb_false_elim in Hfresh. }
      unfold bind at 1, save_results, emit.
      destruct max_cases as [m | ] eqn:Hm.
      * destruct (m <=? S processed_count).
        -- (* the budget is reached *)
           exists [record], ((w ++ evs) ++ [EvSave (results ++ [record])]).
           split; [reflexivity | ]. split; [now constructor | discriminate].
        -- unfold bind, sleep, emit.
           destruct (IH (S idx) (results ++ [record])
                       (ids ++ [effective_id idx case]) (S processed_count)
                       (((w ++ evs) ++ [EvSave (results ++ [record])])
                        ++ [EvSleep (5 # 10)]))
             as (news & w' & E' & Hnews & _).
           rewrite E'. exists (record :: news), w'.
           split; [now rewrite <- app_assoc | ].
           split; [now apply Hkeep | discriminate].
      * unfold bind, sleep, emit.
        destruct (IH (S idx) (results ++ [record])
                    (ids ++ [effective_id idx case]) (S processed_count)
                    (((w ++ evs) ++ [EvSave (results ++ [record])])
                     ++ [EvSleep (5 # 10)]))
          as (news & w' & E' & Hnews & Hall).
        rewrite E'. exists (record :: news), w'.
        split; [now rewrite <- app_assoc | ].
        split; [now apply Hkeep | ].
        intros _ j case' Hn. cbn [map].
        change (ids ++ rr_case_id record :: map rr_case_id news)
          with (ids ++ [effective_id idx case] ++ map rr_case_id news).
        rewrite app_assoc.
        destruct j as [ | j'].
        -- inversion Hn; subst. rewrite Nat.add_0_r.
           apply in_or_app. left. apply in_or_app. right. now left.
        -- replace (idx + S j') with (S idx + j') by lia.
           now apply Hall.
Qed.

(** The records the run starts from. *)
Definition loaded_results (resume : bool)
  (existing_file : option (list response_record)) : list response_record :=
  match resume, existing_file with
  | true, Some existing_results => existing_results
  | _, _ => []
  end.

(** A case whose id is among the processed ids is skipped: the loop goes
    on with the next position from the same state. *)
Lemma processed_id_is_skipped (c : client) (model : string)
  (max_cases : option nat) (idx : nat) (case : input_case)
  (rest : list input_case) (results : list response_record)
  (ids : list (option pyid)) (processed_count : nat)
  (w : trace (list response_record)) :
  id_in (effective_id idx case) ids = true ->
  cases_loop c model max_cases idx (case :: rest) results ids processed_count w
  = cases_loop c model max_cases (S idx) rest results ids processed_count w.
Proof.
  intros H. cbn [cases_loop]. now rewrite H.
Qed.

(** A model that always gives the same answer. *)
Definition model_fixed : client :=
  fun _ _ _ => ApiReturn (Some "Rest and fluids.") (Some "stop").

(** A case of the input file that has no key [case_id]. *)
Definition case_without_id : input_case :=
  {| ic_case_id := KeyMissing; ic_post_time := "2025-04-08T00:00:00";
     ic_narrative := "n"; ic_core_request := "r"; ic_doctor_advice := "" |}.

(** Another case without the key, and a case whose [case_id] is null. *)
Definition case_other : input_case :=
  {| ic_case_id := KeyMissing; ic_post_time := "2025-05-01T00:00:00";
     ic_narrative := "other"; ic_core_request := "r";
     ic_doctor_advice := "" |}.

Definition case_null_id : input_case :=
  {| ic_case_id := KeyNull; ic_post_time := "2025-04-08T00:00:00";
     ic_narrative := "n"; ic_core_request := "r"; ic_doctor_advice := "" |}.

Definition record_case_0 : response_record :=
  {| rr_case_id := Some (IdStr "case_0");
     rr_post_time := "2025-04-08T00:00:00";
     rr_narrative := "n"; rr_core_request := "r";
     rr_model_response := "Rest and fluids.";
     rr_finish_reason := "stop"; rr_doctor_advice := "" |}.

Definition record_case_1 : response_record :=
  {| rr_case_id := Some (IdStr "case_1");
     rr_post_time := "2025-05-01T00:00:00";
     rr_narrative := "other"; rr_core_request := "r";
     rr_model_response := "Rest and fluids.";
     rr_finish_reason := "stop"; rr_doctor_advice := "" |}.

Definition record_null_id : response_record :=
  {| rr_case_id := None;
     rr_post_time := "2025-04-08T00:00:00";
     rr_narrative := "n"; rr_core_request := "r";
     rr_model_response := "Rest and fluids.";
     rr_finish_reason := "stop"; rr_doctor_advice := "" |}.

(** The claim as worded fails twice.  A case whose [case_id] is null
    gets a record without an id.  And after a run on two cases without
    the key, the resumed run on an input made of the second case alone
    skips it, at position 0, though it stood at position 1 in the prior
    run, whose position 0 held another case; the case is not skipped
    when nothing is loaded. *)
Lemma C10_skip_follows_the_position_not_the_case :
  fst (process_cases model_fixed "m" [case_null_id] None None false [])
  = Ok [record_null_id]
  /\ rr_case_id record_null_id = None
  /\ fst (process_cases model_fixed "m" [case_without_id; case_other]
            None None false [])
     = Ok [record_case_0; record_case_1]
  /\ process_cases model_fixed "m" [case_other]
       (Some [record_case_0; record_case_1]) None true []
     = (Ok [record_case_0; record_case_1], [])
  /\ nth_error [case_without_id; case_other] 0 = Some case_without_id
  /\ nth_error [case_without_id; case_other] 1 = Some case_other
  /\ case_without_id <> case_other
  /\ ic_case_id case_other = KeyMissing
  /\ fst (process_cases model_fixed "m" [case_other] None None false [])
     <> Ok [].
Proof.
  repeat split; try (vm_compute; reflexivity); vm_compute; discriminate.
Qed.

(** C10. The run returns the loaded records followed by the records it
    wrote, and every record it wrote carries the value of [case_id] of
    its input case: the id when the case holds one, no id when the case
    holds null, and, for an input case without the key at position
    [idx] (counted from 0), the synthesized id [case_<idx>].  A record
    is written only for a case whose id is not among the loaded ids;
    with no case budget, a case without the key at position [idx] is
    left without a record of id [case_<idx>] only if the loaded file
    already holds that id, whichever case it was written for.  Distinct
    positions give distinct synthesized ids. *)
Theorem C10_written_records_carry_case_id (c : client) (model : string)
  (data : list input_case) (existing_file : option (list response_record))
  (resume : bool) (w : trace (list response_record)) :
  (forall max_cases,
      exists news w',
        process_cases c model data existing_file max_cases resume w
        = (Ok (loaded_results resume existing_file ++ news), w')
        /\ Forall
             (fun r =>
                exists idx case,
                  nth_error data idx = Some case
                  /\ rr_case_id r = effective_id idx case
                  /\ (ic_case_id case = KeyMissing ->
                      rr_case_id r = Some (synthesized_id idx))
                  /\ (ic_case_id case = KeyNull -> rr_case_id r = None)
                  /\ (forall i, ic_case_id case = KeyId i ->
                                rr_case_id r = Some i)
                  /\ id_in (effective_id idx case)
                       (loaded_ids (loaded_results resume existing_file))
                     = false)
             news)
  /\ (exists news w',
         process_cases c model data existing_file None resume w
         = (Ok (loaded_results resume existing_file ++ news), w')
         /\ forall idx case,
             nth_error data idx = Some case ->
             ic_case_id case = KeyMissing ->
             In (synthesized_id idx)
                (ids_of (loaded_results resume existing_file))
             \/ exists r, In r news /\ rr_case_id r = Some (synthesized_id idx))
  /\ (forall p q, synthesized_id p = synthesized_id q -> p = q).
Proof.
  split; [ | split; [ | exact synthesized_id_inj]].
  - intros max_cases.
    destruct (cases_loop_spec c model max_cases data 0
                (loaded_results resume existing_file)
                (loaded_ids (loaded_results resume existing_file)) 0 w)
      as (news & w' & E & Hnews & _).
    exists news, w'. split; [exact E | ].
    eapply Forall_impl; [ | exact Hnews].
    intros r (j & case & Hn & Hid & Hfresh). exists j, case.
    cbn [Nat.add] in *. rewrite Hid. unfold effective_id in *.
    repeat split; auto.
    + intros ->. reflexivity.
    + intros ->. reflexivity.
    + intros i ->. reflexivity.
  - destruct (cases_loop_spec c model None data 0
                (loaded_results resume existing_file)
                (loaded_ids (loaded_results resume existing_file)) 0 w)
      as (news & w' & E & _ & Hall).
    exists news, w'. split; [exact E | ].
    intros idx case Hn Hnone.
    specialize (Hall eq_refl idx case Hn). cbn [Nat.add] in Hall.
    unfold effective_id in Hall. rewrite Hnone in Hall.
    fold (synthesized_id idx) in Hall.
    apply in_app_or in Hall. destruct Hall as [H | H].
    + left. now apply loaded_ids_In.
    + right. apply in_map_iff in H. destruct H as (r & Hr & Hin).
      now exists r.
Qed.

(** A run from scratch on one case without the key writes the record
    of id [case_0]; on the resumed run the loaded file holds that id. *)
Lemma C10_written_records_witness :
  fst (process_cases model_fixed "m" [case_without_id] None None false [])
  = Ok [record_case_0]
  /\ exists news w',
       process_cases model_fixed "m" [case_without_id] (Some [record_case_0])
         None true []
       = (Ok ([record_case_0] ++ news), w')
       /\ (In (synthesized_id 0) (ids_of [record_case_0])
           \/ exists r, In r news /\ rr_case_id r = Some (synthesized_id 0)).
Proof.
  split; [vm_compute; reflexivity | ].
  destruct (C10_written_records_carry_case_id model_fixed "m"
              [case_without_id] (Some [record_case_0]) true [])
    as (_ & (news & w' & E & H) & _).
  exists news, w'. split; [exact E | ].
  exact (H 0 case_without_id eq_refl eq_refl).
Defined.

(** A service that is down: every call raises. *)
Definition service_down : client := fun _ _ _ => ApiRaise "timeout".

(** With the service down the judge call gives the score 0 and the
    generation call gives the error placeholder, each after three
    attempts. *)
Lemma C7_bounded_retries_witness :
  fst (call_gpt_evaluator service_down "p" 3 []) = Ok "0"
  /\ exists a,
       fst (call_chat_model service_down "m" "p" 3 []) = Ok (Some a)
       /\ text a = "ERROR: timeout" /\ finish_reason a = "error".
Proof.
  destruct (C7_bounded_retries_with_linear_backoff service_down "m" "p" [] [])
    as (_ & (r & evs & k & E & _ & _ & _ & _ & Hex)
          & (a & evs' & k' & E' & _ & _ & _ & _ & Hex')).
  split.
  - rewrite E. destruct Hex as (_ & -> & _); [intros j _; exact I | reflexivity].
  - exists a. rewrite E'.
    destruct Hex' as (_ & Ht & Hf & _); [intros j _; exact I | ].
    repeat split; assumption.
Defined.

End RunModelFacts.

(** ** Scores and the summary table *)

Module MetricCalcFacts.
Import Py Eff EffFacts PyFacts EvaluateModel MetricCalc EvaluateModelFacts.
Import RunModelFacts(pyid_eqb_eq).
#[local] Open Scope list_scope.

(** The sum of a list of numbers. *)
Definition sum_of (l : list Q) : Q := fold_right Qplus 0%Q l.

Lemma Qpos_b_true (q : Q) : Qpos_b q = true <-> (0 < q)%Q.
Proof.
  unfold Qpos_b. rewrite negb_true_iff. split.
  - intros H. apply Qnot_le_lt. intros Hle.
    apply Qle_bool_iff in Hle. congruence.
  - intros H. destruct (Qle_bool q 0) eqn:E; [ | reflexivity].
    apply Qle_bool_iff in E. apply Qlt_not_le in H. contradiction.
Qed.

Lemma Qpos_b_false (q : Q) : Qpos_b q = false <-> (q <= 0)%Q.
Proof.
  unfold Qpos_b. rewrite negb_false_iff. apply Qle_bool_iff.
Qed.

Lemma fold_left_ext {A B : Type} (f g : A -> B -> A) (l : list B) :
  (forall a x, f a x = g a x) ->
  forall a, fold_left f l a = fold_left g l a.
Proof.
  intros H. induction l as [ | x l IH]; intros a; simpl; [reflexivity | ].
  now rewrite H, IH.
Qed.

Lemma Qeq_refl_eq (a b : Q) : a = b -> (a == b)%Q.
Proof. intros ->. apply Qeq_refl. Qed.

(** A conditional running sum is the sum over the selected elements. *)
Lemma fold_left_sum_filter {A : Type} (keep : A -> bool) (value : A -> Q)
  (l : list A) :
  forall acc,
    (fold_left (fun acc x => if keep x then acc + value x else acc) l acc
     == acc + sum_of (map value (filter keep l)))%Q.
Proof.
  induction l as [ | x l IH]; intros acc; simpl.
  - ring.
  - rewrite IH. destruct (keep x); simpl; ring.
Qed.

Lemma max_possible_score_sum (rubric_items : list rubric_item) :
  (calculate_max_possible_score rubric_items
   == sum_of (map points (filter (fun item => Qpos_b (points item))
                            rubric_items)))%Q.
Proof.
  unfold calculate_max_possible_score.
  destruct rubric_items as [ | item rest]; [reflexivity | ].
  rewrite (fold_left_sum_filter (fun item => Qpos_b (points item)) points).
  ring.
Qed.

Lemma dict_mem_set {V : Type} (k k' : string) (v : V) (d : dict V) :
  dict_mem k' (dict_set k v d) = (k =? k')%string || dict_mem k' d.
Proof.
  unfold dict_mem, assoc_mem, dict_set.
  destruct (String.eqb_spec k k') as [-> | N].
  - now rewrite (assoc_get_set_same String.eqb String.eqb_eq).
  - rewrite (assoc_get_set_other String.eqb String.eqb_eq) by congruence.
    reflexivity.
Qed.

(** The keys of [rubric_criteria] are the non-empty criteria of the
    rubric. *)
Lemma rubric_criteria_mem (crit : string) (rubric_items : list rubric_item) :
  dict_mem crit (rubric_criteria_of rubric_items)
  = negb (crit =? "")%string
    && existsb (fun item => (criterion item =? crit)%string) rubric_items.
Proof.
  unfold rubric_criteria_of.
  assert (G : forall acc,
             dict_mem crit
               (fold_left
                  (fun rubric_criteria item =>
                     if (criterion item =? "")%string then rubric_criteria
                     else dict_set (criterion item) (points item)
                            rubric_criteria)
                  rubric_items acc)
             = dict_mem crit acc
               || negb (crit =? "")%string
                  && existsb (fun item => (criterion item =? crit)%string)
                       rubric_items).
  { induction rubric_items as [ | item rest IH]; intros acc; simpl.
    - now rewrite andb_false_r, orb_false_r.
    - rewrite IH. destruct (String.eqb_spec (criterion item) "") as [E | N].
      + destruct (String.eqb_spec (criterion item) crit) as [E' | N'].
        * rewrite <- E', E. simpl. reflexivity.
        * reflexivity.
      + rewrite dict_mem_set.
        destruct (String.eqb_spec (criterion item) crit) as [E' | N'].
        * subst crit. destruct (String.eqb_spec (criterion item) "");
            [contradiction | ]. simpl. now rewrite !orb_true_r.
        * simpl. now destruct (dict_mem crit acc). }
  rewrite G. reflexivity.
Qed.

(** An evaluation entry counts when its criterion is not empty and is
    the criterion of some item of the rubric. *)
Definition counted (rubric_items : list rubric_item)
  (entry : string * judgment) : bool :=
  negb (j_criterion (snd entry) =? "")%string
  && existsb (fun item => (criterion item =? j_criterion (snd entry))%string)
       rubric_items.

Lemma case_total_score_sum (evaluations : dict judgment)
  (rubric_items : list rubric_item) :
  (calculate_case_total_score evaluations rubric_items
   == sum_of (map (fun entry => j_weighted_score (snd entry))
                (filter (counted rubric_items) evaluations)))%Q.
Proof.
  unfold calculate_case_total_score.
  destruct evaluations as [ | e evaluations]; [reflexivity | ].
  destruct rubric_items as [ | item rest].
  - assert (G : forall l, filter (counted []) l = []).
    { induction l as [ | x l IH]; [reflexivity | ].
      simpl. unfold counted at 1. simpl. now rewrite andb_false_r. }
    rewrite G. reflexivity.
  - set (items := item :: rest). set (evs := e :: evaluations).
    rewrite <- (Qplus_0_l (sum_of _)).
    rewrite <- (fold_left_sum_filter (counted items)
                  (fun entry => j_weighted_score (snd entry)) evs 0%Q).
    apply Qeq_refl_eq, fold_left_ext. intros acc x.
    unfold counted. rewrite rubric_criteria_mem.
    destruct (j_criterion (snd x) =? "")%string; cbn [negb andb orb];
      [reflexivity | ].
    match goal with |- context [existsb ?p items] => destruct (existsb p items) end;
      reflexivity.
Qed.

(** The case total as the specification words it: the sum of the
    weighted scores of the entries whose criterion is the criterion of
    some item of the rubric. *)
Definition case_total_score_as_specified (evaluations : dict judgment)
  (rubric_items : list rubric_item) : Q :=
  sum_of
    (map (fun entry => j_weighted_score (snd entry))
       (filter
          (fun entry =>
             existsb
               (fun item => (criterion item =? j_criterion (snd entry))%string)
               rubric_items)
          evaluations)).

(** A rubric item and an evaluation entry that share the empty
    criterion. *)
Definition item_without_criterion : rubric_item :=
  {| criterion := ""; points := 5; axe := "" |}.

Definition entry_without_criterion : judgment :=
  {| j_criterion := ""; j_points := 5; j_axe := ""; j_score := 1;
     j_weighted_score := 5 |}.

(** The entry's criterion is, character for character, the criterion of
    the rubric item, so the specified total counts its 5 points; the
    computed total is 0. *)
Lemma C3_empty_criterion_is_not_counted :
  calculate_case_total_score [("rubric_1", entry_without_criterion)]
    [item_without_criterion] = 0%Q
  /\ (case_total_score_as_specified [("rubric_1", entry_without_criterion)]
        [item_without_criterion] == 5)%Q
  /\ ~ (calculate_case_total_score [("rubric_1", entry_without_criterion)]
          [item_without_criterion]
        == case_total_score_as_specified
             [("rubric_1", entry_without_criterion)]
             [item_without_criterion])%Q.
Proof.
  split; [reflexivity | ]. split; [reflexivity | ].
  intros H. vm_compute in H. discriminate H.
Qed.

(** C3. The maximum possible score of a rubric is the sum of the points
    of its items with points above 0.  The total score of a case is the
    sum of the weighted scores of the evaluation entries whose criterion
    is not empty and is the criterion of some item of the rubric. *)
Theorem C3_scores_are_filtered_sums (evaluations : dict judgment)
  (rubric_items : list rubric_item) :
  (calculate_max_possible_score rubric_items
   == sum_of (map points
                (filter (fun item => Qpos_b (points item)) rubric_items)))%Q
  /\ (forall item, Qpos_b (points item) = true <-> (0 < points item)%Q)
  /\ (calculate_case_total_score evaluations rubric_items
      == sum_of
           (map (fun entry => j_weighted_score (snd entry))
              (filter
                 (fun entry =>
                    negb (j_criterion (snd entry) =? "")%string
                    && existsb
                         (fun item =>
                            (criterion item =? j_criterion (snd entry))%string)
                         rubric_items)
                 evaluations)))%Q.
Proof.
  split; [apply max_possible_score_sum | ].
  split; [intros item; apply Qpos_b_true | ].
  apply case_total_score_sum.
Qed.

(** *** Bounds of the normalized score *)

Lemma sum_of_nonneg (l : list Q) :
  Forall (fun q => 0 <= q)%Q l -> (0 <= sum_of l)%Q.
Proof.
  induction 1 as [ | q l Hq Hl IH]; simpl; [apply Qle_refl | lra].
Qed.

Lemma max_possible_score_nonneg (rubric_items : list rubric_item) :
  (0 <= calculate_max_possible_score rubric_items)%Q.
Proof.
  rewrite max_possible_score_sum. apply sum_of_nonneg.
  apply Forall_forall. intros q Hin.
  apply in_map_iff in Hin. destruct Hin as (item & <- & Hin).
  apply filter_In in Hin. destruct Hin as [_ Hpos].
  apply Qpos_b_true in Hpos. lra.
Qed.

(** The points an item can add to the maximum. *)
Definition credit (item : rubric_item) : Q :=
  if Qpos_b (points item) then points item else 0%Q.

Lemma credit_nonneg (item : rubric_item) : (0 <= credit item)%Q.
Proof.
  unfold credit. destruct (Qpos_b (points item)) eqn:E; [ | apply Qle_refl].
  apply Qpos_b_true in E. lra.
Qed.

Lemma max_possible_score_credit (rubric_items : list rubric_item) :
  (calculate_max_possible_score rubric_items
   == sum_of (map credit rubric_items))%Q.
Proof.
  rewrite max_possible_score_sum.
  induction rubric_items as [ | item rest IH]; simpl; [reflexivity | ].
  unfold credit at 1. destruct (Qpos_b (points item)); simpl; rewrite IH; ring.
Qed.

Lemma sum_of_filter_le {A : Type} (keep : A -> bool) (value : A -> Q)
  (l : list A) :
  (forall x, 0 <= value x)%Q ->
  (sum_of (map value (filter keep l)) <= sum_of (map value l))%Q.
Proof.
  intros Hv. induction l as [ | x l IH]; simpl; [apply Qle_refl | ].
  specialize (Hv x). destruct (keep x); simpl; lra.
Qed.

Lemma positions_items (items : list rubric_item) :
  forall k, map snd (positions k items) = items.
Proof.
  induction items as [ | item rest IH]; intros k; [reflexivity | ].
  rewrite positions_cons. simpl. now rewrite IH.
Qed.

(** A stored judgment weighs at most the credit of its item. *)
Lemma stored_weight_le_credit (l : list (nat * rubric_item)) :
  forall scores,
    Forall (fun score => score = 0 \/ score = 1)%Z scores ->
    (sum_of (map (fun entry => j_weighted_score (snd entry))
               (map stored (combine l scores)))
     <= sum_of (map (fun p => credit (snd p)) l))%Q.
Proof.
  induction l as [ | [k item] l IH]; intros scores Hs.
  - simpl. apply Qle_refl.
  - destruct scores as [ | score scores].
    + simpl. pose proof (credit_nonneg item).
      assert (0 <= sum_of (map (fun p => credit (snd p)) l))%Q.
      { apply sum_of_nonneg, Forall_forall. intros q Hin.
        apply in_map_iff in Hin. destruct Hin as (p & <- & _).
        apply credit_nonneg. }
      lra.
    + inversion Hs as [ | ? ? Hscore Hrest]; subst.
      specialize (IH scores Hrest). simpl.
      assert (points item * inject_Z score <= credit item)%Q.
      { unfold credit. destruct (Qpos_b (points item)) eqn:E.
        - apply Qpos_b_true in E. destruct Hscore as [-> | ->].
          + setoid_replace (points item * inject_Z 0)%Q with 0%Q by ring. lra.
          + setoid_replace (points item * inject_Z 1)%Q with (points item)
              by ring. lra.
        - apply Qpos_b_false in E. destruct Hscore as [-> | ->].
          + setoid_replace (points item * inject_Z 0)%Q with 0%Q by ring. lra.
          + setoid_replace (points item * inject_Z 1)%Q with (points item)
              by ring. lra. }
      lra.
Qed.

Lemma judged_entries_counted (items : list rubric_item) (scores : list Z) :
  filter (counted items) (map stored (combine (judged 1 items) scores))
  = map stored (combine (judged 1 items) scores).
Proof.
  apply forallb_filter_id. apply forallb_forall. intros entry Hin.
  apply in_map_iff in Hin. destruct Hin as ([[k item] score] & <- & Hin).
  apply in_combine_l in Hin. apply filter_In in Hin.
  destruct Hin as [Hpos Hne]. apply positions_nth in Hpos.
  destruct Hpos as [_ Hnth]. apply nth_error_In in Hnth.
  unfold counted. cbn [stored fst snd entry_of j_criterion] in *.
  rewrite Hne. apply existsb_exists. exists item.
  split; [exact Hnth | apply String.eqb_refl].
Qed.

(** The record the case grader returns for a rubric totals at most the
    maximum possible score of that rubric. *)
Lemma graded_total_le_max (c : client) (model_response user_query : string)
  (rubric_items : list rubric_item) (w w' : trace (list eval_record))
  (evaluations : dict judgment) :
  grade_items c model_response user_query 1 rubric_items [] w
  = (Ok evaluations, w') ->
  (calculate_case_total_score evaluations rubric_items
   <= calculate_max_possible_score rubric_items)%Q.
Proof.
  intros E.
  destruct (grade_items_spec c model_response user_query rubric_items 1 [] w)
    as (scores & counts & evs & E' & _ & Hs & _).
  { intros key []. }
  rewrite E in E'. inversion E' as [[Hev Hw]]. clear E'.
  cbn [app]. rewrite case_total_score_sum, judged_entries_counted.
  rewrite max_possible_score_credit.
  apply Qle_trans with (sum_of (map (fun p => credit (snd p))
                                  (judged 1 rubric_items))).
  - now apply stored_weight_le_credit.
  - rewrite <- (positions_items rubric_items 1) at 2. rewrite map_map.
    apply sum_of_filter_le. intros p. apply credit_nonneg.
Qed.

(** The rubric now gives 1 point to criterion X; the evaluation record
    was written when the rubric gave it 2. *)
Definition item_X_now : rubric_item :=
  {| criterion := "X"; points := 1; axe := "accuracy" |}.

Definition stale_entry : judgment :=
  entry_of {| criterion := "X"; points := 2; axe := "accuracy" |} 1.

(** All the weighted scores of the record are non-negative, and its
    normalized score is 2. *)
Lemma C4_stale_record_scores_above_one :
  (forall entry, In entry [("rubric_1", stale_entry)] ->
                 0 <= j_weighted_score (snd entry))%Q
  /\ (per_example_score [("rubric_1", stale_entry)] [item_X_now] == 2)%Q
  /\ ~ (per_example_score [("rubric_1", stale_entry)] [item_X_now] <= 1)%Q.
Proof.
  split; [ | split].
  - intros entry [<- | []]. vm_compute. discriminate.
  - reflexivity.
  - vm_compute. intros H. now apply H.
Qed.

(** C4. The normalized score of a case is at least 0 when all the
    evaluation entries have non-negative weighted scores; it is at most 1
    when the evaluation record is the one the case grader returns for
    the rubric the score is computed with; and it is exactly 0 when the
    maximum possible score is 0. *)
Theorem C4_normalized_score_bounds :
  (forall (evaluations : dict judgment) (rubric_items : list rubric_item),
      (forall entry, In entry evaluations ->
                     0 <= j_weighted_score (snd entry))%Q ->
      (0 <= per_example_score evaluations rubric_items)%Q)
  /\ (forall (c : client) (model_response user_query : string)
             (rubric_items : list rubric_item)
             (w w' : trace (list eval_record)) (evaluations : dict judgment),
         grade_items c model_response user_query 1 rubric_items [] w
         = (Ok evaluations, w') ->
         (per_example_score evaluations rubric_items <= 1)%Q)
  /\ (forall (evaluations : dict judgment) (rubric_items : list rubric_item),
         (calculate_max_possible_score rubric_items == 0)%Q ->
         per_example_score evaluations rubric_items = 0%Q).
Proof.
  split; [ | split].
  - intros evaluations rubric_items Hnn. unfold per_example_score.
    destruct (Qpos_b (calculate_max_possible_score rubric_items)) eqn:E;
      [ | apply Qle_refl].
    apply Qpos_b_true in E. apply Qle_shift_div_l; [exact E | ].
    rewrite Qmult_0_l, case_total_score_sum.
    apply sum_of_nonneg, Forall_forall. intros q Hin.
    apply in_map_iff in Hin. destruct Hin as (entry & <- & Hin).
    apply filter_In in Hin. apply Hnn, Hin.
  - intros c model_response user_query rubric_items w w' evaluations Hg.
    unfold per_example_score.
    destruct (Qpos_b (calculate_max_possible_score rubric_items)) eqn:E;
      [ | discriminate].
    apply Qpos_b_true in E. apply Qle_shift_div_r; [exact E | ].
    rewrite Qmult_1_l. exact (graded_total_le_max _ _ _ _ _ _ _ Hg).
  - intros evaluations rubric_items Hz. unfold per_example_score.
    replace (Qpos_b (calculate_max_possible_score rubric_items)) with false;
      [reflexivity | ].
    symmetry. apply Qpos_b_false. rewrite Hz. apply Qle_refl.
Qed.

(** The record graded for the rubric of one item worth 10 points by a
    judge that finds the criterion met scores 1; without rubric items
    the score is 0. *)
Lemma C4_normalized_score_bounds_witness :
  (0 <= per_example_score [("rubric_1", entry_of item_X 1)] [item_X] <= 1)%Q
  /\ per_example_score [("rubric_1", entry_of item_X 1)] [] = 0%Q.
Proof.
  destruct C4_normalized_score_bounds as (Hlow & Hhigh & Hzero).
  split; [split | ].
  - apply Hlow. intros entry [<- | []]. vm_compute. discriminate.
  - apply (Hhigh judge_yes "Rest and fluids." "q" [item_X] []
             [EvCall EVALUATOR_MODEL
                (create_evaluation_prompt "X" "Rest and fluids." "q");
              EvSleep (2 # 10)]).
    vm_compute. reflexivity.
  - apply Hzero. reflexivity.
Defined.

(** *** The summary table *)

(** A date parser for the examples: it accepts the texts that start with
    four digits, a dash and two digits, and keeps those seven
    characters. *)
Definition sample_fromisoformat (s : string) : option string :=
  match s with
  | String y1 (String y2 (String y3 (String y4 (String "-"
      (String m1 (String m2 _)))))) =>
      if forallb Json.is_digit [y1; y2; y3; y4; m1; m2]
      then Some (substring 0 7 s) else None
  | _ => None
  end.

Definition sample_strftime (dt : string) (format : string) : string := dt.

Definition case_dated : rubric_case :=
  {| rc_case_id := Some (IdStr "a"); rc_post_time := "2025-04-08T00:00:00";
     rc_narrative := "n"; rc_core_request := "r";
     rc_rubric_items := [item_X] |}.

Definition case_undated : rubric_case :=
  {| rc_case_id := Some (IdStr "u"); rc_post_time := "last spring";
     rc_narrative := "n"; rc_core_request := "r";
     rc_rubric_items := [item_X] |}.

Definition record_dated : eval_record :=
  {| case_id := Some (IdStr "a");
     evaluations := [("rubric_1", entry_of item_X 1)] |}.

Definition record_undated : eval_record :=
  {| case_id := Some (IdStr "u");
     evaluations := [("rubric_1", entry_of item_X 0)] |}.

Definition id_is (cid : pyid) (i : option pyid) : bool :=
  match i with
  | Some k => pyid_eqb k cid
  | None => false
  end.

(** An evaluation file without the records of case [cid]. *)
Definition without_case (cid : pyid) (evaluation_data : list eval_record)
  : list eval_record :=
  filter (fun r => negb (id_is cid (case_id r))) evaluation_data.

Definition score_of (entry : pyid * case_score) : Q := score (snd entry).

Lemma insert_sorted_In (x s : string) (l : list string) :
  In x (insert_sorted s l) -> x = s \/ In x l.
Proof.
  induction l as [ | y l IH]; simpl.
  - intros [<- | []]. now left.
  - destruct (String.leb s y); simpl.
    + intros [<- | H]; auto.
    + intros [<- | H]; [auto | ]. destruct (IH H); auto.
Qed.

Lemma sorted_In (x : string) (l : list string) : In x (sorted l) -> In x l.
Proof.
  induction l as [ | y l IH]; simpl; [auto | ].
  intros H. apply insert_sorted_In in H. destruct H as [-> | H]; auto.
Qed.

Lemma set_add_In (x m : string) (months : list string) :
  In x (set_add m months) -> x = m \/ In x months.
Proof.
  unfold set_add. destruct (existsb (String.eqb m) months); [auto | ].
  intros H. apply in_app_or in H. destruct H as [H | [<- | []]]; auto.
Qed.

(** The months collected for the rows never include the unknown one. *)
Lemma collect_months_known (all_model_scores : dict (assoc pyid case_score))
  (ym : string) :
  In ym (collect_months all_model_scores) -> ym <> "Unknown".
Proof.
  unfold collect_months.
  assert (Inner : forall es months,
             (forall x, In x months -> x <> "Unknown") ->
             forall x,
               In x (fold_left
                       (fun all_months (entry : pyid * case_score) =>
                          if (year_month (snd entry) =? "Unknown")%string
                          then all_months
                          else set_add (year_month (snd entry)) all_months)
                       es months) ->
               x <> "Unknown").
  { induction es as [ | e es IH]; intros months Hm; [exact Hm | ].
    cbn [fold_left]. apply IH.
    destruct (String.eqb_spec (year_month (snd e)) "Unknown") as [E | N];
      [exact Hm | ].
    intros x Hx. apply set_add_In in Hx. destruct Hx as [-> | Hx]; auto. }
  assert (Outer : forall ams months,
             (forall x, In x months -> x <> "Unknown") ->
             forall x,
               In x (fold_left
                       (fun all_months
                            (model_scores : string * assoc pyid case_score) =>
                          fold_left
                            (fun all_months (entry : pyid * case_score) =>
                               if (year_month (snd entry) =? "Unknown")%string
                               then all_months
                               else set_add (year_month (snd entry)) all_months)
                            (snd model_scores) all_months)
                       ams months) ->
               x <> "Unknown").
  { induction ams as [ | ms ams IH]; intros months Hm; [exact Hm | ].
    cbn [fold_left]. apply IH. now apply Inner. }
  apply Outer. intros x [].
Qed.

(** The rows of the monthly averages are among the given months. *)
Lemma monthly_avg_keys (model_names all_months : list string)
  (monthly_scores : dict (dict (list Q))) (ym : string) :
  In ym (dict_keys (monthly_avg_of model_names all_months monthly_scores)) ->
  In ym all_months.
Proof.
  unfold monthly_avg_of. intros H. apply sorted_In.
  revert H. generalize (sorted all_months). intros months.
  assert (Inner : forall year_month names (acc : dict (dict Q)) x,
             In x (dict_keys
                     (fold_left
                        (fun monthly_avg model_name =>
                           dict_set year_month
                             (dict_set model_name
                                (clipped_mean
                                   (get_default model_name
                                      (get_default year_month monthly_scores [])
                                      []))
                                (get_default year_month monthly_avg []))
                             monthly_avg)
                        names acc)) ->
             x = year_month \/ In x (dict_keys acc)).
  { induction names as [ | name names IH]; intros acc x Hx; [now right | ].
    cbn [fold_left] in Hx. apply IH in Hx. destruct Hx as [-> | Hx]; [now left | ].
    apply (assoc_set_keys String.eqb String.eqb_eq) in Hx. tauto. }
  assert (Outer : forall months (acc : dict (dict Q)) x,
             In x (dict_keys
                     (fold_left
                        (fun monthly_avg year_month =>
                           fold_left
                             (fun monthly_avg model_name =>
                                dict_set year_month
                                  (dict_set model_name
                                     (clipped_mean
                                        (get_default model_name
                                           (get_default year_month
                                              monthly_scores [])
                                           []))
                                     (get_default year_month monthly_avg []))
                                  monthly_avg)
                             model_names monthly_avg)
                        months acc)) ->
             In x months \/ In x (dict_keys acc)).
  { clear months. induction months as [ | month months IH]; intros acc x Hx;
      [now right | ].
    cbn [fold_left] in Hx. apply IH in Hx. destruct Hx as [Hx | Hx].
    - left. now right.
    - apply Inner in Hx. destruct Hx as [-> | Hx]; [left; now left | now right]. }
  intros H. apply Outer in H. destruct H as [H | []]. exact H.
Qed.

(** The overall averages, model by model. *)
Lemma overall_avgs_get (all_model_scores : dict (assoc pyid case_score))
  (name : string) :
  NoDup (dict_keys all_model_scores) ->
  get_default name (overall_avgs_of all_model_scores) 0%Q
  = clipped_mean (map score_of (get_default name all_model_scores [])).
Proof.
  unfold overall_avgs_of, get_default.
  assert (G : forall ams (acc : dict Q),
             NoDup (dict_keys ams) ->
             dict_get name
               (fold_left
                  (fun overall_avgs
                       (model_scores : string * assoc pyid case_score) =>
                     dict_set (fst model_scores)
                       (clipped_mean
                          (map (fun e => score (snd e)) (snd model_scores)))
                       overall_avgs)
                  ams acc)
             = match dict_get name ams with
               | Some es => Some (clipped_mean (map score_of es))
               | None => dict_get name acc
               end).
  { induction ams as [ | [m es] ams IH]; intros acc Hnd; [reflexivity | ].
    cbn [fold_left fst snd]. inversion Hnd as [ | ? ? Hnotin Hnd']; subst.
    rewrite (IH _ Hnd'). unfold dict_get at 3. cbn [assoc_get].
    destruct (String.eqb_spec m name) as [-> | N].
    - unfold dict_get at 1.
      rewrite (assoc_get_none String.eqb String.eqb_eq _ _ Hnotin).
      apply (assoc_get_set_same String.eqb String.eqb_eq).
    - fold (@dict_get (assoc pyid case_score) name ams).
      destruct (dict_get name ams); [reflexivity | ].
      apply (assoc_get_set_other String.eqb String.eqb_eq). congruence. }
  intros Hnd. cbv zeta. specialize (G all_model_scores [] Hnd).
  unfold dict_get, dict, assoc in *. rewrite G.
  destruct (assoc_get String.eqb name all_model_scores); reflexivity.
Qed.

Section DatesFacts.
Variable datetime : Type.
Variable fromisoformat : string -> option datetime.
Variable strftime : datetime -> string -> string.

#[local] Notation "'scores_of_file'" :=
  (calculate_model_scores datetime fromisoformat strftime).
#[local] Notation "'all_scores_of'" :=
  (build_all_model_scores datetime fromisoformat strftime).

(** The month a case id falls in, from the rubric mapping. *)
Definition case_year_month (rubric_mapping : dict rubric_info)
  (cid : pyid) : string :=
  let post_time := ri_post_time (lookup_rubric cid rubric_mapping) in
  if (post_time =? "")%string then "Unknown"
  else extract_year_month datetime fromisoformat strftime post_time.

Lemma unparsed_is_unknown (rubric_mapping : dict rubric_info) (cid : pyid) :
  fromisoformat
    (replace_char "Z"%char "+00:00"
       (ri_post_time (lookup_rubric cid rubric_mapping))) = None ->
  case_year_month rubric_mapping cid = "Unknown".
Proof.
  intros H. unfold case_year_month, extract_year_month. rewrite H.
  now destruct (_ =? "")%string.
Qed.

(** One iteration of the loop of [calculate_model_scores]. *)
Definition score_step (rubric_mapping : dict rubric_info)
  (case_scores : assoc pyid case_score) (case_eval : eval_record)
  : assoc pyid case_score :=
  match case_id case_eval with
  | Some cid =>
      if falsy_id (Some cid) then case_scores
      else
        assoc_set pyid_eqb cid
          {| score :=
               per_example_score (evaluations case_eval)
                 (ri_rubric_items (lookup_rubric cid rubric_mapping));
             post_time := ri_post_time (lookup_rubric cid rubric_mapping);
             year_month := case_year_month rubric_mapping cid |}
          case_scores
  | None => case_scores
  end.

Lemma scores_of_file_fold (evaluation_data : list eval_record)
  (rubric_mapping : dict rubric_info) :
  scores_of_file evaluation_data rubric_mapping
  = fold_left (score_step rubric_mapping) evaluation_data [].
Proof. reflexivity. Qed.

(** Every entry of a model's scores carries the month of its case. *)
Lemma scores_year_month (rubric_mapping : dict rubric_info)
  (evaluation_data : list eval_record) :
  forall k info,
    In (k, info) (scores_of_file evaluation_data rubric_mapping) ->
    year_month info = case_year_month rubric_mapping k.
Proof.
  rewrite scores_of_file_fold.
  assert (G : forall data acc,
             (forall k info, In (k, info) acc ->
                             year_month info = case_year_month rubric_mapping k) ->
             forall k info,
               In (k, info) (fold_left (score_step rubric_mapping) data acc) ->
               year_month info = case_year_month rubric_mapping k).
  { induction data as [ | r data IH]; intros acc Hacc; [exact Hacc | ].
    simpl. apply IH. unfold score_step.
    destruct (case_id r) as [cid | ]; [ | exact Hacc].
    destruct (falsy_id (Some cid)); [exact Hacc | ].
    intros k info Hin. apply assoc_set_In in Hin.
    destruct Hin as [[-> ->] | Hin]; [reflexivity | now apply Hacc]. }
  apply G. intros k info [].
Qed.

(** A graded record of a case puts the case among the model's scores. *)
Lemma scores_of_file_has_case (rubric_mapping : dict rubric_info)
  (evaluation_data : list eval_record) (r : eval_record) (cid : pyid) :
  In r evaluation_data ->
  case_id r = Some cid ->
  falsy_id (Some cid) = false ->
  exists info,
    assoc_get pyid_eqb cid (scores_of_file evaluation_data rubric_mapping)
    = Some info.
Proof.
  intros Hin Hid Hfalsy. rewrite scores_of_file_fold.
  apply (assoc_get_some_key pyid_eqb pyid_eqb_eq).
  assert (G : forall data acc,
             In r data \/ In cid (map fst acc) ->
             In cid (map fst (fold_left (score_step rubric_mapping) data acc))).
  { induction data as [ | r' data IH]; intros acc H.
    - destruct H as [[] | H]. exact H.
    - simpl. apply IH. destruct H as [[-> | H] | H].
      + right. unfold score_step. rewrite Hid, Hfalsy.
        apply (assoc_set_keys pyid_eqb pyid_eqb_eq). now left.
      + now left.
      + right. unfold score_step.
        destruct (case_id r') as [k | ]; [ | exact H].
        destruct (falsy_id (Some k)); [exact H | ].
        apply (assoc_set_keys pyid_eqb pyid_eqb_eq). now right. }
  apply G. now left.
Qed.

Lemma score_step_remove (rubric_mapping : dict rubric_info) (cid : pyid)
  (acc : assoc pyid case_score) (r : eval_record) :
  remove_key pyid_eqb cid (score_step rubric_mapping acc r)
  = if id_is cid (case_id r) then remove_key pyid_eqb cid acc
    else score_step rubric_mapping (remove_key pyid_eqb cid acc) r.
Proof.
  unfold score_step, id_is.
  destruct (case_id r) as [k | ]; [ | reflexivity].
  destruct (pyid_eqb k cid) eqn:E.
  - apply pyid_eqb_eq in E. subst k.
    destruct (falsy_id (Some cid)); [reflexivity | ].
    apply (remove_key_set_same pyid_eqb pyid_eqb_eq).
  - destruct (falsy_id (Some k)); [reflexivity | ].
    apply (remove_key_set_other pyid_eqb pyid_eqb_eq).
    intros ->. assert (pyid_eqb cid cid = true) by now apply pyid_eqb_eq.
    congruence.
Qed.

(** Removing the records of a case from the file removes its entry
    from the scores and changes nothing else. *)
Lemma scores_of_file_without (rubric_mapping : dict rubric_info)
  (cid : pyid) (evaluation_data : list eval_record) :
  scores_of_file (without_case cid evaluation_data) rubric_mapping
  = remove_key pyid_eqb cid (scores_of_file evaluation_data rubric_mapping).
Proof.
  rewrite !scores_of_file_fold.
  assert (G : forall data acc,
             fold_left (score_step rubric_mapping) (without_case cid data)
               (remove_key pyid_eqb cid acc)
             = remove_key pyid_eqb cid
                 (fold_left (score_step rubric_mapping) data acc)).
  { induction data as [ | r data IH]; intros acc; [reflexivity | ].
    change (fold_left (score_step rubric_mapping) (r :: data) acc)
      with (fold_left (score_step rubric_mapping) data
              (score_step rubric_mapping acc r)).
    rewrite <- IH, score_step_remove.
    change (without_case cid (r :: data))
      with (if negb (id_is cid (case_id r))
            then r :: without_case cid data else without_case cid data).
    now destruct (id_is cid (case_id r)). }
  apply (G evaluation_data []).
Qed.
(** One iteration of the loop filling [all_model_scores]. *)
Definition all_step (rubric_mapping : dict rubric_info)
  (all_model_scores : dict (assoc pyid case_score))
  (file : string * list eval_record) : dict (assoc pyid case_score) :=
  dict_set (fst file) (scores_of_file (snd file) rubric_mapping)
    all_model_scores.

Lemma all_scores_fold (model_files : dict (list eval_record))
  (rubric_mapping : dict rubric_info) :
  all_scores_of model_files rubric_mapping
  = fold_left (all_step rubric_mapping) model_files [].
Proof. reflexivity. Qed.

Lemma all_scores_without (rubric_mapping : dict rubric_info) (cid : pyid)
  (model_files : dict (list eval_record)) :
  all_scores_of (map_values (without_case cid) model_files) rubric_mapping
  = map_values (remove_key pyid_eqb cid)
      (all_scores_of model_files rubric_mapping).
Proof.
  rewrite !all_scores_fold.
  assert (G : forall files acc,
             fold_left (all_step rubric_mapping)
               (map_values (without_case cid) files)
               (map_values (remove_key pyid_eqb cid) acc)
             = map_values (remove_key pyid_eqb cid)
                 (fold_left (all_step rubric_mapping) files acc)).
  { induction files as [ | file files IH]; intros acc; [reflexivity | ].
    change (fold_left (all_step rubric_mapping) (file :: files) acc)
      with (fold_left (all_step rubric_mapping) files
              (all_step rubric_mapping acc file)).
    rewrite <- IH.
    change (map_values (without_case cid) (file :: files))
      with ((fst file, without_case cid (snd file))
              :: map_values (without_case cid) files).
    cbn [fold_left]. f_equal. unfold all_step, dict_set. cbn [fst snd].
    rewrite scores_of_file_without. apply assoc_set_map_values. }
  apply (G model_files []).
Qed.

Lemma all_scores_values (rubric_mapping : dict rubric_info)
  (model_files : dict (list eval_record)) :
  forall m es,
    In (m, es) (all_scores_of model_files rubric_mapping) ->
    exists data, In (m, data) model_files
                 /\ es = scores_of_file data rubric_mapping.
Proof.
  rewrite all_scores_fold.
  assert (G : forall files acc m es,
             In (m, es) (fold_left (all_step rubric_mapping) files acc) ->
             In (m, es) acc
             \/ exists data, In (m, data) files
                             /\ es = scores_of_file data rubric_mapping).
  { induction files as [ | file files IH]; intros acc m es Hin; [now left | ].
    cbn [fold_left] in Hin. apply IH in Hin.
    destruct Hin as [Hin | (data & Hin & E)].
    - unfold all_step, dict_set in Hin. apply assoc_set_In in Hin.
      destruct Hin as [[-> ->] | Hin]; [ | now left].
      right. exists (snd file). split; [left; now destruct file | reflexivity].
    - right. exists data. split; [now right | exact E]. }
  intros m es Hin. destruct (G _ _ _ _ Hin) as [[] | H]. exact H.
Qed.

Lemma all_scores_NoDup (rubric_mapping : dict rubric_info)
  (model_files : dict (list eval_record)) :
  NoDup (dict_keys (all_scores_of model_files rubric_mapping)).
Proof.
  rewrite all_scores_fold.
  assert (G : forall files acc,
             NoDup (dict_keys acc) ->
             NoDup (dict_keys (fold_left (all_step rubric_mapping) files acc))).
  { induction files as [ | file files IH]; intros acc H; [exact H | ].
    cbn [fold_left]. apply IH.
    apply (assoc_set_NoDup String.eqb String.eqb_eq), H. }
  apply G. constructor.
Qed.

Lemma all_scores_get (rubric_mapping : dict rubric_info)
  (model_files : dict (list eval_record)) (m : string)
  (data : list eval_record) :
  NoDup (dict_keys model_files) ->
  In (m, data) model_files ->
  dict_get m (all_scores_of model_files rubric_mapping)
  = Some (scores_of_file data rubric_mapping).
Proof.
  rewrite all_scores_fold.
  assert (G : forall files acc,
             NoDup (dict_keys files) ->
             (In (m, data) files
              \/ (~ In m (dict_keys files)
                  /\ dict_get m acc = Some (scores_of_file data rubric_mapping))) ->
             dict_get m (fold_left (all_step rubric_mapping) files acc)
             = Some (scores_of_file data rubric_mapping)).
  { induction files as [ | [m' data'] files IH]; intros acc Hnd H.
    - destruct H as [[] | [_ H]]. exact H.
    - cbn [fold_left]. inversion Hnd as [ | ? ? Hnotin Hnd']; subst.
      apply IH; [exact Hnd' | ].
      destruct H as [[H | H] | [Hnotin' H]].
      + inversion H; subst. right. split; [exact Hnotin | ].
        apply (assoc_get_set_same String.eqb String.eqb_eq).
      + now left.
      + right. split; [intros Hin; apply Hnotin'; now right | ].
        unfold all_step, dict_get, dict_set. cbn [fst snd].
        rewrite (assoc_get_set_other String.eqb String.eqb_eq); [exact H | ].
        intros ->. apply Hnotin'. now left. }
  intros Hnd Hin. apply G; [exact Hnd | now left].
Qed.

(** A loop over the models and their cases that does nothing on the
    cases of unknown month is not changed by removing such a case. *)
Lemma nested_fold_without {S : Type}
  (inner : string -> S -> pyid * case_score -> S) (cid : pyid) :
  (forall name st e,
      year_month (snd e) = "Unknown" -> inner name st e = st) ->
  forall (all_model_scores : dict (assoc pyid case_score)) (st : S),
    (forall m es k info,
        In (m, es) all_model_scores -> In (k, info) es -> k = cid ->
        year_month info = "Unknown") ->
    fold_left (fun st ms => fold_left (inner (fst ms)) (snd ms) st)
      (map_values (remove_key pyid_eqb cid) all_model_scores) st
    = fold_left (fun st ms => fold_left (inner (fst ms)) (snd ms) st)
        all_model_scores st.
Proof.
  intros Hnoop. induction all_model_scores as [ | [m es] ams IH];
    intros st H; [reflexivity | ].
  change (map_values (remove_key pyid_eqb cid) ((m, es) :: ams))
    with ((m, remove_key pyid_eqb cid es)
            :: map_values (remove_key pyid_eqb cid) ams).
  cbn [fold_left fst snd].
  change (remove_key pyid_eqb cid es)
    with (filter (fun e : pyid * case_score => negb (pyid_eqb (fst e) cid)) es).
  rewrite fold_left_filter_noop.
  - apply IH. intros m' es' k info Hin. apply (H m' es' k info). now right.
  - intros st' [k info] Hin Hkeep. apply Hnoop. cbn [snd fst] in *.
    apply (H m es k info); [now left | exact Hin | ].
    apply pyid_eqb_eq. now destruct (pyid_eqb k cid).
Qed.
Lemma collect_months_without (cid : pyid)
  (all_model_scores : dict (assoc pyid case_score)) :
  (forall m es k info,
      In (m, es) all_model_scores -> In (k, info) es -> k = cid ->
      year_month info = "Unknown") ->
  collect_months (map_values (remove_key pyid_eqb cid) all_model_scores)
  = collect_months all_model_scores.
Proof.
  intros H. unfold collect_months.
  apply (nested_fold_without
           (fun (_ : string) all_months (entry : pyid * case_score) =>
              if (year_month (snd entry) =? "Unknown")%string then all_months
              else set_add (year_month (snd entry)) all_months)
           cid); [ | exact H].
  intros _ st e E. now rewrite E.
Qed.

Lemma group_by_month_without (cid : pyid) (first_model_name : string)
  (all_model_scores : dict (assoc pyid case_score)) :
  (forall m es k info,
      In (m, es) all_model_scores -> In (k, info) es -> k = cid ->
      year_month info = "Unknown") ->
  group_by_month first_model_name
    (map_values (remove_key pyid_eqb cid) all_model_scores)
  = group_by_month first_model_name all_model_scores.
Proof.
  intros H. unfold group_by_month.
  apply (nested_fold_without
           (fun model_name (st : dict (dict (list Q)) * dict nat)
                (entry : pyid * case_score) =>
              let '(monthly_scores, monthly_case_counts) := st in
              let score_info := snd entry in
              let year_month := year_month score_info in
              if (year_month =? "Unknown")%string then st
              else
                let by_model := get_default year_month monthly_scores [] in
                let scores := get_default model_name by_model [] in
                (dict_set year_month
                   (dict_set model_name (scores ++ [score score_info])
                      by_model)
                   monthly_scores,
                 if (model_name =? first_model_name)%string then
                   dict_set year_month
                     (get_default year_month monthly_case_counts 0 + 1)
                     monthly_case_counts
                 else monthly_case_counts))
           cid); [ | exact H].
  intros name [ms mc] e E. cbv zeta. now rewrite E.
Qed.

Lemma first_name_without {V W : Type} (g : V -> W) (d : dict V) :
  match map_values g d with (name, _) :: _ => name | [] => "" end
  = match d with (name, _) :: _ => name | [] => "" end.
Proof. destruct d as [ | [name v] d]; reflexivity. Qed.

(** The monthly rows of the table do not depend on the records of a case
    whose month is unknown. *)
Lemma monthly_rows_without (model_files : dict (list eval_record))
  (rubric_data : list rubric_case) (cid : pyid) :
  case_year_month (build_rubric_mapping rubric_data) cid = "Unknown" ->
  monthly_rows
    (build_table datetime fromisoformat strftime
       (map_values (without_case cid) model_files) rubric_data)
  = monthly_rows
      (build_table datetime fromisoformat strftime model_files rubric_data).
Proof.
  intros Hu. unfold build_table. cbv zeta.
  rewrite all_scores_without, map_values_keys, first_name_without.
  assert (H : forall m es k info,
             In (m, es)
                (all_scores_of model_files (build_rubric_mapping rubric_data)) ->
             In (k, info) es -> k = cid -> year_month info = "Unknown").
  { intros m es k info Hm Hin ->.
    apply all_scores_values in Hm. destruct Hm as (data & _ & ->).
    apply scores_year_month in Hin. now rewrite Hin. }
  rewrite (collect_months_without cid _ H).
  rewrite (group_by_month_without cid _ _ H).
  now destruct (group_by_month _ _) as [monthly_scores monthly_case_counts].
Qed.
(** The cells of the overall row, model by model. *)
Lemma overall_row_cells (model_files : dict (list eval_record))
  (rubric_data : list rubric_case) :
  fst (overall_row
         (build_table datetime fromisoformat strftime model_files rubric_data))
  = map
      (fun name =>
         clipped_mean
           (map score_of
              (get_default name
                 (all_scores_of model_files (build_rubric_mapping rubric_data))
                 [])))
      (sorted (dict_keys model_files)).
Proof.
  unfold build_table. cbv zeta.
  destruct (group_by_month _ _) as [monthly_scores monthly_case_counts].
  cbn [overall_row fst]. apply map_ext. intros name.
  apply overall_avgs_get, all_scores_NoDup.
Qed.

(** C5. Take a record of a model's evaluation file whose case has a
    timestamp that fails to parse.  The case is bucketed as "Unknown",
    no monthly row of the table is the row of that bucket, and the
    monthly rows are those of the table computed without the records of
    the case.  The overall cell of every model is the clipped mean of
    the scores of all the cases of the model, and for this model the
    normalized score of the case is one of them. *)
Theorem C5_unparsed_timestamp_counts_overall_only
  (model_files : dict (list eval_record)) (rubric_data : list rubric_case)
  (m : string) (data : list eval_record) (r : eval_record) (cid : pyid) :
  NoDup (dict_keys model_files) ->
  In (m, data) model_files ->
  In r data ->
  case_id r = Some cid ->
  falsy_id (Some cid) = false ->
  fromisoformat
    (replace_char "Z"%char "+00:00"
       (ri_post_time
          (lookup_rubric cid (build_rubric_mapping rubric_data)))) = None ->
  let t := build_table datetime fromisoformat strftime model_files rubric_data in
  let case_scores := scores_of_file data (build_rubric_mapping rubric_data) in
  main datetime fromisoformat strftime model_files rubric_data = Some t
  /\ monthly_rows t
     = monthly_rows
         (build_table datetime fromisoformat strftime
            (map_values (without_case cid) model_files) rubric_data)
  /\ (forall row, In row (monthly_rows t) -> fst (fst row) <> "Unknown")
  /\ fst (overall_row t)
     = map
         (fun name =>
            clipped_mean
              (map score_of
                 (get_default name
                    (all_scores_of model_files
                       (build_rubric_mapping rubric_data))
                    [])))
         (sorted (dict_keys model_files))
  /\ get_default m
       (all_scores_of model_files (build_rubric_mapping rubric_data)) []
     = case_scores
  /\ exists info,
       assoc_get pyid_eqb cid case_scores = Some info
       /\ year_month info = "Unknown"
       /\ In (score info) (map score_of case_scores).
Proof.
  intros Hnd Hm Hr Hid Hfalsy Hparse t case_scores.
  pose proof (unparsed_is_unknown _ _ Hparse) as Hu.
  split; [ | split; [ | split; [ | split; [ | split]]]].
  - unfold main. destruct model_files; [destruct Hm | reflexivity].
  - symmetry. now apply monthly_rows_without.
  - intros row Hrow. subst t. unfold build_table in Hrow. cbv zeta in Hrow.
    destruct (group_by_month _ _) as [monthly_scores monthly_case_counts].
    cbn [monthly_rows] in Hrow. apply in_map_iff in Hrow.
    destruct Hrow as (ym & <- & Hin). cbn [fst].
    apply sorted_In, monthly_avg_keys in Hin.
    now apply collect_months_known in Hin.
  - apply overall_row_cells.
  - unfold get_default. now rewrite (all_scores_get _ _ _ _ Hnd Hm).
  - destruct (scores_of_file_has_case (build_rubric_mapping rubric_data)
                data r cid Hr Hid Hfalsy) as (info & Hget).
    exists info. split; [exact Hget | ].
    apply (assoc_get_in pyid_eqb pyid_eqb_eq) in Hget.
    split.
    + rewrite (scores_year_month _ _ _ _ Hget). exact Hu.
    + apply in_map_iff. exists (cid, info). split; [reflexivity | exact Hget].
Qed.
End DatesFacts.

(** One model, one case of April 2025 that scores 1 and one case with an
    unreadable timestamp that scores 0: the April row shows 1 and counts
    one case, the overall average is one half. *)
Lemma C5_unparsed_timestamp_witness :
  main string sample_fromisoformat sample_strftime
    [("gpt", [record_dated; record_undated])] [case_dated; case_undated]
  = Some
      {| header := ["Date"; "gpt"; "# case"];
         monthly_rows := [("2025-04", [1%Q], 1)];
         overall_row := ([(100 # 200)%Q], 1) |}
  /\ monthly_rows
       (build_table string sample_fromisoformat sample_strftime
          [("gpt", [record_dated; record_undated])] [case_dated; case_undated])
     = monthly_rows
         (build_table string sample_fromisoformat sample_strftime
            [("gpt", [record_dated])] [case_dated; case_undated]).
Proof.
  split; [vm_compute; reflexivity | ].
  refine (proj1 (proj2
    (C5_unparsed_timestamp_counts_overall_only string sample_fromisoformat
       sample_strftime [("gpt", [record_dated; record_undated])]
       [case_dated; case_undated] "gpt" [record_dated; record_undated]
       record_undated (IdStr "u") _ _ _ _ _ _))).
  - repeat constructor. intros [].
  - left. reflexivity.
  - right. left. reflexivity.
  - reflexivity.
  - reflexivity.
  - reflexivity.
Defined.

End MetricCalcFacts.

(** * Further properties *)

(** ** More on dictionaries *)

Module PyMore.
Import Py PyFacts.

Lemma dict_get_set (V : Type) (k key : string) (v : V) (d : dict V) :
  dict_get key (dict_set k v d)
  = if (k =? key)%string then Some v else dict_get key d.
Proof.
  unfold dict_get, dict_set.
  destruct (String.eqb_spec k key) as [-> | N].
  - apply (assoc_get_set_same String.eqb String.eqb_eq).
  - apply (assoc_get_set_other String.eqb String.eqb_eq). congruence.
Qed.

Lemma find_app {A : Type} (f : A -> bool) (l1 l2 : list A) :
  find f (l1 ++ l2)%list
  = match find f l1 with Some x => Some x | None => find f l2 end.
Proof.
  induction l1 as [ | a l1 IH]; [reflexivity | ].
  cbn [app find]. now destruct (f a).
Qed.

End PyMore.

(** ** File writes in a trace *)

Module EffMore.
Import Eff EffFacts.
#[local] Open Scope list_scope.

(** The lists written to the output file, in order. *)
Definition saves {F : Type} (evs : trace F) : list F :=
  flat_map (fun e => match e with EvSave content => [content] | _ => [] end)
    evs.

Lemma saves_app {F : Type} (w evs : trace F) :
  saves (w ++ evs) = saves w ++ saves evs.
Proof. apply flat_map_app. Qed.

End EffMore.

(** ** More on the response run controller *)

Module RunModelMore.
Import Py Json Eff EffFacts EffMore PyFacts EvaluateModel RunModel RunModelFacts.
#[local] Open Scope list_scope.

(** The generation call writes nothing to the output file, and with at
    least one attempt it returns an answer after at least one call. *)
Lemma chat_attempts_events (c : client) (model prompt : string) :
  forall (remaining attempt : nat) (w : trace (list response_record)),
    1 <= remaining ->
    exists a evs,
      chat_attempts c model prompt (attempt + remaining) remaining attempt w
      = (Ok (Some a), w ++ evs)
      /\ saves evs = []
      /\ 1 <= List.length (calls evs).
Proof.
  induction remaining as [ | remaining IH]; intros attempt w Hpos; [lia | ].
  cbn [chat_attempts]. unfold try_catch, bind at 1, create.
  set (call := @EvCall (list response_record) model prompt).
  destruct (c (List.length (calls w)) model prompt) as [e | content finish].
  - destruct remaining as [ | remaining'].
    + replace (attempt <? attempt + 1 - 1) with false
        by (symmetry; apply Nat.ltb_ge; lia).
      unfold bind, print, emit, ret.
      eexists _, [call; EvLog LogExhausted].
      split; [now rewrite <- app_assoc | ].
      split; [reflexivity | cbn; lia].
    + replace (attempt <? attempt + S (S remaining') - 1) with true
        by (symmetry; apply Nat.ltb_lt; lia).
      unfold bind at 1 2, print, sleep, emit.
      replace (attempt + S (S remaining')) with (S attempt + S remaining')
        by lia.
      set (wait := ((Z.of_nat attempt + 1) * 2)%Z).
      destruct (IH (S attempt)
                  (((w ++ [call]) ++ [EvLog (LogRetry wait)])
                   ++ [EvSleep (inject_Z wait)]))
        as (a & evs & E & Hs & Hc); [lia | ].
      rewrite E.
      exists a, ([call; EvLog (LogRetry wait); EvSleep (inject_Z wait)] ++ evs).
      split; [now rewrite <- !app_assoc | ].
      split; [rewrite saves_app, Hs; reflexivity | ].
      rewrite calls_app. cbn. lia.
  - unfold bind, ret. eexists _, [call].
    split; [reflexivity | ]. split; [reflexivity | cbn; lia].
Qed.

Lemma saves_after_append (results news : list response_record)
  (record : response_record) :
  (results ++ [record])
    :: map (fun k => (results ++ [record]) ++ firstn k news)
         (seq 1 (List.length news))
  = map (fun k => results ++ firstn k (record :: news))
      (seq 1 (List.length (record :: news))).
Proof.
  cbn [List.length seq map firstn]. f_equal.
  rewrite <- (seq_shift (List.length news) 1), map_map. apply map_ext. intros k.
  cbn [firstn]. now rewrite <- app_assoc.
Qed.

(** The processed ids that are ids are those of the records. *)
Definition ids_agree (ids : list (option pyid))
  (results : list response_record) : Prop :=
  forall i, In (Some i) ids <-> In i (ids_of results).

Lemma ids_agree_loaded (results : list response_record) :
  ids_agree (loaded_ids results) results.
Proof. intros i. apply loaded_ids_In. Qed.

Lemma ids_agree_step (ids : list (option pyid))
  (results : list response_record) (record : response_record) :
  ids_agree ids results ->
  ids_agree (ids ++ [rr_case_id record]) (results ++ [record]).
Proof.
  intros H i. rewrite ids_of_app, !in_app_iff, (H i). cbn [ids_of In].
  destruct (rr_case_id record) as [i' | ]; cbn [In]; split.
  - intros [Hi | [E | []]]; [now left | right; left; congruence].
  - intros [Hi | [E | []]]; [now left | right; left; congruence].
  - intros [Hi | [E | []]]; [now left | discriminate E].
  - intros [Hi | []]. now left.
Qed.

(** The loop of the run, with its trace: the ids stay distinct, the list
    is written after every new record, every new record took a call,
    and the case budget bounds the new records. *)
Lemma cases_loop_trace (c : client) (model : string) (max_cases : option nat) :
  forall (data : list input_case) (idx : nat)
         (results : list response_record) (ids : list (option pyid))
         (processed_count : nat) (w : trace (list response_record)),
    ids_agree ids results ->
    exists news evs,
      cases_loop c model max_cases idx data results ids processed_count w
      = (Ok (results ++ news), w ++ evs)
      /\ (NoDup (ids_of results) -> NoDup (ids_of (results ++ news)))
      /\ saves evs
         = map (fun k => results ++ firstn k news) (seq 1 (List.length news))
      /\ List.length news <= List.length (calls evs)
      /\ (forall m, max_cases = Some m ->
                    List.length news <= Nat.max 1 (m - processed_count))
      /\ (news = [] -> evs = []).
Proof.
  induction data as [ | case rest IH];
    intros idx results ids processed_count w Hagree.
  - exists [], []. rewrite !app_nil_r. cbn. repeat split; auto. intros; lia.
  - cbn [cases_loop].
    destruct (id_in (effective_id idx case) ids) eqn:Hin.
    + now apply IH.
    + destruct (chat_attempts_events c model
                  (create_prompt (ic_narrative case) (ic_core_request case))
                  3 0 w ltac:(lia)) as (a & evs1 & E & Hs1 & Hc1).
      change (chat_attempts c model
                (create_prompt (ic_narrative case) (ic_core_request case))
                (0 + 3) 3 0 w)
        with (call_chat_model c model
                (create_prompt (ic_narrative case) (ic_core_request case)) 3 w)
        in E.
      unfold bind at 1. rewrite E.
      set (record := {| rr_case_id := effective_id idx case;
                        rr_post_time := ic_post_time case;
                        rr_narrative := ic_narrative case;
                        rr_core_request := ic_core_request case;
                        rr_model_response := text a;
                        rr_finish_reason := finish_reason a;
                        rr_doctor_advice := ic_doctor_advice case |}).
      assert (Hnd : NoDup (ids_of results) -> NoDup (ids_of (results ++ [record]))).
      { intros H. rewrite ids_of_app. cbn [ids_of rr_case_id record].
        destruct (effective_id idx case) as [i | ] eqn:Ei;
          [ | now rewrite app_nil_r].
        apply NoDup_app; [exact H | | ].
        - constructor; [intros [] | constructor].
        - intros x Hx [<- | []]. apply Hagree, id_in_In in Hx. congruence. }
      pose proof (ids_agree_step ids results record Hagree) as Hagree'.
      cbn [rr_case_id record] in Hagree'.
      unfold bind at 1, save_results, emit.
      assert (Hstop :
                exists news evs,
                  (Ok (results ++ [record]),
                   (w ++ evs1) ++ [EvSave (results ++ [record])])
                  = (Ok (results ++ news), w ++ evs)
                  /\ (NoDup (ids_of results) -> NoDup (ids_of (results ++ news)))
                  /\ saves evs
                     = map (fun k => results ++ firstn k news)
                         (seq 1 (List.length news))
                  /\ List.length news <= List.length (calls evs)
                  /\ List.length news = 1
                  /\ (news = [] -> evs = [])).
      { exists [record], (evs1 ++ [EvSave (results ++ [record])]).
        split; [now rewrite <- app_assoc | ].
        split; [exact Hnd | ].
        split; [rewrite saves_app, Hs1; reflexivity | ].
        split; [rewrite calls_app, length_app; cbn; lia | ].
        split; [reflexivity | discriminate]. }
      assert (Hgo :
                exists news evs,
                  cases_loop c model max_cases (S idx) rest (results ++ [record])
                    (ids ++ [effective_id idx case])
                    (S processed_count)
                    (((w ++ evs1) ++ [EvSave (results ++ [record])])
                     ++ [EvSleep (5 # 10)])
                  = (Ok (results ++ news), w ++ evs)
                  /\ (NoDup (ids_of results) -> NoDup (ids_of (results ++ news)))
                  /\ saves evs
                     = map (fun k => results ++ firstn k news)
                         (seq 1 (List.length news))
                  /\ List.length news <= List.length (calls evs)
                  /\ (forall m, max_cases = Some m ->
                                List.length news
                                <= S (Nat.max 1 (m - S processed_count)))
                  /\ (news = [] -> evs = [])).
      { destruct (IH (S idx) (results ++ [record])
                    (ids ++ [effective_id idx case]) (S processed_count)
                    (((w ++ evs1) ++ [EvSave (results ++ [record])])
                     ++ [EvSleep (5 # 10)]) Hagree')
          as (news & evs & E' & Hnd' & Hs & Hc & Hb & _).
        exists (record :: news),
          (evs1 ++ [EvSave (results ++ [record])] ++ [EvSleep (5 # 10)] ++ evs).
        split; [rewrite E'; now rewrite <- !app_assoc | ].
        split.
        { intros H. replace (results ++ record :: news)
            with ((results ++ [record]) ++ news) by now rewrite <- app_assoc.
          apply Hnd', Hnd, H. }
        split.
        { rewrite !saves_app, Hs1, Hs. cbn [saves flat_map app].
          apply saves_after_append. }
        split.
        { rewrite !calls_app, !length_app. cbn [calls filter is_call List.length].
          cbn. lia. }
        split; [ | discriminate].
        intros m Hm. specialize (Hb m Hm). cbn [List.length]. lia. }
      destruct max_cases as [m | ].
      * destruct (m <=? S processed_count) eqn:Hm.
        -- destruct Hstop as (news & evs & E' & H1 & H2 & H3 & H4 & H5).
           exists news, evs. unfold ret. repeat split; auto.
           intros m' _. rewrite H4. lia.
        -- unfold bind, sleep, emit.
           destruct Hgo as (news & evs & E' & H1 & H2 & H3 & H4 & H5).
           exists news, evs. repeat split; auto.
           intros m' Hm'. inversion Hm'; subst m'.
           specialize (H4 m eq_refl). apply Nat.leb_gt in Hm. lia.
      * unfold bind, sleep, emit.
        destruct Hgo as (news & evs & E' & H1 & H2 & H3 & H4 & H5).
        exists news, evs. repeat split; auto. discriminate.
Qed.

Lemma cases_loop_all_processed (c : client) (model : string)
  (max_cases : option nat) :
  forall (data : list input_case) (idx : nat)
         (results : list response_record) (ids : list (option pyid))
         (processed_count : nat) (w : trace (list response_record)),
    (forall j case, nth_error data j = Some case ->
                    id_in (effective_id (idx + j) case) ids = true) ->
    cases_loop c model max_cases idx data results ids processed_count w
    = (Ok results, w).
Proof.
  induction data as [ | case rest IH]; intros idx results ids pc w H;
    [reflexivity | ].
  cbn [cases_loop]. pose proof (H 0 case eq_refl) as H0.
  rewrite Nat.add_0_r in H0. rewrite H0. apply IH.
  intros j case' Hj. replace (S idx + j) with (idx + S j) by lia.
  now apply H.
Qed.

(** The first case whose id is not among the processed ids is
    processed, whatever the budget: its record is the first new one. *)
Lemma cases_loop_first_pending (c : client) (model : string)
  (max_cases : option nat) :
  forall (data : list input_case) (idx : nat)
         (results : list response_record) (ids : list (option pyid))
         (processed_count : nat) (w : trace (list response_record))
         (j : nat) (case : input_case),
    nth_error data j = Some case ->
    id_in (effective_id (idx + j) case) ids = false ->
    (forall j' case', j' < j -> nth_error data j' = Some case' ->
                      id_in (effective_id (idx + j') case') ids = true) ->
    exists r news w',
      cases_loop c model max_cases idx data results ids processed_count w
      = (Ok (results ++ r :: news), w')
      /\ rr_case_id r = effective_id (idx + j) case
      /\ rr_narrative r = ic_narrative case
      /\ rr_core_request r = ic_core_request case.
Proof.
  induction data as [ | case0 rest IH];
    intros idx results ids pc w j case Hn Hnew Hold.
  - destruct j; discriminate Hn.
  - destruct j as [ | j].
    + inversion Hn; subst case0. rewrite Nat.add_0_r in *.
      cbn [cases_loop]. rewrite Hnew.
      destruct (call_chat_model_spec c model
                  (create_prompt (ic_narrative case) (ic_core_request case)) w)
        as (a & evs & k & E & _).
      unfold bind at 1. rewrite E.
      set (record := {| rr_case_id := effective_id idx case;
                        rr_post_time := ic_post_time case;
                        rr_narrative := ic_narrative case;
                        rr_core_request := ic_core_request case;
                        rr_model_response := text a;
                        rr_finish_reason := finish_reason a;
                        rr_doctor_advice := ic_doctor_advice case |}).
      unfold bind at 1, save_results, emit.
      destruct (match max_cases with
                | Some m => m <=? S pc
                | None => false
                end).
      * exists record, [], ((w ++ evs) ++ [EvSave (results ++ [record])]).
        repeat split; reflexivity.
      * unfold bind, sleep, emit.
        destruct (cases_loop_spec c model max_cases rest (S idx)
                    (results ++ [record]) (ids ++ [effective_id idx case])
                    (S pc)
                    (((w ++ evs) ++ [EvSave (results ++ [record])])
                     ++ [EvSleep (5 # 10)]))
          as (news & w' & E' & _).
        rewrite E'. exists record, news, w'.
        split; [now rewrite <- app_assoc | repeat split; reflexivity].
    + cbn [cases_loop].
      pose proof (Hold 0 case0 ltac:(lia) eq_refl) as H0.
      rewrite Nat.add_0_r in H0. rewrite H0.
      replace (idx + S j) with (S idx + j) in * by lia.
      apply (IH (S idx) results ids pc w j case Hn Hnew).
      intros j' case' Hlt Hn'.
      replace (S idx + j') with (idx + S j') by lia.
      apply Hold; [lia | exact Hn'].
Qed.

(** X1. Resuming on an output file that already holds the id of every
    case of the input makes no call and writes nothing: the run returns
    the loaded records with the trace as it was.  The id of a case is
    the id it holds, or [case_<idx>] when it has no key [case_id]; a
    case whose [case_id] is null has no id that a file could hold, so
    the premise leaves such inputs out. *)
Theorem resume_on_complete_output_does_nothing (c : client) (model : string)
  (data : list input_case) (loaded : list response_record)
  (max_cases : option nat) (w : trace (list response_record)) :
  (forall idx case, nth_error data idx = Some case ->
                    id_in (effective_id idx case) (loaded_ids loaded) = true) ->
  process_cases c model data (Some loaded) max_cases true w = (Ok loaded, w).
Proof.
  intros H. unfold process_cases. now apply cases_loop_all_processed.
Qed.

Lemma resume_on_complete_output_witness :
  process_cases model_fixed "m" [case_without_id] (Some [record_case_0])
    (Some 1) true []
  = (Ok [record_case_0], []).
Proof.
  apply resume_on_complete_output_does_nothing.
  intros [ | idx] case H; [ | destruct idx; discriminate H].
  inversion H; subst. reflexivity.
Defined.

(** X2. A run without a case budget on an input in which no [case_id]
    is null leaves nothing to do: resuming on the list it returned, with
    any service and any budget, returns that list and adds no event to
    the trace. *)
Theorem restart_after_full_run_is_idle (c c' : client) (model model' : string)
  (data : list input_case) (existing_file : option (list response_record))
  (resume : bool) (max_cases' : option nat)
  (w w' w2 : trace (list response_record)) (out : list response_record) :
  Forall (fun case => ic_case_id case <> KeyNull) data ->
  process_cases c model data existing_file None resume w = (Ok out, w') ->
  process_cases c' model' data (Some out) max_cases' true w2 = (Ok out, w2).
Proof.
  intros Hids Hrun. unfold process_cases. apply cases_loop_all_processed.
  intros idx case Hn.
  destruct (cases_loop_spec c model None data 0
              (loaded_results resume existing_file)
              (loaded_ids (loaded_results resume existing_file)) 0 w)
    as (news & w1 & E & _ & Hall).
  change (cases_loop c model None 0 data (loaded_results resume existing_file)
            (loaded_ids (loaded_results resume existing_file)) 0 w)
    with (process_cases c model data existing_file None resume w) in E.
  rewrite Hrun in E. inversion E as [[Hout Hw]].
  specialize (Hall eq_refl idx case Hn). cbn [Nat.add] in *.
  rewrite Forall_forall in Hids.
  pose proof (Hids case (nth_error_In _ _ Hn)) as Hkey.
  apply id_in_In.
  destruct (effective_id idx case) as [i | ] eqn:Ei.
  - apply loaded_ids_In. rewrite ids_of_app, in_app_iff.
    apply in_app_or in Hall. destruct Hall as [H | H].
    + left. now apply loaded_ids_In.
    + right. now apply record_ids_In.
  - exfalso. unfold effective_id in Ei.
    destruct (ic_case_id case); congruence.
Qed.

Lemma restart_after_full_run_witness :
  process_cases service_down "other" [case_without_id] (Some [record_case_0])
    (Some 0) true []
  = (Ok [record_case_0], []).
Proof.
  apply (restart_after_full_run_is_idle model_fixed service_down "m" "other"
           [case_without_id] None false (Some 0) []
           [EvCall "m" (create_prompt "n" "r"); EvSave [record_case_0];
            EvSleep (5 # 10)]).
  - repeat constructor. discriminate.
  - vm_compute. reflexivity.
Defined.

(** X3. The run keeps the case ids distinct: when the loaded records have
    distinct ids (as when there are none), so has the list the run
    returns. *)
Theorem output_ids_stay_distinct (c : client) (model : string)
  (data : list input_case) (existing_file : option (list response_record))
  (max_cases : option nat) (resume : bool)
  (w : trace (list response_record)) :
  NoDup (ids_of (loaded_results resume existing_file)) ->
  exists out w',
    process_cases c model data existing_file max_cases resume w = (Ok out, w')
    /\ NoDup (ids_of out).
Proof.
  intros Hnd.
  destruct (cases_loop_trace c model max_cases data 0
              (loaded_results resume existing_file)
              (loaded_ids (loaded_results resume existing_file)) 0 w
              (ids_agree_loaded _))
    as (news & evs & E & Hnd' & _).
  exists (loaded_results resume existing_file ++ news), (w ++ evs).
  split; [exact E | now apply Hnd'].
Qed.

(** Two cases of the input file carry the same explicit id. *)
Definition case_dup : input_case :=
  {| ic_case_id := KeyId (IdStr "d"); ic_post_time := "";
     ic_narrative := "n"; ic_core_request := "r"; ic_doctor_advice := "" |}.

Lemma output_ids_stay_distinct_witness :
  exists out w',
    process_cases model_fixed "m" [case_dup; case_without_id; case_dup]
      None None false [] = (Ok out, w')
    /\ NoDup (ids_of out).
Proof.
  apply output_ids_stay_distinct. constructor.
Defined.

(** X4. The output file is rewritten after every new record and only then:
    the lists written are, in order, the loaded records followed by the
    first one, two, ... new records; every new record took at least one
    call of the model; a run that adds no record leaves no event. *)
Theorem checkpoint_after_every_new_record (c : client) (model : string)
  (data : list input_case) (existing_file : option (list response_record))
  (max_cases : option nat) (resume : bool)
  (w : trace (list response_record)) :
  exists news evs,
    process_cases c model data existing_file max_cases resume w
    = (Ok (loaded_results resume existing_file ++ news), w ++ evs)
    /\ saves evs
       = map (fun k => loaded_results resume existing_file ++ firstn k news)
           (seq 1 (List.length news))
    /\ List.length news <= List.length (calls evs)
    /\ (evs = [] \/ news <> []).
Proof.
  destruct (cases_loop_trace c model max_cases data 0
              (loaded_results resume existing_file)
              (loaded_ids (loaded_results resume existing_file)) 0 w
              (ids_agree_loaded _))
    as (news & evs & E & _ & Hs & Hc & _ & Hn).
  exists news, evs. repeat (split; [assumption | ]).
  destruct news as [ | r news]; [left; now apply Hn | right; discriminate].
Qed.

(** X5. The case budget is checked after a case is processed: with a
    budget of [m] the run adds at most [max 1 m] records, and the first
    case of the input whose id is not among the loaded ids is always
    processed, also with a budget of 0: its record is the first new
    one. *)
Theorem case_budget_bounds_new_records (c : client) (model : string)
  (data : list input_case) (existing_file : option (list response_record))
  (m : nat) (resume : bool) (w : trace (list response_record)) :
  exists news w',
    process_cases c model data existing_file (Some m) resume w
    = (Ok (loaded_results resume existing_file ++ news), w')
    /\ List.length news <= Nat.max 1 m
    /\ (forall idx case,
           nth_error data idx = Some case ->
           id_in (effective_id idx case)
             (loaded_ids (loaded_results resume existing_file)) = false ->
           (forall idx' case',
               idx' < idx -> nth_error data idx' = Some case' ->
               id_in (effective_id idx' case')
                 (loaded_ids (loaded_results resume existing_file)) = true) ->
           exists r rest,
             news = r :: rest
             /\ rr_case_id r = effective_id idx case
             /\ rr_narrative r = ic_narrative case
             /\ rr_core_request r = ic_core_request case).
Proof.
  destruct (cases_loop_trace c model (Some m) data 0
              (loaded_results resume existing_file)
              (loaded_ids (loaded_results resume existing_file)) 0 w
              (ids_agree_loaded _))
    as (news & evs & E & _ & _ & _ & Hb & _).
  exists news, (w ++ evs). split; [exact E | ]. split.
  - specialize (Hb m eq_refl). now rewrite Nat.sub_0_r in Hb.
  - intros idx case Hn Hnew Hold.
    destruct (cases_loop_first_pending c model (Some m) data 0
                (loaded_results resume existing_file)
                (loaded_ids (loaded_results resume existing_file)) 0 w
                idx case Hn Hnew Hold)
      as (r & rest & w1 & E1 & Hid & Hnarr & Hreq).
    rewrite E in E1. inversion E1 as [[Hout Hw]].
    apply app_inv_head in Hout. subst news.
    exists r, rest. repeat split; assumption.
Qed.

(** The record of the case of id [d]. *)
Definition record_d : response_record :=
  {| rr_case_id := Some (IdStr "d"); rr_post_time := "";
     rr_narrative := "n"; rr_core_request := "r";
     rr_model_response := "Rest and fluids.";
     rr_finish_reason := "stop"; rr_doctor_advice := "" |}.

(** The loaded file holds [d]; with a budget of 0 the case after it,
    the first that is not in the file, is still processed. *)
Lemma case_budget_witness :
  exists news w',
    process_cases model_fixed "m" [case_dup; case_without_id; case_other]
      (Some [record_d]) (Some 0) true []
    = (Ok ([record_d] ++ news), w')
    /\ List.length news <= Nat.max 1 0
    /\ exists r rest,
         news = r :: rest
         /\ rr_case_id r = Some (IdStr "case_1")
         /\ rr_narrative r = "n"
         /\ rr_core_request r = "r".
Proof.
  destruct (case_budget_bounds_new_records model_fixed "m"
              [case_dup; case_without_id; case_other] (Some [record_d]) 0
              true [])
    as (news & w' & E & Hle & Hfirst).
  exists news, w'. split; [exact E | ]. split; [exact Hle | ].
  apply (Hfirst 1 case_without_id eq_refl eq_refl).
  intros [ | idx'] case' Hlt Hn; [ | lia].
  inversion Hn; subst. reflexivity.
Defined.

(** *** The language test of the prompt *)

(** The text of a sequence of code points, UTF-8 encoded. *)
Definition text_of (cps : list N) : string :=
  fold_right (fun cp s => (utf8_encode cp ++ s)%string) "" cps.

(** [U+4E00 <= ch <= U+9FFF] *)
Definition is_cjk (cp : N) : bool := ((19968 <=? cp) && (cp <=? 40959))%N.

Lemma nat_of_byte (k : N) : (k < 256)%N -> nat_of_ascii (ascii_of_N k) = N.to_nat k.
Proof.
  intros H. unfold nat_of_ascii. now rewrite N_ascii_embedding.
Qed.

Lemma has_chinese_skip (k : N) (s : string) :
  (k < 228 \/ 233 < k)%N -> (k < 256)%N ->
  has_chinese (byte k ++ s)%string = has_chinese s.
Proof.
  intros Hk Hb. unfold byte. cbn [String.append has_chinese].
  rewrite (nat_of_byte k Hb).
  replace ((229 <=? N.to_nat k) && (N.to_nat k <=? 233)) with false.
  - replace (N.to_nat k =? 228) with false; [reflexivity | ].
    symmetry. apply Nat.eqb_neq. lia.
  - symmetry. apply andb_false_iff.
    destruct Hk; [left; apply Nat.leb_gt | right; apply Nat.leb_gt]; lia.
Qed.

Lemma has_chinese_lead (k : N) (s : string) :
  (229 <= k <= 233)%N -> has_chinese (byte k ++ s)%string = true.
Proof.
  intros Hk. unfold byte. cbn [String.append has_chinese].
  rewrite (nat_of_byte k) by lia.
  replace ((229 <=? N.to_nat k) && (N.to_nat k <=? 233)) with true;
    [reflexivity | ].
  symmetry. apply andb_true_iff. split; apply Nat.leb_le; lia.
Qed.

Lemma has_chinese_e4 (k2 : N) (s : string) :
  (k2 < 256)%N ->
  has_chinese (byte 228 ++ byte k2 ++ s)%string
  = if (184 <=? k2)%N then true else has_chinese (byte k2 ++ s)%string.
Proof.
  intros Hb. unfold byte at 1 2. cbn [String.append].
  change (has_chinese (String (ascii_of_N 228) (String (ascii_of_N k2) s)))
    with (if 184 <=? nat_of_ascii (ascii_of_N k2) then true
          else has_chinese (String (ascii_of_N k2) s)).
  rewrite (nat_of_byte k2 Hb).
  destruct (N.leb_spec 184 k2) as [H | H].
  - replace (184 <=? N.to_nat k2) with true; [reflexivity | ].
    symmetry. apply Nat.leb_le. lia.
  - replace (184 <=? N.to_nat k2) with false; [reflexivity | ].
    symmetry. apply Nat.leb_gt. lia.
Qed.

Lemma append_assoc (a b c : string) :
  ((a ++ b) ++ c)%string = (a ++ (b ++ c))%string.
Proof. induction a as [ | ch a IH]; simpl; [reflexivity | now rewrite IH]. Qed.

(** A code point of three bytes, cut at its bytes. *)
Lemma three_bytes (cp : N) :
  exists a q t : N,
    (cp = 4096 * a + 64 * q + t /\ q < 64 /\ t < 64
     /\ cp / 4096 = a /\ (cp / 64) mod 64 = q /\ cp mod 64 = t)%N.
Proof.
  exists (cp / 4096)%N, ((cp / 64) mod 64)%N, (cp mod 64)%N.
  pose proof (N.div_mod cp 64 ltac:(lia)) as E1.
  pose proof (N.div_mod (cp / 64) 64 ltac:(lia)) as E2.
  rewrite N.Div0.div_div in E2. change (64 * 64)%N with 4096%N in E2.
  pose proof (N.mod_lt cp 64 ltac:(lia)) as H1.
  pose proof (N.mod_lt (cp / 64) 64 ltac:(lia)) as H2.
  repeat split; try assumption.
  revert E1 E2. generalize (cp mod 64)%N, ((cp / 64) mod 64)%N, (cp / 4096)%N.
  generalize (cp / 64)%N. intros. lia.
Qed.

(** One character: the bytes of its encoding decide the test exactly
    when its code point is in the range. *)
Lemma has_chinese_char (cp : N) (s : string) :
  (cp < 1114112)%N ->
  has_chinese (utf8_encode cp ++ s)%string = is_cjk cp || has_chinese s.
Proof.
  intros Hcp. unfold utf8_encode, is_cjk.
  destruct (N.ltb_spec cp 128) as [H1 | H1].
  { rewrite has_chinese_skip by lia.
    replace (19968 <=? cp)%N with false; [reflexivity | ].
    symmetry. apply N.leb_gt. lia. }
  destruct (N.ltb_spec cp 2048) as [H2 | H2].
  { replace (19968 <=? cp)%N with false by (symmetry; apply N.leb_gt; lia).
    cbn [andb orb].
    pose proof (N.Div0.div_lt_upper_bound cp 64 32 ltac:(lia)) as Hd.
    pose proof (N.mod_lt cp 64 ltac:(lia)) as Hm.
    revert Hd Hm. generalize (cp / 64)%N, (cp mod 64)%N. intros b1 b2 Hd Hm.
    rewrite append_assoc, !has_chinese_skip by lia. reflexivity. }
  destruct (N.ltb_spec cp 65536) as [H3 | H3].
  { destruct (three_bytes cp) as (a & q & t & E & Hq & Ht & -> & -> & ->).
    rewrite !append_assoc.
    destruct (N.eq_dec a 4) as [E4 | N4].
    - rewrite E4. change (224 + 4)%N with 228%N.
      rewrite has_chinese_e4 by lia.
      destruct (N.leb_spec 184 (128 + q)) as [Hb | Hb].
      + replace (19968 <=? cp)%N with true by (symmetry; apply N.leb_le; lia).
        replace (cp <=? 40959)%N with true by (symmetry; apply N.leb_le; lia).
        reflexivity.
      + rewrite !has_chinese_skip by lia.
        replace (19968 <=? cp)%N with false; [reflexivity | ].
        symmetry. apply N.leb_gt. lia.
    - destruct (N.le_gt_cases 5 a) as [H5 | H5].
      + destruct (N.le_gt_cases a 9) as [H9 | H9].
        * rewrite has_chinese_lead by lia.
          replace (19968 <=? cp)%N with true
            by (symmetry; apply N.leb_le; lia).
          replace (cp <=? 40959)%N with true
            by (symmetry; apply N.leb_le; lia).
          reflexivity.
        * rewrite !has_chinese_skip by lia.
          replace (cp <=? 40959)%N with false;
            [now rewrite andb_false_r | ].
          symmetry. apply N.leb_gt. lia.
      + rewrite !has_chinese_skip by lia.
        replace (19968 <=? cp)%N with false; [reflexivity | ].
        symmetry. apply N.leb_gt. lia. }
  replace (cp <=? 40959)%N with false by (symmetry; apply N.leb_gt; lia).
  rewrite andb_false_r. cbn [orb].
  pose proof (N.Div0.div_lt_upper_bound cp 262144 5 ltac:(lia)) as Hd.
  pose proof (N.mod_lt cp 64 ltac:(lia)) as Hm1.
  pose proof (N.mod_lt (cp / 64) 64 ltac:(lia)) as Hm2.
  pose proof (N.mod_lt (cp / 4096) 64 ltac:(lia)) as Hm3.
  revert Hd Hm1 Hm2 Hm3.
  generalize (cp / 262144)%N, (cp mod 64)%N, ((cp / 64) mod 64)%N,
    ((cp / 4096) mod 64)%N.
  intros b1 b4 b3 b2 Hd Hm1 Hm2 Hm3.
  rewrite !append_assoc, !has_chinese_skip by lia. reflexivity.
Qed.

Lemma has_chinese_text (cps : list N) :
  Forall (fun cp => (cp < 1114112)%N) cps ->
  has_chinese (text_of cps) = existsb is_cjk cps.
Proof.
  induction 1 as [ | cp cps Hcp _ IH]; [reflexivity | ].
  cbn [text_of fold_right existsb]. fold (text_of cps).
  now rewrite has_chinese_char, IH.
Qed.

Lemma text_of_app (a b : list N) :
  text_of (a ++ b) = (text_of a ++ text_of b)%string.
Proof.
  induction a as [ | cp a IH]; [reflexivity | ].
  cbn [app text_of fold_right]. fold (text_of (a ++ b)) (text_of a).
  now rewrite IH, append_assoc.
Qed.

(** X6. The test on the bytes of a text finds exactly the texts that hold
    a character from U+4E00 to U+9FFF. *)
Theorem has_chinese_finds_the_cjk_range (cps : list N) :
  Forall (fun cp => (cp < 1114112)%N) cps ->
  has_chinese (text_of cps) = existsb is_cjk cps.
Proof. apply has_chinese_text. Qed.

(** The character U+4E2D among Latin letters. *)
Lemma has_chinese_witness :
  has_chinese (text_of [97; 20013; 98]%N) = existsb is_cjk [97; 20013; 98]%N.
Proof.
  apply has_chinese_finds_the_cjk_range. repeat constructor.
Defined.

Definition instruction_zh : string :=
  "请直接用中文回答下面的问题，不要给出推理过程或中间步骤。".

Definition instruction_en : string :=
  "IMPORTANT: Provide ONLY the final answer to the following question, "
  ++ "without any explanation or reasoning steps.".

(** X7. The prompt is the instruction, an empty line, the narrative, an
    empty line and the core request; the instruction is the Chinese one
    exactly when the narrative or the core request holds a character
    from U+4E00 to U+9FFF, and the English one otherwise. *)
Theorem prompt_language_follows_the_case_text (narrative core_request : list N) :
  Forall (fun cp => (cp < 1114112)%N) narrative ->
  Forall (fun cp => (cp < 1114112)%N) core_request ->
  create_prompt (text_of narrative) (text_of core_request)
  = ((if existsb is_cjk narrative || existsb is_cjk core_request
      then instruction_zh else instruction_en)
     ++ nl ++ nl ++ text_of narrative ++ nl ++ nl ++ text_of core_request)%string.
Proof.
  intros Hn Hr. unfold create_prompt.
  change (text_of narrative ++ nl ++ nl ++ text_of core_request)%string
    with (text_of narrative ++ text_of [10; 10]%N ++ text_of core_request)%string.
  rewrite <- !text_of_app, has_chinese_text, !existsb_app.
  - cbn [existsb is_cjk]. reflexivity.
  - apply Forall_app. split; [exact Hn | ].
    apply Forall_app. split; [ | exact Hr].
    repeat constructor.
Qed.

Lemma prompt_language_witness :
  create_prompt (text_of [97; 20013; 98]%N) (text_of [63]%N)
  = (instruction_zh ++ nl ++ nl ++ text_of [97; 20013; 98]%N
     ++ nl ++ nl ++ text_of [63]%N)%string.
Proof.
  apply (prompt_language_follows_the_case_text [97; 20013; 98]%N [63]%N);
    repeat constructor.
Defined.

(** *** The whole generation run *)

(** X8. The program never fails once it has its data and its client, and
    it never loses a loaded record: every list it writes to the output
    file is the loaded records followed by the first new records, and
    the last list written, also when there was nothing to do, is the
    loaded records followed by all the new ones. *)
Theorem output_file_ends_with_loaded_and_new_records (c : client)
  (model : string) (data : list input_case)
  (existing_file : option (list response_record))
  (max_cases : option nat) (resume : bool)
  (w : trace (list response_record)) :
  exists news evs,
    RunModel.main c model data existing_file max_cases resume w
    = (Ok tt, w ++ evs)
    /\ saves evs
       = map (fun k => loaded_results resume existing_file ++ firstn k news)
           (seq 1 (List.length news))
         ++ [loaded_results resume existing_file ++ news].
Proof.
  destruct (cases_loop_trace c model max_cases data 0
              (loaded_results resume existing_file)
              (loaded_ids (loaded_results resume existing_file)) 0 w
              (ids_agree_loaded _))
    as (news & evs & E & _ & Hs & _).
  exists news, (evs ++ [EvSave (loaded_results resume existing_file ++ news)]).
  split.
  - unfold RunModel.main, bind.
    change (process_cases c model data existing_file max_cases resume w)
      with (cases_loop c model max_cases 0 data
              (loaded_results resume existing_file)
              (loaded_ids (loaded_results resume existing_file)) 0 w).
    rewrite E. unfold save_results, emit. now rewrite app_assoc.
  - rewrite saves_app, Hs. reflexivity.
Qed.

End RunModelMore.

(** ** More on the grading run *)

Module EvaluateModelMore.
Import Py Json Eff EffFacts EffMore PyFacts PyMore EvaluateModel EvaluateModelFacts.
#[local] Open Scope list_scope.

(** *** Grading writes nothing to the output file *)

Lemma parse_reply_saves (text : string) (w : trace (list eval_record)) :
  exists r evs, parse_reply text w = (Ok r, w ++ evs) /\ saves evs = [].
Proof.
  destruct (parse_reply_spec text w) as (r & evs & E & _ & [-> | ->]);
    exists r; eexists; split; try exact E; reflexivity.
Qed.

Lemma evaluator_attempts_saves (c : client) (prompt : string)
  (max_retries : nat) :
  forall (remaining attempt : nat) (w : trace (list eval_record)),
    exists r evs,
      evaluator_attempts c prompt max_retries remaining attempt w
      = (Ok r, w ++ evs)
      /\ saves evs = [].
Proof.
  induction remaining as [ | remaining IH]; intros attempt w.
  - exists "0", []. now rewrite app_nil_r.
  - cbn [evaluator_attempts]. unfold try_catch, bind at 1, create.
    set (call := @EvCall (list eval_record) EVALUATOR_MODEL prompt).
    destruct (c (List.length (calls w)) EVALUATOR_MODEL prompt)
      as [e | content finish].
    + destruct (attempt <? max_retries - 1).
      * unfold bind at 1 2, print, sleep, emit.
        set (wait := ((Z.of_nat attempt + 1) * 2)%Z).
        destruct (IH (S attempt)
                    (((w ++ [call]) ++ [EvLog (LogRetry wait)])
                     ++ [EvSleep (inject_Z wait)]))
          as (r & evs & E & Hs).
        rewrite E.
        exists r, ([call; EvLog (LogRetry wait); EvSleep (inject_Z wait)] ++ evs).
        split; [now rewrite <- !app_assoc | ].
        rewrite saves_app, Hs. reflexivity.
      * unfold bind, print, emit, ret.
        exists "0", [call; EvLog LogExhausted].
        split; [now rewrite <- app_assoc | reflexivity].
    + cbn [fst]. unfold bind.
      destruct (parse_reply_saves (strip (or_else content "")) (w ++ [call]))
        as (r & evs & E & Hs).
      rewrite E. exists r, ([call] ++ evs).
      split; [now rewrite <- app_assoc | ].
      rewrite saves_app, Hs. reflexivity.
Qed.

Lemma grade_items_saves (c : client) (model_response user_query : string) :
  forall (items : list rubric_item) (k : nat) (d : dict judgment)
         (w : trace (list eval_record)) (d' : dict judgment)
         (w' : trace (list eval_record)),
    grade_items c model_response user_query k items d w = (Ok d', w') ->
    exists evs, w' = w ++ evs /\ saves evs = [].
Proof.
  induction items as [ | item rest IH]; intros k d w d' w' H.
  - inversion H; subst. exists []. now rewrite app_nil_r.
  - cbn [grade_items] in H.
    destruct (criterion item =? "")%string; [now apply IH in H | ].
    unfold bind at 1, evaluate_rubric_item in H.
    destruct ((model_response =? "")%string
              || (strip model_response =? "")%string).
    + unfold ret, bind, sleep, emit in H. apply IH in H.
      destruct H as (evs & -> & Hs). exists ([EvSleep (2 # 10)] ++ evs).
      split; [now rewrite <- app_assoc | ].
      rewrite saves_app, Hs. reflexivity.
    + unfold bind at 1, call_gpt_evaluator in H.
      destruct (evaluator_attempts_saves c
                  (create_evaluation_prompt (criterion item) model_response
                     user_query) 3 3 0 w) as (r & evs1 & E & Hs1).
      rewrite E in H.
      destruct (py_int r (w ++ evs1)) as [[z | e] w1] eqn:Hint.
      * assert (w1 = w ++ evs1).
        { unfold py_int in Hint.
          destruct (take_digits (strip r)) as [[ | ] [ | ]];
            inversion Hint; reflexivity. }
        subst w1. unfold bind, sleep, emit in H. apply IH in H.
        destruct H as (evs & -> & Hs).
        exists (evs1 ++ [EvSleep (2 # 10)] ++ evs).
        split; [now rewrite <- !app_assoc | ].
        rewrite !saves_app, Hs1, Hs. reflexivity.
      * discriminate H.
Qed.

(** *** The loop over the rubric cases *)

Section Loop.
Variable c : client.
Variable model_results : dict model_case.
Variable existing_evaluations : dict eval_record.
Variable response_field : string.
Variable max_cases : option nat.

(** The cases that get a record in [results]: those with an id, except
    the cases without rubric items that are in the loaded file. *)
Definition emits (case : rubric_case) : bool :=
  match rc_case_id case with
  | None => false
  | Some cid =>
      match rc_rubric_items case with
      | [] => negb (dict_mem (str cid) existing_evaluations)
      | _ :: _ => true
      end
  end.

(** The cases that count as processed: those with an id and rubric
    items that are not in the loaded file. *)
Definition fresh (case : rubric_case) : bool :=
  match rc_case_id case with
  | None => false
  | Some cid =>
      match rc_rubric_items case with
      | [] => false
      | _ :: _ => negb (dict_mem (str cid) existing_evaluations)
      end
  end.

Definition user_query_of (case : rubric_case) : string :=
  strip (rc_narrative case ++ nl ++ nl ++ rc_core_request case).

(** The response text the run grades for a case, when there is one. *)
Definition response_of (case : rubric_case) : option string :=
  match rc_case_id case with
  | None => None
  | Some cid =>
      match dict_get (str cid) model_results with
      | None => None
      | Some model_case =>
          let model_response := lookup_response model_case response_field in
          if (model_response =? "")%string then None else Some model_response
      end
  end.

(** The record a case ends with. *)
Definition record_of (case : rubric_case) (r : eval_record) : Prop :=
  match rc_case_id case with
  | None => False
  | Some cid =>
      match rc_rubric_items case with
      | [] => r = empty_record cid
      | _ :: _ =>
          match dict_get (str cid) existing_evaluations with
          | Some loaded => r = loaded
          | None =>
              match response_of case with
              | None => r = empty_record cid
              | Some model_response =>
                  case_id r = Some cid
                  /\ exists scores,
                       evaluations r
                       = map stored
                           (combine (judged 1 (rc_rubric_items case)) scores)
                       /\ List.length scores
                          = List.length (judged 1 (rc_rubric_items case))
                       /\ Forall (fun score => score = 0 \/ score = 1)%Z scores
              end
          end
      end
  end.

(** A judge call made for a criterion of a case that is graded. *)
Definition graded_call (case : rubric_case) (e : event (list eval_record))
  : Prop :=
  fresh case = true
  /\ exists model_response item,
       response_of case = Some model_response
       /\ In item (rc_rubric_items case)
       /\ criterion item <> ""
       /\ e = EvCall EVALUATOR_MODEL
                (create_evaluation_prompt (criterion item) model_response
                   (user_query_of case)).

Definition count_fresh (cases : list rubric_case) : nat :=
  List.length (filter fresh cases).

Lemma grade_items_calls (model_response user_query : string)
  (items : list rubric_item) (w w' : trace (list eval_record))
  (d : dict judgment) :
  grade_items c model_response user_query 1 items [] w = (Ok d, w') ->
  exists evs scores,
    w' = w ++ evs
    /\ saves evs = []
    /\ d = map stored (combine (judged 1 items) scores)
    /\ List.length scores = List.length (judged 1 items)
    /\ Forall (fun score => score = 0 \/ score = 1)%Z scores
    /\ Forall
         (fun e =>
            is_call e = true ->
            exists item,
              In item items /\ criterion item <> ""
              /\ e = EvCall EVALUATOR_MODEL
                       (create_evaluation_prompt (criterion item)
                          model_response user_query))
         evs.
Proof.
  intros H.
  destruct (grade_items_saves _ _ _ _ _ _ _ _ _ H) as (evs & -> & Hs).
  destruct (grade_items_spec c model_response user_query items 1 [] w)
    as (scores & counts & evs' & E & Hls & Hsc & _ & _ & Hcalls).
  { intros key []. }
  rewrite H in E. inversion E as [[Hd Hw]]. apply app_inv_head in Hw.
  subst evs'. exists evs, scores.
  repeat (split; [assumption || reflexivity | ]).
  apply Forall_forall. intros e He Hcall.
  assert (Hin : In e (calls evs)) by (apply filter_In; auto).
  rewrite Hcalls in Hin. apply in_flat_map in Hin.
  destruct Hin as ([[k item] n] & Hin & Hrep).
  apply repeat_spec in Hrep. cbn [fst snd] in Hrep.
  apply in_combine_l in Hin. apply filter_In in Hin.
  destruct Hin as [Hpos Hne]. apply positions_nth in Hpos.
  destruct Hpos as [_ Hnth]. apply nth_error_In in Hnth.
  exists item. repeat split; auto.
  intros Hempty. cbn [snd] in Hne. rewrite Hempty in Hne. discriminate.
Qed.
(** What a run of the loop from [cases], [results] and
    [processed_count] ends with: the cases [done] before it stops, one
    record per emitting case, calls for graded cases only, and written
    lists that start with the loaded records and [results]. *)
Definition loop_post (cases : list rubric_case) (results : list eval_record)
  (processed_count : nat) (w : trace (list eval_record))
  (out : outcome (list eval_record) * trace (list eval_record)) : Prop :=
  exists done rest news evs,
    cases = done ++ rest
    /\ out = (Ok (results ++ news), w ++ evs)
    /\ Forall2 record_of (filter emits done) news
    /\ (max_cases = None -> rest = [])
    /\ (forall m, max_cases = Some m -> processed_count <= m ->
                  processed_count + count_fresh done <= m
                  /\ (rest <> [] -> processed_count + count_fresh done = m))
    /\ Forall (fun e => is_call e = true ->
                        exists case, In case done /\ graded_call case e) evs
    /\ Forall (fun content =>
                 exists k, content
                           = dict_values existing_evaluations
                             ++ results ++ firstn k news)
              (saves evs).

Lemma fresh_emits (case : rubric_case) : fresh case = true -> emits case = true.
Proof.
  unfold fresh, emits. destruct (rc_case_id case); [ | discriminate].
  now destruct (rc_rubric_items case).
Qed.

Lemma loop_post_skip (case : rubric_case) (rest : list rubric_case)
  (results : list eval_record) (processed_count : nat)
  (w : trace (list eval_record))
  (out : outcome (list eval_record) * trace (list eval_record)) :
  emits case = false ->
  loop_post rest results processed_count w out ->
  loop_post (case :: rest) results processed_count w out.
Proof.
  intros He (done & rest' & news & evs & -> & -> & Hrec & Hnone & Hb & Hc & Hs).
  assert (Hf : fresh case = false).
  { destruct (fresh case) eqn:F; [ | reflexivity].
    apply fresh_emits in F. congruence. }
  exists (case :: done), rest', news, evs.
  split; [reflexivity | ]. split; [reflexivity | ].
  split; [cbn [filter]; now rewrite He | ].
  split; [exact Hnone | ].
  split.
  { unfold count_fresh. cbn [filter]. rewrite Hf. exact Hb. }
  split; [ | exact Hs].
  eapply Forall_impl; [ | exact Hc].
  intros e H Hcall. destruct (H Hcall) as (case' & Hin & Hg).
  exists case'. split; [now right | exact Hg].
Qed.

Lemma loop_post_emit (case : rubric_case) (rest : list rubric_case)
  (results : list eval_record) (processed_count : nat)
  (w evs0 : trace (list eval_record)) (r : eval_record)
  (out : outcome (list eval_record) * trace (list eval_record)) :
  emits case = true ->
  record_of case r ->
  budget_reached max_cases processed_count = false ->
  Forall (fun e => is_call e = true -> graded_call case e) evs0 ->
  Forall (fun content => content
                         = dict_values existing_evaluations ++ results ++ [r])
         (saves evs0) ->
  loop_post rest (results ++ [r])
    (if fresh case then S processed_count else processed_count)
    (w ++ evs0) out ->
  loop_post (case :: rest) results processed_count w out.
Proof.
  intros He Hr Hbud Hc0 Hs0
         (done & rest' & news & evs & -> & -> & Hrec & Hnone & Hb & Hc & Hs).
  exists (case :: done), rest', (r :: news), (evs0 ++ evs).
  split; [reflexivity | ].
  split; [now rewrite <- !app_assoc | ].
  split; [cbn [filter]; rewrite He; now constructor | ].
  split; [exact Hnone | ].
  split.
  { intros m Hm Hle. unfold count_fresh. cbn [filter].
    unfold budget_reached in Hbud. rewrite Hm in Hbud.
    apply Nat.leb_gt in Hbud.
    destruct (fresh case); cbn [List.length].
    - destruct (Hb m Hm ltac:(lia)) as [H1 H2]. fold (count_fresh done).
      unfold count_fresh in *. split; [lia | ]. intros H. specialize (H2 H). lia.
    - exact (Hb m Hm Hle). }
  split.
  { apply Forall_app. split.
    - eapply Forall_impl; [ | exact Hc0].
      intros e H Hcall. exists case. split; [now left | auto].
    - eapply Forall_impl; [ | exact Hc].
      intros e H Hcall. destruct (H Hcall) as (case' & Hin & Hg).
      exists case'. split; [now right | exact Hg]. }
  rewrite saves_app. apply Forall_app. split.
  - eapply Forall_impl; [ | exact Hs0].
    intros content ->. exists 1. reflexivity.
  - eapply Forall_impl; [ | exact Hs].
    intros content (k & ->). exists (S k). cbn [firstn].
    now rewrite <- !app_assoc.
Qed.

Lemma eval_loop_trace :
  forall (cases : list rubric_case) (results : list eval_record)
         (processed_count : nat) (w : trace (list eval_record)),
    loop_post cases results processed_count w
      (eval_loop c model_results existing_evaluations response_field
         max_cases cases results processed_count w).
Proof.
  induction cases as [ | case rest IH]; intros results pc w.
  - exists [], [], [], [].
    split; [reflexivity | ]. split; [cbn; now rewrite !app_nil_r | ].
    split; [constructor | ]. split; [reflexivity | ].
    split; [ | split; constructor].
    intros m _ Hle. cbn. split; [lia | intros H; now elim H].
  - cbn [eval_loop].
    destruct (budget_reached max_cases pc) eqn:Hbud.
    + (* the budget is spent *)
      exists [], (case :: rest), [], []. unfold budget_reached in Hbud.
      split; [reflexivity | ]. split; [cbn; now rewrite !app_nil_r | ].
      split; [constructor | ].
      split; [intros Hn; rewrite Hn in Hbud; discriminate | ].
      split; [ | split; constructor].
      intros m Hm Hle. rewrite Hm in Hbud. apply Nat.leb_le in Hbud.
      cbn. split; lia.
    + destruct (rc_case_id case) as [cid | ] eqn:Hid.
      2:{ apply loop_post_skip; [ | apply IH]. unfold emits. now rewrite Hid. }
      destruct (rc_rubric_items case) as [ | item items] eqn:Hitems.
      { destruct (dict_mem (str cid) existing_evaluations) eqn:Hmem.
        - apply loop_post_skip; [ | apply IH].
          unfold emits. now rewrite Hid, Hitems, Hmem.
        - apply (loop_post_emit case rest results pc w [] (empty_record cid));
            try (now constructor); try assumption.
          + unfold emits. now rewrite Hid, Hitems, Hmem.
          + unfold record_of. now rewrite Hid, Hitems.
          + rewrite app_nil_r.
            replace (fresh case) with false
              by (unfold fresh; now rewrite Hid, Hitems).
            apply IH. }
      assert (Hemits : emits case = true).
      { unfold emits. now rewrite Hid, Hitems. }
      destruct (dict_get (str cid) existing_evaluations) as [loaded | ] eqn:Hex.
      { apply (loop_post_emit case rest results pc w [] loaded);
          try (now constructor); try assumption.
        - unfold record_of. now rewrite Hid, Hitems, Hex.
        - rewrite app_nil_r.
          replace (fresh case) with false.
          + apply IH.
          + unfold fresh, dict_mem, assoc_mem. fold (@dict_get eval_record).
            now rewrite Hid, Hitems, Hex. }
      assert (Hfresh : fresh case = true).
      { unfold fresh, dict_mem, assoc_mem. fold (@dict_get eval_record).
        now rewrite Hid, Hitems, Hex. }
      destruct (dict_get (str cid) model_results) as [model_case | ] eqn:Hmr.
      2:{ apply (loop_post_emit case rest results pc w [] (empty_record cid));
            try (now constructor); try assumption.
          - unfold record_of, response_of. now rewrite Hid, Hitems, Hex, Hmr.
          - rewrite app_nil_r, Hfresh. apply IH. }
      destruct (lookup_response model_case response_field =? "")%string eqn:Hresp.
      { apply (loop_post_emit case rest results pc w [] (empty_record cid));
          try (now constructor); try assumption.
        - unfold record_of, response_of.
          now rewrite Hid, Hitems, Hex, Hmr, Hresp.
        - rewrite app_nil_r, Hfresh. apply IH. }
      (* the case is graded *)
      fold (user_query_of case). unfold bind at 1.
      destruct (grade_items c (lookup_response model_case response_field)
                  (user_query_of case) 1 (item :: items) [] w)
        as [[d | e] w1] eqn:Hg.
      2:{ exfalso.
          destruct (grade_items_spec c
                      (lookup_response model_case response_field)
                      (user_query_of case) (item :: items) 1 [] w)
            as (? & ? & ? & E & _); [intros key [] | ].
          rewrite Hg in E. discriminate E. }
      destruct (grade_items_calls _ _ _ _ _ _ Hg)
        as (evs1 & scores & -> & Hs1 & -> & Hls & Hsc & Hcalls).
      set (r := {| case_id := Some cid;
                   evaluations :=
                     map stored (combine (judged 1 (item :: items)) scores) |}).
      assert (Hrec : record_of case r).
      { unfold record_of, response_of.
        rewrite Hid, Hitems, Hex, Hmr, Hresp.
        split; [reflexivity | ]. exists scores. now repeat split. }
      assert (Hgc : Forall (fun e => is_call e = true -> graded_call case e) evs1).
      { eapply Forall_impl; [ | exact Hcalls].
        intros e H Hcall. destruct (H Hcall) as (it & Hin & Hne & ->).
        split; [exact Hfresh | ].
        exists (lookup_response model_case response_field), it.
        rewrite Hitems. repeat split; auto.
        unfold response_of. now rewrite Hid, Hmr, Hresp. }
      unfold bind at 1.
      destruct (S pc mod 5 =? 0).
      * unfold emit.
        apply (loop_post_emit case rest results pc w
                 (evs1 ++ [EvSave (dict_values existing_evaluations
                                   ++ results ++ [r])]) r);
          try assumption.
        -- apply Forall_app. split; [exact Hgc | ].
           constructor; [discriminate | constructor].
        -- rewrite saves_app, Hs1. cbn. now constructor.
        -- rewrite Hfresh, app_assoc. apply IH.
      * unfold ret.
        apply (loop_post_emit case rest results pc w evs1 r); try assumption.
        -- rewrite Hs1. constructor.
        -- rewrite Hfresh. apply IH.
Qed.
End Loop.

(** *** The grading run as a whole *)

(** The run, from the loop's point of view. *)
Lemma process_evaluations_post (c : client) (rubric_data : list rubric_case)
  (model_results : dict model_case)
  (existing_file : option (list eval_record)) (response_field : string)
  (max_cases : option nat) (resume : bool) (w : trace (list eval_record)) :
  exists done rest results evs,
    rubric_data = done ++ rest
    /\ process_evaluations c rubric_data model_results existing_file
         response_field max_cases resume w
       = (Ok (dict_values (load_existing resume existing_file) ++ results),
          (w ++ evs)
          ++ [EvSave (dict_values (load_existing resume existing_file)
                      ++ results)])
    /\ Forall2
         (record_of model_results (load_existing resume existing_file)
            response_field)
         (filter (emits (load_existing resume existing_file)) done) results
    /\ (max_cases = None -> rest = [])
    /\ (forall m, max_cases = Some m ->
                  count_fresh (load_existing resume existing_file) done <= m
                  /\ (rest <> [] ->
                      count_fresh (load_existing resume existing_file) done = m))
    /\ Forall (fun e => is_call e = true ->
                        exists case,
                          In case done
                          /\ graded_call model_results
                               (load_existing resume existing_file)
                               response_field case e) evs
    /\ Forall (fun content =>
                 exists k, content
                           = dict_values (load_existing resume existing_file)
                             ++ firstn k results)
              (saves evs).
Proof.
  destruct (eval_loop_trace c model_results
              (load_existing resume existing_file) response_field max_cases
              rubric_data [] 0 w)
    as (done & rest & news & evs & Hsplit & E & Hrec & Hnone & Hb & Hc & Hs).
  exists done, rest, news, evs. cbn [app] in E, Hs.
  split; [exact Hsplit | ].
  split.
  { unfold process_evaluations, bind at 1. rewrite E.
    unfold bind, emit, ret. reflexivity. }
  split; [exact Hrec | ]. split; [exact Hnone | ].
  split; [ | split; [exact Hc | exact Hs]].
  intros m Hm. exact (Hb m Hm (Nat.le_0_l m)).
Qed.

(** X9. A run without a case budget that comes to its end gives every
    rubric case one outcome, in the order of the rubric file: the list
    it returns is the loaded records followed by one record for each
    case that has an id, except the cases without rubric items that are
    in the loaded file.  The record is the loaded one for a case in the
    loaded file; an empty one for a case without rubric items, without
    model output or with an empty response; and otherwise the mapping
    of the judgments of its criteria.  (A run that meets a rubric item
    whose points are null does not come to its end.) *)
Theorem every_case_gets_one_outcome (c : client)
  (rubric_data : list rubric_case) (model_results : dict model_case)
  (existing_file : option (list eval_record)) (response_field : string)
  (resume : bool) (w w' : trace (list eval_record))
  (final : list eval_record) :
  process_evaluations c rubric_data model_results existing_file
    response_field None resume w
  = (Ok final, w') ->
  exists results,
    final = dict_values (load_existing resume existing_file) ++ results
    /\ Forall2
         (record_of model_results (load_existing resume existing_file)
            response_field)
         (filter (emits (load_existing resume existing_file)) rubric_data)
         results.
Proof.
  intros Hrun.
  destruct (process_evaluations_post c rubric_data model_results existing_file
              response_field None resume w)
    as (done & rest & results & evs & Hsplit & E & Hrec & Hnone & _).
  rewrite (Hnone eq_refl), app_nil_r in Hsplit. subst done.
  rewrite Hrun in E. inversion E as [[Hfinal Hw]].
  now exists results.
Qed.

(** The run on case [a], graded by a judge that finds the criterion
    met. *)
Lemma every_case_gets_one_outcome_witness :
  exists results,
    [stored_a] = dict_values (load_existing false None) ++ results
    /\ Forall2 (record_of answers (load_existing false None) "model_response")
         (filter (emits (load_existing false None)) [case_a]) results.
Proof.
  apply (every_case_gets_one_outcome judge_yes [case_a] answers None
           "model_response" false []
           [EvCall EVALUATOR_MODEL
              (create_evaluation_prompt "X" "Rest and fluids."
                 ("n" ++ nl ++ nl ++ "r"));
            EvSleep (2 # 10); EvSave [stored_a]]).
  vm_compute. reflexivity.
Defined.

Lemma Forall_calls {F : Type} (P : event F -> Prop) (evs : trace F) :
  Forall (fun e => is_call e = true -> P e) evs -> Forall P (calls evs).
Proof.
  induction 1 as [ | e l He _ IH]; [constructor | ].
  unfold calls. cbn [filter]. destruct (is_call e) eqn:Hcall; [ | exact IH].
  constructor; [exact (He eq_refl) | exact IH].
Qed.

(** X10. The judge is called only for criteria of cases that need grading:
    every call of the run sends the prompt of a non-empty criterion of a
    rubric case that has rubric items, is not in the loaded file, and
    has a non-empty model response; the prompt holds that response and
    the user query of that case.  So a case from the loaded file is
    never graded again, whatever the budget. *)
Theorem judge_called_only_for_ungraded_cases (c : client)
  (rubric_data : list rubric_case) (model_results : dict model_case)
  (existing_file : option (list eval_record)) (response_field : string)
  (max_cases : option nat) (resume : bool) (w : trace (list eval_record)) :
  exists final evs,
    process_evaluations c rubric_data model_results existing_file
      response_field max_cases resume w
    = (Ok final, w ++ evs)
    /\ Forall
         (fun e =>
            exists case cid model_case item,
              In case rubric_data
              /\ rc_case_id case = Some cid
              /\ dict_get (str cid) (load_existing resume existing_file) = None
              /\ dict_get (str cid) model_results = Some model_case
              /\ lookup_response model_case response_field <> ""
              /\ In item (rc_rubric_items case)
              /\ criterion item <> ""
              /\ e = EvCall EVALUATOR_MODEL
                       (create_evaluation_prompt (criterion item)
                          (lookup_response model_case response_field)
                          (user_query_of case)))
         (calls evs).
Proof.
  destruct (process_evaluations_post c rubric_data model_results existing_file
              response_field max_cases resume w)
    as (done & rest & results & evs & Hsplit & E & _ & _ & _ & Hc & _).
  exists (dict_values (load_existing resume existing_file) ++ results),
    (evs ++ [EvSave (dict_values (load_existing resume existing_file)
                     ++ results)]).
  split; [now rewrite app_assoc | ].
  apply Forall_calls, Forall_app.
  split; [ | constructor; [discriminate | constructor]].
  eapply Forall_impl; [ | exact Hc].
  intros e H Hcall.
  destruct (H Hcall) as (case & Hin & Hfresh & resp & item & Hresp & Hitem
                         & Hne & ->).
  unfold fresh in Hfresh. unfold response_of in Hresp.
  destruct (rc_case_id case) as [cid | ] eqn:Hid; [ | discriminate].
  destruct (dict_get (str cid) model_results) as [model_case | ] eqn:Hmr;
    [ | discriminate].
  destruct (lookup_response model_case response_field =? "")%string eqn:Hr;
    [discriminate | ].
  inversion Hresp; subst resp.
  exists case, cid, model_case, item.
  split; [rewrite Hsplit; apply in_or_app; now left | ].
  split; [exact Hid | ].
  split.
  { destruct (rc_rubric_items case); [discriminate | ].
    unfold dict_mem, assoc_mem in Hfresh. unfold dict_get.
    now destruct (assoc_get String.eqb (str cid)
                    (load_existing resume existing_file)). }
  split; [exact Hmr | ].
  split; [now apply String.eqb_neq | ].
  repeat split; auto.
Qed.

(** X11. No write of the run loses a loaded record or reorders the output:
    every list written to the output file is the loaded records followed
    by the first records of this run, hence a prefix of the list finally
    returned, and the last write is that list. *)
Theorem every_write_is_a_prefix_of_the_final_list (c : client)
  (rubric_data : list rubric_case) (model_results : dict model_case)
  (existing_file : option (list eval_record)) (response_field : string)
  (max_cases : option nat) (resume : bool) (w : trace (list eval_record)) :
  exists results evs earlier,
    process_evaluations c rubric_data model_results existing_file
      response_field max_cases resume w
    = (Ok (dict_values (load_existing resume existing_file) ++ results),
       w ++ evs)
    /\ saves evs
       = earlier ++ [dict_values (load_existing resume existing_file)
                     ++ results]
    /\ Forall (fun content =>
                 exists k, content
                           = dict_values (load_existing resume existing_file)
                             ++ firstn k results)
              earlier.
Proof.
  destruct (process_evaluations_post c rubric_data model_results existing_file
              response_field max_cases resume w)
    as (done & rest & results & evs & _ & E & _ & _ & _ & _ & Hs).
  exists results,
    (evs ++ [EvSave (dict_values (load_existing resume existing_file)
                     ++ results)]),
    (saves evs).
  split; [now rewrite app_assoc | ].
  split; [now rewrite saves_app | exact Hs].
Qed.

(** X12. With a budget of [m] cases the run stops at the first rubric case
    it meets once [m] cases were counted: it handles a prefix [done] of
    the rubric file, in which at most [m] cases have an id, rubric items
    and no loaded record (exactly [m] when it stopped early), and
    returns the loaded records followed by the records of [done].
    Cases from the loaded file and cases without rubric items are not
    counted; cases without model output are. *)
Theorem case_budget_counts_ungraded_cases (c : client)
  (rubric_data : list rubric_case) (model_results : dict model_case)
  (existing_file : option (list eval_record)) (response_field : string)
  (m : nat) (resume : bool) (w : trace (list eval_record)) :
  exists done rest results w',
    rubric_data = done ++ rest
    /\ process_evaluations c rubric_data model_results existing_file
         response_field (Some m) resume w
       = (Ok (dict_values (load_existing resume existing_file) ++ results), w')
    /\ Forall2
         (record_of model_results (load_existing resume existing_file)
            response_field)
         (filter (emits (load_existing resume existing_file)) done) results
    /\ count_fresh (load_existing resume existing_file) done <= m
    /\ (rest = []
        \/ count_fresh (load_existing resume existing_file) done = m).
Proof.
  destruct (process_evaluations_post c rubric_data model_results existing_file
              response_field (Some m) resume w)
    as (done & rest & results & evs & Hsplit & E & Hrec & _ & Hb & _).
  destruct (Hb m eq_refl) as [Hle Hstop].
  exists done, rest, results,
    ((w ++ evs)
     ++ [EvSave (dict_values (load_existing resume existing_file)
                 ++ results)]).
  split; [exact Hsplit | ]. split; [exact E | ]. split; [exact Hrec | ].
  split; [exact Hle | ].
  destruct rest as [ | case rest]; [now left | right].
  apply Hstop. discriminate.
Qed.

(** *** The model-result loader *)

(** The key under which an element of a list root is stored. *)
Definition item_key (it : result_item) : option string :=
  match it with
  | ItemDict (Some case_id) _ => Some (str case_id)
  | _ => None
  end.

(** The key under which an entry of an object root is stored. *)
Definition entry_key (kv : string * result_item) : option string :=
  match snd kv with
  | ItemDict case_id _ => Some (id_or_key case_id (fst kv))
  | ItemOther => None
  end.

Definition record_of_item (it : result_item) : option model_case :=
  match it with
  | ItemDict _ item => Some item
  | ItemOther => None
  end.

Definition key_is (key : string) (k : option string) : bool :=
  match k with
  | Some k' => (k' =? key)%string
  | None => false
  end.

Lemma index_items_get (key : string) (data : list result_item)
  (model_dict : dict model_case) :
  dict_get key (index_items data model_dict)
  = match find (fun it => key_is key (item_key it)) (rev data) with
    | Some it => record_of_item it
    | None => dict_get key model_dict
    end.
Proof.
  revert model_dict.
  induction data as [ | it data IH]; intros model_dict; [reflexivity | ].
  cbn [rev]. rewrite find_app. cbn [find].
  destruct it as [[case_id | ] item | ]; cbn [index_items]; rewrite IH;
    destruct (find _ (rev data)); try reflexivity.
  cbn [item_key key_is]. rewrite dict_get_set.
  now destruct (str case_id =? key)%string.
Qed.

Lemma index_entries_get (key : string) (data : list (string * result_item))
  (model_dict : dict model_case) :
  dict_get key (index_entries data model_dict)
  = match find (fun kv => key_is key (entry_key kv)) (rev data) with
    | Some kv => record_of_item (snd kv)
    | None => dict_get key model_dict
    end.
Proof.
  revert model_dict.
  induction data as [ | [k it] data IH]; intros model_dict; [reflexivity | ].
  cbn [rev]. rewrite find_app. cbn [find].
  destruct it as [case_id item | ]; cbn [index_entries]; rewrite IH;
    destruct (find _ (rev data)); try reflexivity.
  unfold entry_key. cbn [fst snd key_is]. rewrite dict_get_set.
  now destruct (id_or_key case_id k =? key)%string.
Qed.

(** X13. From a list root, the record found for a key is the last object of
    the list whose [case_id] is present and prints as that key: a later
    record replaces an earlier one, an integer id and a string id with
    the same text collide, and elements that are not objects or have no
    id are ignored. *)
Theorem list_root_lookup_is_last_record_with_id (key response_field : string)
  (items : list result_item) :
  dict_get key (load_model_results (FileHolds (RootList items)) response_field)
  = match find (fun it => key_is key (item_key it)) (rev items) with
    | Some it => record_of_item it
    | None => None
    end.
Proof. apply (index_items_get key items []). Qed.

(** X14. From an object root, a record is stored under the text of its own
    [case_id] when that id is present and neither empty nor zero, and
    under its key in the file otherwise; the record found for a key is
    the last entry stored under it. *)
Theorem dict_root_lookup_is_last_entry_with_key (key response_field : string)
  (entries : list (string * result_item)) :
  dict_get key
    (load_model_results (FileHolds (RootDict entries)) response_field)
  = match find (fun kv => key_is key (entry_key kv)) (rev entries) with
    | Some kv => record_of_item (snd kv)
    | None => None
    end.
Proof. apply (index_entries_get key entries []). Qed.

(** The files from which nothing is loaded. *)
Definition unusable (model_result_file : result_file) : bool :=
  match model_result_file with
  | FileMissing | FileUnreadable | FileHolds RootOther => true
  | FileHolds (RootList _) | FileHolds (RootDict _) => false
  end.

(** X15. A model-result file that is missing, is not JSON, or holds neither
    a list nor an object does not stop the run: without a case budget it
    ends normally, never calls the judge, and gives every rubric case
    with an id that is due a record either its loaded record or a record
    without evaluations. *)
Theorem unusable_model_file_gives_empty_records (c : client)
  (rubric_data : list rubric_case) (model_result_file : result_file)
  (existing_file : option (list eval_record)) (response_field : string)
  (resume : bool) (w : trace (list eval_record)) :
  unusable model_result_file = true ->
  exists results evs,
    process_evaluations c rubric_data
      (load_model_results model_result_file response_field) existing_file
      response_field None resume w
    = (Ok (dict_values (load_existing resume existing_file) ++ results),
       w ++ evs)
    /\ calls evs = []
    /\ Forall2
         (fun case r =>
            exists cid,
              rc_case_id case = Some cid
              /\ (r = empty_record cid
                  \/ dict_get (str cid) (load_existing resume existing_file)
                     = Some r))
         (filter (emits (load_existing resume existing_file)) rubric_data)
         results.
Proof.
  intros Hfile.
  assert (Hempty : load_model_results model_result_file response_field = []).
  { destruct model_result_file as [ | | [items | entries | ]];
      try discriminate Hfile; reflexivity. }
  rewrite Hempty.
  destruct (process_evaluations_post c rubric_data [] existing_file
              response_field None resume w)
    as (done & rest & results & evs & Hsplit & E & Hrec & Hnone & _ & Hc & _).
  rewrite (Hnone eq_refl), app_nil_r in Hsplit. subst done.
  exists results,
    (evs ++ [EvSave (dict_values (load_existing resume existing_file)
                     ++ results)]).
  split; [now rewrite app_assoc | ].
  split.
  { rewrite calls_app. cbn. rewrite app_nil_r.
    apply Forall_calls in Hc. unfold calls in *.
    destruct (filter is_call evs) as [ | e l]; [reflexivity | ].
    inversion Hc as [ | ? ? (case & _ & _ & resp & _ & Hresp & _) _].
    unfold response_of in Hresp.
    destruct (rc_case_id case); discriminate Hresp. }
  eapply Forall2_impl; [ | exact Hrec].
  intros case r H. unfold record_of, response_of in H.
  destruct (rc_case_id case) as [cid | ]; [ | contradiction].
  exists cid. split; [reflexivity | ].
  destruct (rc_rubric_items case); [now left | ].
  destruct (dict_get (str cid) (load_existing resume existing_file)).
  - right. now rewrite H.
  - left. exact H.
Qed.

Lemma unusable_model_file_witness :
  unusable FileMissing = true
  /\ exists results evs,
       process_evaluations judge_yes [case_a; case_b]
         (load_model_results FileMissing "model_response")
         (Some [stored_a]) "model_response" None true []
       = (Ok (dict_values (load_existing true (Some [stored_a])) ++ results),
          [] ++ evs)
       /\ calls evs = []
       /\ Forall2
            (fun case r =>
               exists cid,
                 rc_case_id case = Some cid
                 /\ (r = empty_record cid
                     \/ dict_get (str cid)
                          (load_existing true (Some [stored_a]))
                        = Some r))
            (filter (emits (load_existing true (Some [stored_a])))
               [case_a; case_b])
            results.
Proof.
  split; [reflexivity | ].
  exact (unusable_model_file_gives_empty_records judge_yes [case_a; case_b]
           FileMissing (Some [stored_a]) "model_response" true [] eq_refl).
Defined.

(** *** The free-text rules of the reply parser *)

Lemma startswith_contains_suffix (a b t : string) :
  startswith (a ++ b)%string t = true -> contains b t = true.
Proof.
  revert t. induction a as [ | ch a IH]; intros t H.
  - cbn [String.append] in H. destruct t; cbn [contains]; now rewrite H.
  - destruct t as [ | ch' t]; [discriminate H | ].
    cbn [String.append startswith] in H. apply andb_true_iff in H.
    cbn [contains]. rewrite (IH t (proj2 H)). apply orb_true_r.
Qed.

Lemma contains_suffix (a b t : string) :
  contains (a ++ b)%string t = true -> contains b t = true.
Proof.
  induction t as [ | ch t IH]; intros H.
  - cbn [contains] in H. rewrite orb_false_r in H.
    now apply startswith_contains_suffix with a.
  - cbn [contains] in H. apply orb_true_iff in H. destruct H as [H | H].
    + now apply startswith_contains_suffix with a.
    + cbn [contains]. rewrite (IH H). apply orb_true_r.
Qed.

(** X16. A reply that is not the JSON verdict, does not quote the field
    [met], and says that the criterion is not satisfied (any casing) is
    scored 1: the rule for "satisf" is tried first and matches inside
    "not satisf", so the rule for "not satisf" never decides. *)
Theorem not_satisfied_in_free_text_scores_one (text : string)
  (w : trace (list eval_record)) :
  parse_met text = None ->
  contains (dq ++ "met" ++ dq) (lower text) = false ->
  contains "not satisf" (lower text) = true ->
  parse_reply text w = (Ok "1", w).
Proof.
  intros Hjson Hmet Hneg. unfold parse_reply. rewrite Hjson, Hmet.
  rewrite (contains_suffix "not " "satisf" (lower text) Hneg).
  now rewrite orb_true_r.
Qed.

Lemma not_satisfied_in_free_text_witness :
  parse_reply "The criterion is NOT satisfied." [] = (Ok "1", []).
Proof.
  apply not_satisfied_in_free_text_scores_one; vm_compute; reflexivity.
Defined.

End EvaluateModelMore.

(** ** More on the score table *)

Module MetricCalcMore.
Import Py Eff PyFacts PyMore EvaluateModel MetricCalc EvaluateModelFacts.
Import MetricCalcFacts.
Import RunModelFacts(pyid_eqb_eq).
#[local] Open Scope list_scope.

(** *** Sorting *)

Lemma insert_sorted_In_iff (x s : string) (l : list string) :
  In x (insert_sorted s l) <-> x = s \/ In x l.
Proof.
  split; [apply insert_sorted_In | ].
  induction l as [ | y l IH]; simpl.
  - intros [-> | []]. now left.
  - destruct (String.leb s y); simpl.
    + intros [-> | [-> | H]]; auto.
    + intros [-> | [-> | H]]; auto.
Qed.

Lemma sorted_In_iff (x : string) (l : list string) :
  In x (sorted l) <-> In x l.
Proof.
  induction l as [ | y l IH]; simpl; [tauto | ].
  rewrite insert_sorted_In_iff, IH. intuition.
Qed.

Lemma insert_sorted_NoDup (s : string) (l : list string) :
  ~ In s l -> NoDup l -> NoDup (insert_sorted s l).
Proof.
  induction l as [ | y l IH]; simpl; intros Hs Hl.
  - constructor; [intros [] | constructor].
  - destruct (String.leb s y).
    + constructor; [exact Hs | exact Hl].
    + inversion Hl as [ | ? ? Hy Hl']; subst.
      constructor; [ | apply IH; tauto].
      rewrite insert_sorted_In_iff. intros [-> | H]; tauto.
Qed.

Lemma sorted_NoDup (l : list string) : NoDup l -> NoDup (sorted l).
Proof.
  induction 1 as [ | x l Hx Hl IH]; simpl; [constructor | ].
  apply insert_sorted_NoDup; [ | exact IH]. now rewrite sorted_In_iff.
Qed.

(** [x] is at most the head of [l]. *)
Definition le_head (x : string) (l : list string) : Prop :=
  match l with
  | [] => True
  | y :: _ => String.leb x y = true
  end.

Fixpoint ascending (l : list string) : Prop :=
  match l with
  | [] => True
  | x :: rest => le_head x rest /\ ascending rest
  end.

(** [x] is below the head of [l]. *)
Definition lt_head (x : string) (l : list string) : Prop :=
  match l with
  | [] => True
  | y :: _ => String.ltb x y = true
  end.

(** Every element is strictly below the next one. *)
Fixpoint increasing (l : list string) : Prop :=
  match l with
  | [] => True
  | x :: rest => lt_head x rest /\ increasing rest
  end.

Lemma le_head_insert (x s : string) (l : list string) :
  le_head x l -> String.leb x s = true -> le_head x (insert_sorted s l).
Proof.
  destruct l as [ | y l]; simpl; [auto | ].
  destruct (String.leb s y); simpl; auto.
Qed.

Lemma insert_sorted_ascending (s : string) (l : list string) :
  ascending l -> ascending (insert_sorted s l).
Proof.
  induction l as [ | y l IH]; simpl; [auto | ].
  intros [Hy Hl]. destruct (String.leb s y) eqn:E.
  - simpl. auto.
  - cbn [ascending]. split; [ | now apply IH].
    apply le_head_insert; [exact Hy | ].
    destruct (String.leb_total s y) as [H | H]; [congruence | exact H].
Qed.

Lemma sorted_ascending (l : list string) : ascending (sorted l).
Proof.
  induction l as [ | x l IH]; simpl; [exact I | ].
  now apply insert_sorted_ascending.
Qed.

Lemma leb_neq_ltb (x y : string) :
  String.leb x y = true -> x <> y -> String.ltb x y = true.
Proof.
  unfold String.leb, String.ltb. intros H N.
  destruct (String.compare x y) eqn:E; try discriminate; [ | reflexivity].
  apply String.compare_eq_iff in E. contradiction.
Qed.

Lemma ascending_NoDup_increasing (l : list string) :
  ascending l -> NoDup l -> increasing l.
Proof.
  induction l as [ | x l IH]; simpl; [auto | ].
  intros [Hx Hl] Hnd. inversion Hnd as [ | ? ? Hnotin Hnd']; subst.
  split; [ | now apply IH].
  destruct l as [ | y l]; simpl in *; [exact I | ].
  apply leb_neq_ltb; [exact Hx | ]. intros ->. tauto.
Qed.

Lemma sorted_increasing (l : list string) : NoDup l -> increasing (sorted l).
Proof.
  intros H. apply ascending_NoDup_increasing;
    [apply sorted_ascending | now apply sorted_NoDup].
Qed.

(** *** Lookups with a default *)

Lemma get_default_set (V : Type) (k key : string) (v default : V)
  (d : dict V) :
  get_default key (dict_set k v d) default
  = if (k =? key)%string then v else get_default key d default.
Proof.
  unfold get_default. rewrite dict_get_set.
  now destruct (k =? key)%string.
Qed.

(** The scores grouped under a month and a model. *)
Definition lookup2 (ym name : string) (monthly_scores : dict (dict (list Q)))
  : list Q :=
  get_default name (get_default ym monthly_scores []) [].

(** The entries of a model that fall in the month [ym]. *)
Definition month_entries (ym : string) (case_scores : assoc pyid case_score)
  : assoc pyid case_score :=
  filter (fun entry => (year_month (snd entry) =? ym)%string) case_scores.

(** The entries of a model that fall in some month. *)
Definition dated_entries (case_scores : assoc pyid case_score)
  : assoc pyid case_score :=
  filter (fun entry => negb (year_month (snd entry) =? "Unknown")%string)
    case_scores.

(** One step of the grouping loop. *)
Definition group_step (first_model_name model_name : string)
  (st : dict (dict (list Q)) * dict nat) (entry : pyid * case_score)
  : dict (dict (list Q)) * dict nat :=
  let '(monthly_scores, monthly_case_counts) := st in
  let score_info := snd entry in
  let year_month := year_month score_info in
  if (year_month =? "Unknown")%string then st
  else
    let by_model := get_default year_month monthly_scores [] in
    let scores := get_default model_name by_model [] in
    (dict_set year_month
       (dict_set model_name (scores ++ [score score_info]) by_model)
       monthly_scores,
     if (model_name =? first_model_name)%string then
       dict_set year_month
         (get_default year_month monthly_case_counts 0 + 1)
         monthly_case_counts
     else monthly_case_counts).

(** The grouping loop over the cases of one model. *)
Definition group_model (first_model_name : string)
  (st : dict (dict (list Q)) * dict nat)
  (model_scores : string * assoc pyid case_score)
  : dict (dict (list Q)) * dict nat :=
  fold_left (group_step first_model_name (fst model_scores))
    (snd model_scores) st.

Lemma group_by_month_fold (first_model_name : string)
  (all_model_scores : dict (assoc pyid case_score)) :
  group_by_month first_model_name all_model_scores
  = fold_left (group_model first_model_name) all_model_scores ([], []).
Proof. reflexivity. Qed.

Lemma group_step_scores (first_model_name model_name ym name : string)
  (st : dict (dict (list Q)) * dict nat) (entry : pyid * case_score) :
  ym <> "Unknown" ->
  lookup2 ym name (fst (group_step first_model_name model_name st entry))
  = lookup2 ym name (fst st)
    ++ (if (year_month (snd entry) =? ym)%string
           && (model_name =? name)%string
        then [score (snd entry)] else []).
Proof.
  intros Hym. destruct st as [monthly_scores monthly_case_counts].
  unfold group_step. cbn [fst].
  destruct (String.eqb_spec (year_month (snd entry)) "Unknown") as [E | N].
  - cbn [fst].
    destruct (String.eqb_spec (year_month (snd entry)) ym) as [E' | _];
      [congruence | ].
    cbn. now rewrite app_nil_r.
  - cbn [fst]. unfold lookup2. rewrite get_default_set.
    destruct (String.eqb_spec (year_month (snd entry)) ym) as [-> | N'].
    + rewrite get_default_set. cbn [andb].
      destruct (String.eqb_spec model_name name) as [-> | N''];
        [reflexivity | now rewrite app_nil_r].
    + cbn. now rewrite app_nil_r.
Qed.

Lemma group_step_counts (first_model_name model_name ym : string)
  (st : dict (dict (list Q)) * dict nat) (entry : pyid * case_score) :
  ym <> "Unknown" ->
  get_default ym (snd (group_step first_model_name model_name st entry)) 0
  = get_default ym (snd st) 0
    + (if (year_month (snd entry) =? ym)%string
          && (model_name =? first_model_name)%string
       then 1 else 0).
Proof.
  intros Hym. destruct st as [monthly_scores monthly_case_counts].
  unfold group_step. cbn [snd].
  destruct (String.eqb_spec (year_month (snd entry)) "Unknown") as [E | N].
  - cbn [snd].
    destruct (String.eqb_spec (year_month (snd entry)) ym) as [E' | _];
      [congruence | ].
    cbn. lia.
  - cbn [snd].
    destruct (String.eqb_spec model_name first_model_name) as [-> | N''].
    + rewrite get_default_set.
      destruct (String.eqb_spec (year_month (snd entry)) ym) as [-> | N'];
        cbn; lia.
    + rewrite andb_false_r. lia.
Qed.

Lemma group_inner (first_model_name model_name ym name : string)
  (entries : assoc pyid case_score) :
  ym <> "Unknown" ->
  forall st,
    lookup2 ym name
      (fst (fold_left (group_step first_model_name model_name) entries st))
    = lookup2 ym name (fst st)
      ++ (if (model_name =? name)%string
          then map score_of (month_entries ym entries) else [])
    /\ get_default ym
         (snd (fold_left (group_step first_model_name model_name) entries st))
         0
       = get_default ym (snd st) 0
         + (if (model_name =? first_model_name)%string
            then List.length (month_entries ym entries) else 0).
Proof.
  intros Hym.
  induction entries as [ | entry entries IH]; intros st.
  - cbn [fold_left month_entries filter map List.length].
    destruct (model_name =? name)%string,
      (model_name =? first_model_name)%string;
      rewrite ?app_nil_r, ?Nat.add_0_r; split; reflexivity.
  - cbn [fold_left]. destruct (IH (group_step first_model_name model_name st entry))
      as [IHs IHc].
    rewrite IHs, IHc, group_step_scores, group_step_counts by exact Hym.
    unfold month_entries. cbn [filter].
    destruct (year_month (snd entry) =? ym)%string; cbn [andb];
      destruct (model_name =? name)%string,
        (model_name =? first_model_name)%string;
      cbn [map List.length app]; rewrite <- ?app_assoc, ?app_nil_r;
      split; try reflexivity; lia.
Qed.

Lemma group_outer (first_model_name ym name : string) :
  ym <> "Unknown" ->
  forall (all_model_scores : dict (assoc pyid case_score)) st,
    lookup2 ym name
      (fst (fold_left (group_model first_model_name) all_model_scores st))
    = lookup2 ym name (fst st)
      ++ flat_map
           (fun model_scores =>
              if (fst model_scores =? name)%string
              then map score_of (month_entries ym (snd model_scores))
              else [])
           all_model_scores
    /\ get_default ym
         (snd (fold_left (group_model first_model_name) all_model_scores st))
         0
       = get_default ym (snd st) 0
         + List.length
             (flat_map
                (fun model_scores =>
                   if (fst model_scores =? first_model_name)%string
                   then month_entries ym (snd model_scores)
                   else [])
                all_model_scores).
Proof.
  intros Hym.
  induction all_model_scores as [ | ms rest IH]; intros st.
  - cbn [fold_left flat_map List.length].
    now rewrite app_nil_r, Nat.add_0_r.
  - cbn [fold_left flat_map].
    destruct (IH (group_model first_model_name st ms)) as [IHs IHc].
    destruct (group_inner first_model_name (fst ms) ym name (snd ms) Hym st)
      as [Hs Hc].
    rewrite IHs, IHc. unfold group_model at 1 2. rewrite Hs, Hc.
    rewrite <- app_assoc, length_app.
    split; [reflexivity | ].
    destruct (fst ms =? first_model_name)%string; cbn [List.length]; lia.
Qed.

Lemma flat_map_unique_key {V B : Type} (f : V -> list B) (name : string)
  (d : dict V) :
  NoDup (dict_keys d) ->
  flat_map (fun kv => if (fst kv =? name)%string then f (snd kv) else []) d
  = match dict_get name d with
    | Some v => f v
    | None => []
    end.
Proof.
  induction d as [ | [k v] d IH]; intros Hnd; [reflexivity | ].
  inversion Hnd as [ | ? ? Hnotin Hnd']; subst.
  cbn [flat_map fst snd]. unfold dict_get. cbn [assoc_get].
  destruct (String.eqb_spec k name) as [-> | N].
  - rewrite (IH Hnd').
    unfold dict_get.
    rewrite (assoc_get_none String.eqb String.eqb_eq name d Hnotin).
    apply app_nil_r.
  - exact (IH Hnd').
Qed.

(** The grouping loop, read at one month and one model: the scores of
    the cases of the model that fall in that month, in the order of the
    model's cases, and the number of such cases of the first model. *)
Lemma group_by_month_get (first_model_name ym name : string)
  (all_model_scores : dict (assoc pyid case_score)) :
  ym <> "Unknown" ->
  NoDup (dict_keys all_model_scores) ->
  lookup2 ym name (fst (group_by_month first_model_name all_model_scores))
  = map score_of (month_entries ym (get_default name all_model_scores []))
  /\ get_default ym
       (snd (group_by_month first_model_name all_model_scores)) 0
     = List.length
         (month_entries ym (get_default first_model_name all_model_scores [])).
Proof.
  intros Hym Hnd. rewrite group_by_month_fold.
  destruct (group_outer first_model_name ym name Hym all_model_scores ([], []))
    as [Hs Hc].
  rewrite Hs, Hc. cbn [fst snd].
  rewrite (flat_map_unique_key
             (fun cs => map score_of (month_entries ym cs)) name
             all_model_scores Hnd).
  rewrite (flat_map_unique_key (month_entries ym) first_model_name
             all_model_scores Hnd).
  unfold get_default, lookup2. cbn.
  destruct (dict_get name all_model_scores),
    (dict_get first_model_name all_model_scores); split; reflexivity.
Qed.

(** *** The case counts *)

Lemma fold_add_acc (l : list nat) (a : nat) :
  fold_left Nat.add l a = a + fold_left Nat.add l 0.
Proof.
  revert a. induction l as [ | x l IH]; intros a; cbn [fold_left]; [lia | ].
  rewrite (IH (a + x)), (IH (0 + x)). lia.
Qed.

Lemma total_after_increment (k : string) (d : dict nat) :
  fold_left Nat.add (dict_values (dict_set k (get_default k d 0 + 1) d)) 0
  = fold_left Nat.add (dict_values d) 0 + 1.
Proof.
  unfold dict_values, dict_set, get_default, dict_get.
  induction d as [ | [k0 v0] d IH]; [reflexivity | ].
  cbn [assoc_set assoc_get].
  destruct (k0 =? k)%string; cbn [map snd fold_left].
  - rewrite (fold_add_acc _ (0 + (v0 + 1))), (fold_add_acc _ (0 + v0)). lia.
  - rewrite (fold_add_acc _ (0 + v0)), IH, (fold_add_acc _ (0 + v0)). lia.
Qed.

Lemma group_step_total (first_model_name model_name : string)
  (st : dict (dict (list Q)) * dict nat) (entry : pyid * case_score) :
  fold_left Nat.add
    (dict_values (snd (group_step first_model_name model_name st entry))) 0
  = fold_left Nat.add (dict_values (snd st)) 0
    + (if negb (year_month (snd entry) =? "Unknown")%string
          && (model_name =? first_model_name)%string
       then 1 else 0).
Proof.
  destruct st as [monthly_scores monthly_case_counts].
  unfold group_step. cbn [snd].
  destruct (year_month (snd entry) =? "Unknown")%string; cbn [negb andb snd];
    [lia | ].
  destruct (model_name =? first_model_name)%string; [ | lia].
  apply total_after_increment.
Qed.

Lemma group_total (first_model_name : string)
  (all_model_scores : dict (assoc pyid case_score)) :
  forall st,
    fold_left Nat.add
      (dict_values
         (snd (fold_left (group_model first_model_name) all_model_scores st)))
      0
    = fold_left Nat.add (dict_values (snd st)) 0
      + List.length
          (flat_map
             (fun model_scores =>
                if (fst model_scores =? first_model_name)%string
                then dated_entries (snd model_scores)
                else [])
             all_model_scores).
Proof.
  assert (Inner : forall model_name entries st,
             fold_left Nat.add
               (dict_values
                  (snd (fold_left (group_step first_model_name model_name)
                          entries st))) 0
             = fold_left Nat.add (dict_values (snd st)) 0
               + (if (model_name =? first_model_name)%string
                  then List.length (dated_entries entries) else 0)).
  { intros model_name.
    induction entries as [ | entry entries IH]; intros st.
    - cbn [fold_left dated_entries filter List.length].
      destruct (model_name =? first_model_name)%string; lia.
    - cbn [fold_left]. rewrite IH, group_step_total.
      unfold dated_entries. cbn [filter].
      destruct (year_month (snd entry) =? "Unknown")%string,
        (model_name =? first_model_name)%string; cbn [negb andb List.length];
        lia. }
  induction all_model_scores as [ | ms rest IH]; intros st.
  - cbn [fold_left flat_map List.length]. lia.
  - cbn [fold_left flat_map]. rewrite IH. unfold group_model at 1.
    rewrite Inner, length_app.
    destruct (fst ms =? first_model_name)%string; cbn [List.length]; lia.
Qed.

(** The sum of the case counts: the cases of the first model that fall
    in some month. *)
Lemma group_by_month_total (first_model_name : string)
  (all_model_scores : dict (assoc pyid case_score)) :
  NoDup (dict_keys all_model_scores) ->
  fold_left Nat.add
    (dict_values (snd (group_by_month first_model_name all_model_scores))) 0
  = List.length
      (dated_entries (get_default first_model_name all_model_scores [])).
Proof.
  intros Hnd. rewrite group_by_month_fold, group_total. cbn [snd].
  rewrite (flat_map_unique_key dated_entries first_model_name
             all_model_scores Hnd).
  unfold get_default. now destruct (dict_get first_model_name all_model_scores).
Qed.

(** *** The monthly averages *)

(** The cell of a table of averages. *)
Definition cell (ym name : string) (monthly_avg : dict (dict Q)) : Q :=
  get_default name (get_default ym monthly_avg []) 0%Q.

Definition avg_step (monthly_scores : dict (dict (list Q)))
  (year_month : string) (monthly_avg : dict (dict Q)) (model_name : string)
  : dict (dict Q) :=
  dict_set year_month
    (dict_set model_name
       (clipped_mean
          (get_default model_name
             (get_default year_month monthly_scores []) []))
       (get_default year_month monthly_avg []))
    monthly_avg.

Definition avg_month (monthly_scores : dict (dict (list Q)))
  (model_names : list string) (monthly_avg : dict (dict Q))
  (year_month : string) : dict (dict Q) :=
  fold_left (avg_step monthly_scores year_month) model_names monthly_avg.

Lemma monthly_avg_fold (model_names all_months : list string)
  (monthly_scores : dict (dict (list Q))) :
  monthly_avg_of model_names all_months monthly_scores
  = fold_left (avg_month monthly_scores model_names) (sorted all_months) [].
Proof. reflexivity. Qed.

Lemma avg_step_cell (monthly_scores : dict (dict (list Q)))
  (year_month model_name ym name : string) (monthly_avg : dict (dict Q)) :
  cell ym name (avg_step monthly_scores year_month monthly_avg model_name)
  = if (year_month =? ym)%string && (model_name =? name)%string
    then clipped_mean (lookup2 ym name monthly_scores)
    else cell ym name monthly_avg.
Proof.
  unfold cell, avg_step, lookup2. rewrite get_default_set.
  destruct (String.eqb_spec year_month ym) as [-> | N]; [ | reflexivity].
  rewrite get_default_set.
  now destruct (String.eqb_spec model_name name) as [-> | N'].
Qed.

Lemma avg_month_cell (monthly_scores : dict (dict (list Q)))
  (year_month ym name : string) (model_names : list string) :
  forall monthly_avg,
    cell ym name (avg_month monthly_scores model_names monthly_avg year_month)
    = if (year_month =? ym)%string
         && existsb (fun n => (n =? name)%string) model_names
      then clipped_mean (lookup2 ym name monthly_scores)
      else cell ym name monthly_avg.
Proof.
  unfold avg_month.
  induction model_names as [ | n names IH]; intros monthly_avg.
  - cbn. now rewrite andb_false_r.
  - cbn [fold_left existsb]. rewrite IH, avg_step_cell.
    destruct (year_month =? ym)%string; [ | reflexivity]. cbn [andb].
    destruct (existsb _ names); [now rewrite orb_true_r | ].
    now rewrite orb_false_r.
Qed.

Lemma avg_months_cell (monthly_scores : dict (dict (list Q)))
  (ym name : string) (model_names months : list string) :
  forall monthly_avg,
    cell ym name
      (fold_left (avg_month monthly_scores model_names) months monthly_avg)
    = if existsb (fun m => (m =? ym)%string) months
         && existsb (fun n => (n =? name)%string) model_names
      then clipped_mean (lookup2 ym name monthly_scores)
      else cell ym name monthly_avg.
Proof.
  induction months as [ | m months IH]; intros monthly_avg; [reflexivity | ].
  cbn [fold_left existsb]. rewrite IH, avg_month_cell.
  destruct (existsb (fun n => (n =? name)%string) model_names);
    [ | now rewrite !andb_false_r].
  rewrite !andb_true_r.
  destruct (existsb _ months); [now rewrite orb_true_r | ].
  now rewrite orb_false_r.
Qed.

Lemma existsb_In (x : string) (l : list string) :
  In x l -> existsb (fun y => (y =? x)%string) l = true.
Proof.
  intros H. apply existsb_exists. exists x. split; [exact H | ].
  apply String.eqb_refl.
Qed.

(** A cell of the monthly averages, for a month and a model that are
    there. *)
Lemma monthly_avg_cell (model_names all_months : list string)
  (monthly_scores : dict (dict (list Q))) (ym name : string) :
  In ym all_months -> In name model_names ->
  cell ym name (monthly_avg_of model_names all_months monthly_scores)
  = clipped_mean (lookup2 ym name monthly_scores).
Proof.
  intros Hym Hname. rewrite monthly_avg_fold, avg_months_cell.
  rewrite (existsb_In ym), (existsb_In name); auto.
  now apply sorted_In_iff.
Qed.

Lemma avg_month_keys (monthly_scores : dict (dict (list Q)))
  (year_month : string) (model_names : list string) :
  forall monthly_avg x,
    In x (dict_keys
            (avg_month monthly_scores model_names monthly_avg year_month))
    <-> (model_names <> [] /\ x = year_month) \/ In x (dict_keys monthly_avg).
Proof.
  unfold avg_month.
  induction model_names as [ | n names IH]; intros monthly_avg x.
  - cbn [fold_left]. split; [now right | ]. intros [[H _] | H]; [now destruct H | exact H].
  - cbn [fold_left]. rewrite IH. unfold avg_step, dict_keys, dict_set.
    rewrite (assoc_set_keys String.eqb String.eqb_eq).
    split.
    + intros [[_ ->] | [-> | H]]; auto; left; split; auto; discriminate.
    + intros [[_ ->] | H]; auto.
Qed.

Lemma avg_month_NoDup (monthly_scores : dict (dict (list Q)))
  (year_month : string) (model_names : list string) :
  forall monthly_avg,
    NoDup (dict_keys monthly_avg) ->
    NoDup (dict_keys
             (avg_month monthly_scores model_names monthly_avg year_month)).
Proof.
  unfold avg_month.
  induction model_names as [ | n names IH]; intros monthly_avg H; [exact H | ].
  cbn [fold_left]. apply IH. unfold avg_step, dict_keys, dict_set.
  now apply (assoc_set_NoDup String.eqb String.eqb_eq).
Qed.

(** The months of the monthly averages: every month given, each once,
    when there is a model. *)
Lemma monthly_avg_months (model_names all_months : list string)
  (monthly_scores : dict (dict (list Q))) :
  NoDup (dict_keys (monthly_avg_of model_names all_months monthly_scores))
  /\ forall ym,
       In ym (dict_keys (monthly_avg_of model_names all_months monthly_scores))
       <-> (model_names <> [] /\ In ym all_months).
Proof.
  rewrite monthly_avg_fold.
  assert (G : forall months acc,
             NoDup (dict_keys acc) ->
             NoDup (dict_keys
                      (fold_left (avg_month monthly_scores model_names)
                         months acc))
             /\ forall ym,
                  In ym (dict_keys
                           (fold_left (avg_month monthly_scores model_names)
                              months acc))
                  <-> (model_names <> [] /\ In ym months)
                      \/ In ym (dict_keys acc)).
  { induction months as [ | m months IH]; intros acc Hacc.
    - cbn [fold_left]. split; [exact Hacc | ]. intros ym. cbn [In]. tauto.
    - cbn [fold_left].
      destruct (IH (avg_month monthly_scores model_names acc m)
                  (avg_month_NoDup monthly_scores m model_names acc Hacc))
        as [Hnd Hin].
      split; [exact Hnd | ]. intros ym. rewrite Hin, avg_month_keys.
      cbn [In]. split.
      + intros [[H1 H2] | [[H1 ->] | H]]; auto.
      + intros [[H1 [-> | H2]] | H]; auto. }
  destruct (G (sorted all_months) [] (NoDup_nil _)) as [Hnd Hin].
  split; [exact Hnd | ]. intros ym. rewrite Hin, sorted_In_iff.
  cbn [dict_keys map In]. tauto.
Qed.

(** *** The months collected from the scores *)

Definition months_step (all_months : list string)
  (entry : pyid * case_score) : list string :=
  let year_month := year_month (snd entry) in
  if (year_month =? "Unknown")%string then all_months
  else set_add year_month all_months.

Definition months_model (all_months : list string)
  (model_scores : string * assoc pyid case_score) : list string :=
  fold_left months_step (snd model_scores) all_months.

Lemma collect_months_fold
  (all_model_scores : dict (assoc pyid case_score)) :
  collect_months all_model_scores
  = fold_left months_model all_model_scores [].
Proof. reflexivity. Qed.

Lemma set_add_spec (m : string) (months : list string) :
  (NoDup months -> NoDup (set_add m months))
  /\ forall x, In x (set_add m months) <-> x = m \/ In x months.
Proof.
  unfold set_add. destruct (existsb (String.eqb m) months) eqn:E.
  - split; [auto | ]. intros x. split; [auto | ].
    intros [-> | H]; [ | exact H].
    apply existsb_exists in E. destruct E as (y & Hy & Hm).
    apply String.eqb_eq in Hm. now subst.
  - split.
    + intros H. apply NoDup_app; [exact H | repeat constructor; intros [] | ].
      intros x Hx [Hx' | []]. subst x.
      assert (existsb (String.eqb m) months = true); [ | congruence].
      apply existsb_exists. exists m. split; [exact Hx | apply String.eqb_refl].
    + intros x. rewrite in_app_iff. cbn [In]. intuition.
Qed.

(** The months collected: each once, and exactly the months other than
    "Unknown" of the cases of the models. *)
Lemma collect_months_spec (all_model_scores : dict (assoc pyid case_score)) :
  NoDup (collect_months all_model_scores)
  /\ forall ym,
       In ym (collect_months all_model_scores)
       <-> ym <> "Unknown"
           /\ exists model_scores entry,
                In model_scores all_model_scores
                /\ In entry (snd model_scores)
                /\ year_month (snd entry) = ym.
Proof.
  rewrite collect_months_fold.
  assert (Inner : forall entries months,
             NoDup months ->
             NoDup (fold_left months_step entries months)
             /\ forall ym,
                  In ym (fold_left months_step entries months)
                  <-> In ym months
                      \/ (ym <> "Unknown"
                          /\ exists entry,
                               In entry entries
                               /\ year_month (snd entry) = ym)).
  { induction entries as [ | e entries IH]; intros months Hm.
    - cbn [fold_left]. split; [exact Hm | ]. intros ym. split; [auto | ].
      intros [H | (_ & entry & [] & _)]. exact H.
    - cbn [fold_left].
      assert (Hstep : NoDup (months_step months e)
                      /\ forall x, In x (months_step months e)
                                   <-> In x months
                                       \/ (x <> "Unknown"
                                           /\ year_month (snd e) = x)).
      { unfold months_step.
        destruct (String.eqb_spec (year_month (snd e)) "Unknown") as [E | N].
        - split; [exact Hm | ]. intros x. split; [auto | ].
          intros [H | [H1 H2]]; [exact H | congruence].
        - destruct (set_add_spec (year_month (snd e)) months) as [H1 H2].
          split; [auto | ]. intros x. rewrite H2. split.
          + intros [-> | H]; auto.
          + intros [H | [_ <-]]; auto. }
      destruct Hstep as [Hnd Hin].
      destruct (IH (months_step months e) Hnd) as [Hnd' Hin'].
      split; [exact Hnd' | ]. intros ym. rewrite Hin', Hin. split.
      + intros [[H | [H1 H2]] | (H1 & entry & H2 & H3)]; auto.
        * right. split; [exact H1 | ]. exists e. split; [now left | exact H2].
        * right. split; [exact H1 | ]. exists entry. split; [now right | exact H3].
      + intros [H | (H1 & entry & [<- | H2] & H3)]; auto.
        right. split; [exact H1 | ]. now exists entry. }
  assert (Outer : forall all months,
             NoDup months ->
             NoDup (fold_left months_model all months)
             /\ forall ym,
                  In ym (fold_left months_model all months)
                  <-> In ym months
                      \/ (ym <> "Unknown"
                          /\ exists model_scores entry,
                               In model_scores all
                               /\ In entry (snd model_scores)
                               /\ year_month (snd entry) = ym)).
  { induction all as [ | ms all IH]; intros months Hm.
    - cbn [fold_left]. split; [exact Hm | ]. intros ym. split; [auto | ].
      intros [H | (_ & ? & ? & [] & _)]. exact H.
    - cbn [fold_left]. unfold months_model at 2 4.
      destruct (Inner (snd ms) months Hm) as [Hnd Hin].
      destruct (IH _ Hnd) as [Hnd' Hin'].
      split; [exact Hnd' | ]. intros ym. rewrite Hin', Hin. split.
      + intros [[H | (H1 & entry & H2 & H3)] | (H1 & ms' & entry & H2 & H3 & H4)];
          auto.
        * right. split; [exact H1 | ]. exists ms, entry.
          split; [now left | auto].
        * right. split; [exact H1 | ]. exists ms', entry.
          split; [now right | auto].
      + intros [H | (H1 & ms' & entry & [<- | H2] & H3 & H4)]; auto.
        * left. right. split; [exact H1 | ]. now exists entry.
        * right. split; [exact H1 | ]. now exists ms', entry. }
  destruct (Outer all_model_scores [] (NoDup_nil _)) as [Hnd Hin].
  split; [exact Hnd | ]. intros ym. rewrite Hin. cbn [In]. tauto.
Qed.

(** *** Clipping *)

Definition in_unit (q : Q) : Prop := (0 <= q /\ q <= 1)%Q.

Lemma clip_in_unit (avg : Q) : in_unit (clip avg).
Proof.
  unfold clip, in_unit.
  destruct (Qpos_b (1 - avg)) eqn:E1.
  - apply Qpos_b_true in E1.
    destruct (Qpos_b avg) eqn:E2.
    + apply Qpos_b_true in E2. split; lra.
    + split; lra.
  - destruct (Qpos_b 1) eqn:E2; split; lra.
Qed.

Lemma clipped_mean_in_unit (scores : list Q) : in_unit (clipped_mean scores).
Proof.
  destruct scores as [ | q scores]; [unfold in_unit; cbn; split; lra | ].
  apply clip_in_unit.
Qed.

(** A mean that is already in the unit interval is not changed. *)
Lemma clip_id (avg : Q) : in_unit avg -> (clip avg == avg)%Q.
Proof.
  unfold clip, in_unit. intros [H0 H1].
  destruct (Qpos_b (1 - avg)) eqn:E1.
  - destruct (Qpos_b avg) eqn:E2; [reflexivity | ].
    apply Qpos_b_false in E2. lra.
  - apply Qpos_b_false in E1. destruct (Qpos_b 1) eqn:E2.
    + lra.
    + apply Qpos_b_false in E2. lra.
Qed.

(** *** The table *)

(** The name of the first model of [all_model_scores]. *)
Definition first_model {V : Type} (d : dict V) : string :=
  match d with
  | (name, _) :: _ => name
  | [] => ""
  end.

Definition row_months (t : table) : list string :=
  map (fun row => fst (fst row)) (monthly_rows t).

Lemma first_model_set {V : Type} (k : string) (v : V) (d : dict V) :
  d <> [] -> first_model (dict_set k v d) = first_model d.
Proof.
  destruct d as [ | [k0 v0] d]; [congruence | ]. intros _.
  unfold dict_set. cbn [assoc_set].
  destruct (String.eqb_spec k0 k) as [-> | N]; reflexivity.
Qed.

Section TableFacts.
Variable datetime : Type.
Variable fromisoformat : string -> option datetime.
Variable strftime : datetime -> string -> string.

(** The dictionary [all_model_scores] of [main]. *)
Definition scores_in_table (model_files : dict (list eval_record))
  (rubric_data : list rubric_case) : dict (assoc pyid case_score) :=
  build_all_model_scores datetime fromisoformat strftime model_files
    (build_rubric_mapping rubric_data).

Lemma scores_in_table_first (model_files : dict (list eval_record))
  (rubric_data : list rubric_case) :
  first_model (scores_in_table model_files rubric_data)
  = first_model model_files.
Proof.
  unfold scores_in_table. rewrite all_scores_fold.
  destruct model_files as [ | [name data] files]; [reflexivity | ].
  cbn [fold_left first_model].
  assert (G : forall files acc,
             acc <> [] ->
             first_model
               (fold_left
                  (all_step datetime fromisoformat strftime
                     (build_rubric_mapping rubric_data)) files acc)
             = first_model acc).
  { clear. induction files as [ | file files IH]; intros acc H; [reflexivity | ].
    cbn [fold_left]. rewrite IH.
    - unfold all_step. now apply first_model_set.
    - unfold all_step, dict_set. destruct acc as [ | [k0 v0] acc];
        [congruence | ].
      cbn [assoc_set]. destruct (k0 =? fst file)%string; discriminate. }
  rewrite G; [reflexivity | discriminate].
Qed.

Lemma scores_in_table_member (model_files : dict (list eval_record))
  (rubric_data : list rubric_case) (name : string)
  (entry : pyid * case_score) :
  In entry (get_default name (scores_in_table model_files rubric_data) []) ->
  In name (dict_keys model_files)
  /\ exists case_scores,
       In (name, case_scores) (scores_in_table model_files rubric_data)
       /\ In entry case_scores.
Proof.
  unfold get_default. intros H.
  destruct (dict_get name (scores_in_table model_files rubric_data))
    as [case_scores | ] eqn:E; [ | destruct H].
  apply (assoc_get_in String.eqb String.eqb_eq) in E.
  split; [ | now exists case_scores].
  apply all_scores_values in E. destruct E as (data & Hin & _).
  apply in_map_iff. now exists (name, data).
Qed.

(** The rows of the table, row by row. *)
Lemma monthly_rows_cells (model_files : dict (list eval_record))
  (rubric_data : list rubric_case) :
  let all_model_scores := scores_in_table model_files rubric_data in
  let t :=
    build_table datetime fromisoformat strftime model_files rubric_data in
  monthly_rows t
  = map
      (fun ym =>
         (ym,
          map
            (fun name =>
               clipped_mean
                 (map score_of
                    (month_entries ym
                       (get_default name all_model_scores []))))
            (sorted (dict_keys model_files)),
          List.length
            (month_entries ym
               (get_default (first_model model_files) all_model_scores []))))
      (row_months t).
Proof.
  intros all_model_scores t. subst t. unfold row_months, build_table.
  cbv zeta. fold (scores_in_table model_files rubric_data).
  fold all_model_scores.
  change (match all_model_scores with
          | [] => ""
          | (name, _) :: _ => name
          end) with (first_model all_model_scores).
  pose proof (fun ym name Hym =>
                group_by_month_get (first_model all_model_scores) ym name
                  all_model_scores Hym
                  (all_scores_NoDup datetime fromisoformat strftime
                     (build_rubric_mapping rubric_data) model_files)) as Hg.
  destruct (group_by_month (first_model all_model_scores) all_model_scores)
    as [monthly_scores monthly_case_counts].
  cbn [monthly_rows fst snd] in *. rewrite !map_map. cbn [fst].
  apply map_ext_in. intros ym Hym.
  apply sorted_In, monthly_avg_keys in Hym.
  pose proof (collect_months_known _ _ Hym) as Hknown.
  destruct (Hg ym "" Hknown) as [_ Hcount].
  f_equal; [f_equal | ].
  - apply map_ext_in. intros name Hname. apply sorted_In in Hname.
    fold (cell ym name
            (monthly_avg_of (dict_keys model_files)
               (collect_months all_model_scores) monthly_scores)).
    rewrite (monthly_avg_cell _ _ _ _ _ Hym Hname).
    destruct (Hg ym name Hknown) as [Hscores _]. now rewrite Hscores.
  - rewrite Hcount. unfold all_model_scores.
    now rewrite scores_in_table_first.
Qed.

Lemma row_months_spec (model_files : dict (list eval_record))
  (rubric_data : list rubric_case) :
  let all_model_scores := scores_in_table model_files rubric_data in
  let t :=
    build_table datetime fromisoformat strftime model_files rubric_data in
  increasing (row_months t)
  /\ forall ym,
       In ym (row_months t)
       <-> ym <> "Unknown"
           /\ exists name entry,
                In entry (get_default name all_model_scores [])
                /\ year_month (snd entry) = ym.
Proof.
  intros all_model_scores t. subst t. unfold row_months, build_table.
  cbv zeta. fold (scores_in_table model_files rubric_data).
  fold all_model_scores.
  destruct (group_by_month _ all_model_scores)
    as [monthly_scores monthly_case_counts].
  cbn [monthly_rows]. rewrite map_map. cbn [fst]. rewrite map_id.
  destruct (monthly_avg_months (dict_keys model_files)
              (collect_months all_model_scores) monthly_scores)
    as [Hnd Hin].
  destruct (collect_months_spec all_model_scores) as [_ Hmonths].
  split; [now apply sorted_increasing | ].
  intros ym. rewrite sorted_In_iff, Hin, Hmonths. split.
  - intros (_ & Hknown & [name case_scores] & entry & Hms & Hentry & Hym).
    split; [exact Hknown | ]. exists name, entry. split; [ | exact Hym].
    unfold get_default.
    assert (E : dict_get name all_model_scores = Some case_scores).
    { destruct (assoc_get_some_key String.eqb String.eqb_eq name
                  all_model_scores) as (v & Hv).
      { apply in_map_iff. now exists (name, case_scores). }
      pose proof (assoc_get_in String.eqb String.eqb_eq _ _ _ Hv) as Hv'.
      assert (v = case_scores); [ | now subst].
      pose proof (all_scores_NoDup datetime fromisoformat strftime
                    (build_rubric_mapping rubric_data) model_files) as Hnd'.
      fold (scores_in_table model_files rubric_data) in Hnd'.
      fold all_model_scores in Hnd'.
      clear - Hv' Hms Hnd'. unfold dict_keys in Hnd'.
      induction all_model_scores as [ | [k0 v0] d IH]; [destruct Hms | ].
      inversion Hnd' as [ | ? ? Hnotin Hnd'']; subst.
      destruct Hv' as [Hv' | Hv'], Hms as [Hms | Hms].
      - congruence.
      - inversion Hv'; subst. exfalso. apply Hnotin.
        apply in_map_iff. now exists (name, case_scores).
      - inversion Hms; subst. exfalso. apply Hnotin.
        apply in_map_iff. now exists (name, v).
      - now apply IH. }
    now rewrite E.
  - intros (Hknown & name & entry & Hentry & Hym).
    destruct (scores_in_table_member _ _ _ _ Hentry)
      as (Hname & case_scores & Hms & Hin').
    split; [intros E; rewrite E in Hname; destruct Hname | ].
    split; [exact Hknown | ].
    now exists (name, case_scores), entry.
Qed.

Lemma total_cases_spec (model_files : dict (list eval_record))
  (rubric_data : list rubric_case) :
  snd (overall_row
         (build_table datetime fromisoformat strftime model_files rubric_data))
  = List.length
      (dated_entries
         (get_default (first_model model_files)
            (scores_in_table model_files rubric_data) [])).
Proof.
  unfold build_table. cbv zeta. fold (scores_in_table model_files rubric_data).
  change (match scores_in_table model_files rubric_data with
          | [] => ""
          | (name, _) :: _ => name
          end) with (first_model (scores_in_table model_files rubric_data)).
  pose proof (group_by_month_total
                (first_model (scores_in_table model_files rubric_data))
                (scores_in_table model_files rubric_data)
                (all_scores_NoDup datetime fromisoformat strftime
                   (build_rubric_mapping rubric_data) model_files)) as Ht.
  destruct (group_by_month _ _) as [monthly_scores monthly_case_counts].
  cbn [overall_row snd] in *. rewrite Ht. now rewrite scores_in_table_first.
Qed.
End TableFacts.

(** *** The table, as [main] writes it *)

Section TableTheorems.
Variable datetime : Type.
Variable fromisoformat : string -> option datetime.
Variable strftime : datetime -> string -> string.

(** X17. The score cells of the monthly rows.  In the row of a month, the
    cell of a model is the mean, clipped to the unit interval, of the
    scores of the cases of that model that fall in the month, and 0 when
    the model has no case in that month; the cells follow the sorted
    model names. *)
Theorem monthly_cells_are_clipped_means_of_the_month
  (model_files : dict (list eval_record)) (rubric_data : list rubric_case) :
  map (fun row => snd (fst row))
    (monthly_rows
       (build_table datetime fromisoformat strftime model_files rubric_data))
  = map
      (fun ym =>
         map
           (fun name =>
              clipped_mean
                (map score_of
                   (month_entries ym
                      (get_default name
                         (scores_in_table datetime fromisoformat strftime
                            model_files rubric_data)
                         []))))
           (sorted (dict_keys model_files)))
      (row_months
         (build_table datetime fromisoformat strftime model_files rubric_data)).
Proof.
  rewrite monthly_rows_cells at 1. rewrite map_map. reflexivity.
Qed.

(** X18. The monthly rows are in strictly increasing order of their month,
    and their months are exactly the months, other than "Unknown", in
    which some model has a case. *)
Theorem monthly_rows_are_the_dated_months_in_order
  (model_files : dict (list eval_record)) (rubric_data : list rubric_case) :
  increasing
    (row_months
       (build_table datetime fromisoformat strftime model_files rubric_data))
  /\ forall ym,
       In ym
         (row_months
            (build_table datetime fromisoformat strftime model_files
               rubric_data))
       <-> ym <> "Unknown"
           /\ exists name entry,
                In entry
                  (get_default name
                     (scores_in_table datetime fromisoformat strftime
                        model_files rubric_data)
                     [])
                /\ year_month (snd entry) = ym.
Proof. apply row_months_spec. Qed.

(** X19. The case counts are those of the first model file alone: the count
    of a monthly row is the number of cases of the first model that fall
    in that month, and the count of the overall row is the number of its
    cases that fall in some month, so that its cases with an unknown
    month are not counted. *)
Theorem case_counts_are_those_of_the_first_model
  (model_files : dict (list eval_record)) (rubric_data : list rubric_case) :
  map snd
    (monthly_rows
       (build_table datetime fromisoformat strftime model_files rubric_data))
  = map
      (fun ym =>
         List.length
           (month_entries ym
              (get_default (first_model model_files)
                 (scores_in_table datetime fromisoformat strftime
                    model_files rubric_data)
                 [])))
      (row_months
         (build_table datetime fromisoformat strftime model_files rubric_data))
  /\ snd (overall_row
            (build_table datetime fromisoformat strftime model_files
               rubric_data))
     = List.length
         (dated_entries
            (get_default (first_model model_files)
               (scores_in_table datetime fromisoformat strftime
                  model_files rubric_data)
               [])).
Proof.
  split; [ | apply total_cases_spec].
  rewrite monthly_rows_cells at 1. rewrite map_map. reflexivity.
Qed.

(** X20. Every score cell of the table, monthly or overall, lies between 0
    and 1, whatever the evaluation files hold. *)
Theorem table_cells_are_in_the_unit_interval
  (model_files : dict (list eval_record)) (rubric_data : list rubric_case) :
  Forall (fun row => Forall in_unit (snd (fst row)))
    (monthly_rows
       (build_table datetime fromisoformat strftime model_files rubric_data))
  /\ Forall in_unit
       (fst (overall_row
               (build_table datetime fromisoformat strftime model_files
                  rubric_data))).
Proof.
  split.
  - rewrite monthly_rows_cells. apply Forall_forall. intros row Hrow.
    apply in_map_iff in Hrow. destruct Hrow as (ym & <- & _). cbn [fst snd].
    apply Forall_forall. intros q Hq. apply in_map_iff in Hq.
    destruct Hq as (name & <- & _). apply clipped_mean_in_unit.
  - rewrite overall_row_cells. apply Forall_forall. intros q Hq.
    apply in_map_iff in Hq. destruct Hq as (name & <- & _).
    apply clipped_mean_in_unit.
Qed.

(** *** The case scores of one model *)

(** The score entry of case [cid] computed from the record [r]. *)
Definition case_score_of (rubric_mapping : dict rubric_info) (cid : pyid)
  (r : eval_record) : case_score :=
  let rubric_info := lookup_rubric cid rubric_mapping in
  {| score :=
       per_example_score (evaluations r) (ri_rubric_items rubric_info);
     post_time := ri_post_time rubric_info;
     year_month :=
       if (ri_post_time rubric_info =? "")%string then "Unknown"
       else extract_year_month datetime fromisoformat strftime
              (ri_post_time rubric_info) |}.

Lemma pyid_get_set (V : Type) (k cid : pyid) (v : V) (d : assoc pyid V) :
  assoc_get pyid_eqb cid (assoc_set pyid_eqb k v d)
  = if pyid_eqb k cid then Some v else assoc_get pyid_eqb cid d.
Proof.
  destruct (pyid_eqb k cid) eqn:E.
  - apply pyid_eqb_eq in E. subst.
    apply (assoc_get_set_same pyid_eqb pyid_eqb_eq).
  - apply (assoc_get_set_other pyid_eqb pyid_eqb_eq).
    intros ->. assert (pyid_eqb k k = true) by now apply pyid_eqb_eq.
    congruence.
Qed.

Lemma scores_of_file_get (rubric_mapping : dict rubric_info) (cid : pyid)
  (evaluation_data : list eval_record) :
  assoc_get pyid_eqb cid
    (calculate_model_scores datetime fromisoformat strftime evaluation_data
       rubric_mapping)
  = if falsy_id (Some cid) then None
    else option_map (case_score_of rubric_mapping cid)
           (find (fun r => id_is cid (case_id r)) (rev evaluation_data)).
Proof.
  rewrite scores_of_file_fold.
  assert (G : forall data acc,
             assoc_get pyid_eqb cid
               (fold_left
                  (score_step datetime fromisoformat strftime rubric_mapping)
                  data acc)
             = if falsy_id (Some cid) then assoc_get pyid_eqb cid acc
               else match find (fun r => id_is cid (case_id r)) (rev data) with
                    | Some r => Some (case_score_of rubric_mapping cid r)
                    | None => assoc_get pyid_eqb cid acc
                    end).
  { induction data as [ | r data IH]; intros acc.
    - cbn [fold_left rev find]. now destruct (falsy_id (Some cid)).
    - cbn [fold_left rev]. rewrite IH, find_app. cbn [find].
      destruct (falsy_id (Some cid)) eqn:Hf.
      + unfold score_step. destruct (case_id r) as [k | ]; [ | reflexivity].
        destruct (falsy_id (Some k)) eqn:Hk; [reflexivity | ].
        rewrite pyid_get_set. destruct (pyid_eqb k cid) eqn:E; [ | reflexivity].
        apply pyid_eqb_eq in E. congruence.
      + destruct (find _ (rev data)); [reflexivity | ].
        unfold score_step, id_is.
        destruct (case_id r) as [k | ]; [ | reflexivity].
        destruct (pyid_eqb k cid) eqn:E.
        * apply pyid_eqb_eq in E. subst k. rewrite Hf, pyid_get_set.
          assert (R : pyid_eqb cid cid = true) by now apply pyid_eqb_eq.
          rewrite R. reflexivity.
        * destruct (falsy_id (Some k)); [reflexivity | ].
          rewrite pyid_get_set, E. reflexivity. }
  rewrite G. cbn [assoc_get].
  destruct (falsy_id (Some cid)); [reflexivity | ].
  now destruct (find _ (rev evaluation_data)).
Qed.

(** X21. A model has one score per case id: the score entry of a case is
    computed from the last record of the evaluation file that carries
    its id, earlier records with that id are ignored, and an id that is
    missing, empty or zero gets no entry. *)
Theorem case_score_comes_from_the_last_record
  (rubric_mapping : dict rubric_info) (cid : pyid)
  (evaluation_data : list eval_record) :
  assoc_get pyid_eqb cid
    (calculate_model_scores datetime fromisoformat strftime evaluation_data
       rubric_mapping)
  = if falsy_id (Some cid) then None
    else option_map (case_score_of rubric_mapping cid)
           (find (fun r => id_is cid (case_id r)) (rev evaluation_data)).
Proof. apply scores_of_file_get. Qed.

(** X22. The rubric mapping is keyed by the text of the case ids, and the
    evaluation records are looked up by their id as it is.  So a record
    whose id is a number never meets its rubric: its score is 0 and its
    month is "Unknown", whatever its judgments and whatever the rubric
    file holds. *)
Theorem numeric_case_id_scores_zero (rubric_mapping : dict rubric_info)
  (evaluation_data : list eval_record) (r : eval_record) (z : Z) :
  In r evaluation_data ->
  case_id r = Some (IdInt z) ->
  z <> 0%Z ->
  assoc_get pyid_eqb (IdInt z)
    (calculate_model_scores datetime fromisoformat strftime evaluation_data
       rubric_mapping)
  = Some {| score := 0; post_time := ""; year_month := "Unknown" |}.
Proof.
  intros Hin Hid Hz. rewrite scores_of_file_get.
  cbn [falsy_id]. destruct (Z.eqb_spec z 0) as [E | _]; [contradiction | ].
  destruct (find (fun r => id_is (IdInt z) (case_id r)) (rev evaluation_data))
    as [r' | ] eqn:Hfind.
  - reflexivity.
  - exfalso. apply in_rev in Hin.
    pose proof (find_none _ _ Hfind r Hin) as Hno. cbn beta in Hno.
    rewrite Hid in Hno. cbn [id_is pyid_eqb] in Hno.
    rewrite Z.eqb_refl in Hno. discriminate Hno.
Qed.
End TableTheorems.

Lemma monthly_rows_months_witness :
  In "2025-04"
    (row_months
       (build_table string sample_fromisoformat sample_strftime
          [("gpt", [record_dated; record_undated])]
          [case_dated; case_undated])).
Proof.
  apply (proj2 (monthly_rows_are_the_dated_months_in_order string
                  sample_fromisoformat sample_strftime
                  [("gpt", [record_dated; record_undated])]
                  [case_dated; case_undated])).
  split; [discriminate | ].
  exists "gpt",
    (IdStr "a",
     {| score :=
          per_example_score [("rubric_1", EvaluateModelFacts.entry_of
                                            EvaluateModelFacts.item_X 1)]
            [EvaluateModelFacts.item_X];
        post_time := "2025-04-08T00:00:00";
        year_month := "2025-04" |}).
  split; [left; reflexivity | reflexivity].
Defined.

(** A record whose id is the number 7, with a judgment worth 10
    points. *)
Definition record_numbered : eval_record :=
  {| case_id := Some (IdInt 7);
     evaluations := [("rubric_1", EvaluateModelFacts.entry_of
                                    EvaluateModelFacts.item_X 1)] |}.

Lemma numeric_case_id_witness :
  assoc_get pyid_eqb (IdInt 7)
    (calculate_model_scores string sample_fromisoformat sample_strftime
       [record_numbered]
       [("7", {| ri_post_time := "2025-04-08T00:00:00";
                 ri_rubric_items := [EvaluateModelFacts.item_X] |})])
  = Some {| score := 0; post_time := ""; year_month := "Unknown" |}.
Proof.
  apply (numeric_case_id_scores_zero string sample_fromisoformat
           sample_strftime _ [record_numbered] record_numbered 7).
  - left. reflexivity.
  - reflexivity.
  - discriminate.
Defined.

(** *** The evaluation files found *)

Lemma length_append (a b : string) :
  String.length (a ++ b)%string = String.length a + String.length b.
Proof. induction a as [ | c a IH]; simpl; [reflexivity | now rewrite IH]. Qed.

Lemma substring_all (s : string) : substring 0 (String.length s) s = s.
Proof. induction s as [ | c s IH]; simpl; [reflexivity | now rewrite IH]. Qed.

Lemma substring_prefix (a b : string) :
  substring 0 (String.length a) (a ++ b)%string = a.
Proof.
  induction a as [ | c a IH]; simpl; [now destruct b | now rewrite IH].
Qed.

Lemma substring_skip (a b : string) (n k : nat) :
  substring (String.length a + n) k (a ++ b)%string = substring n k b.
Proof. induction a as [ | c a IH]; simpl; [reflexivity | exact IH]. Qed.

Lemma substring_split (s : string) :
  forall n, n <= String.length s ->
            (substring 0 n s ++ substring n (String.length s - n) s)%string = s.
Proof.
  induction s as [ | c s IH]; intros n Hn.
  - destruct n; [reflexivity | simpl in Hn; lia].
  - destruct n as [ | n].
    + cbn [substring String.append String.length Nat.sub].
      now rewrite substring_all.
    + cbn [substring String.append String.length Nat.sub].
      rewrite IH; [reflexivity | simpl in Hn; lia].
Qed.

Lemma startswith_append (p s : string) : startswith p (p ++ s)%string = true.
Proof.
  induction p as [ | c p IH]; simpl; [reflexivity | ].
  now rewrite Ascii.eqb_refl, IH.
Qed.

Lemma startswith_split (p s : string) :
  startswith p s = true -> exists rest, s = (p ++ rest)%string.
Proof.
  revert s. induction p as [ | c p IH]; intros s H.
  - now exists s.
  - destruct s as [ | c' s]; [discriminate H | ].
    cbn [startswith] in H. apply andb_true_iff in H. destruct H as [Hc Hp].
    apply Ascii.eqb_eq in Hc. subst c'.
    destruct (IH s Hp) as (rest & ->). now exists rest.
Qed.

Lemma endswith_append (a suffix : string) :
  endswith suffix (a ++ suffix)%string = true.
Proof.
  unfold endswith. rewrite length_append.
  replace (String.length a + String.length suffix - String.length suffix)
    with (String.length a + 0) by lia.
  rewrite substring_skip, substring_all, String.eqb_refl, andb_true_r.
  apply Nat.leb_le. lia.
Qed.

Lemma endswith_split (suffix s : string) :
  endswith suffix s = true ->
  s = (substring 0 (String.length s - String.length suffix) s
       ++ suffix)%string.
Proof.
  unfold endswith. intros H. apply andb_true_iff in H. destruct H as [Hl He].
  apply Nat.leb_le in Hl. apply String.eqb_eq in He.
  pose proof (substring_split s (String.length s - String.length suffix)
                ltac:(lia)) as Hsp.
  replace (String.length s - (String.length s - String.length suffix))
    with (String.length suffix) in Hsp by lia.
  rewrite He in Hsp. now symmetry.
Qed.

Definition results_prefix : string := "evaluation_results_".
Definition results_suffix : string := ".json".

(** The name of the evaluation file of a model. *)
Definition results_file_name (model_name : string) : string :=
  (results_prefix ++ model_name ++ results_suffix)%string.

(** The model name cut out of a file name. *)
Definition model_name_of (filename : string) : string :=
  slice_between (String.length results_prefix) (String.length results_suffix)
    filename.

Lemma model_name_of_file_name (model_name : string) :
  model_name_of (results_file_name model_name) = model_name.
Proof.
  unfold model_name_of, results_file_name, slice_between.
  rewrite !length_append.
  replace (String.length results_prefix
           + (String.length model_name + String.length results_suffix)
           - String.length results_suffix - String.length results_prefix)
    with (String.length model_name) by lia.
  rewrite <- (Nat.add_0_r (String.length results_prefix)) at 1.
  rewrite substring_skip. apply substring_prefix.
Qed.

(** A file name that passes the two tests is the prefix, the model name
    cut out of it, and the suffix: the two tests cannot overlap. *)
Lemma accepted_file_name (filename : string) :
  startswith results_prefix filename && endswith results_suffix filename
  = true ->
  filename = results_file_name (model_name_of filename).
Proof.
  intros H. apply andb_true_iff in H. destruct H as [Hs He].
  destruct (startswith_split _ _ Hs) as (rest & ->).
  assert (Hrest : endswith results_suffix rest = true).
  { destruct rest as [ | c1 [ | c2 [ | c3 [ | c4 [ | c5 rest]]]]];
      try (cbn in He; discriminate He).
    set (r := String c1 (String c2 (String c3 (String c4 (String c5 rest)))))
      in *.
    assert (Hlen : 5 <= String.length r) by (subst r; simpl; lia).
    unfold endswith in *. rewrite length_append in He.
    change (String.length results_suffix) with 5 in *.
    change (String.length results_prefix) with 19 in *.
    apply andb_true_iff in He. destruct He as [_ He].
    replace (19 + String.length r - 5) with (19 + (String.length r - 5))
      in He by lia.
    change 19 with (String.length results_prefix) in He.
    rewrite substring_skip in He. rewrite He, andb_true_r.
    apply Nat.leb_le. exact Hlen. }
  unfold results_file_name. f_equal.
  unfold model_name_of, slice_between. rewrite length_append.
  replace (String.length results_prefix + String.length rest
           - String.length results_suffix - String.length results_prefix)
    with (String.length rest - String.length results_suffix) by lia.
  rewrite <- (Nat.add_0_r (String.length results_prefix)) at 1.
  rewrite substring_skip. now apply endswith_split.
Qed.

Lemma file_name_accepted (model_name : string) :
  startswith results_prefix (results_file_name model_name)
  && endswith results_suffix (results_file_name model_name) = true.
Proof.
  unfold results_file_name. rewrite startswith_append. cbn [andb].
  assert (A : forall a b c : string,
             (a ++ (b ++ c))%string = ((a ++ b) ++ c)%string).
  { induction a as [ | ch a IH]; intros b c; simpl; [reflexivity | ].
    now rewrite IH. }
  rewrite A. apply endswith_append.
Qed.

Section FilesFacts.
Variable path : Type.
Variable name : path -> string.

(** X23. File names and model names correspond: the path kept for a model
    name [m] is the last path found whose file is named
    [evaluation_results_<m>.json], and there is none when no such path
    was found; paths with other names are ignored, and the empty model
    name stands for the file [evaluation_results_.json]. *)
Theorem model_names_round_trip_with_file_names (model_name : string)
  (globbed : list path) :
  dict_get model_name (load_model_files path name globbed)
  = find (fun p => (name p =? results_file_name model_name)%string)
      (rev globbed).
Proof.
  unfold load_model_files.
  change (String.length "evaluation_results_") with (String.length results_prefix).
  change (String.length ".json") with (String.length results_suffix).
  change "evaluation_results_" with results_prefix.
  change ".json" with results_suffix.
  assert (G : forall files acc,
             dict_get model_name
               (fold_left
                  (fun model_files p =>
                     if startswith results_prefix (name p)
                        && endswith results_suffix (name p)
                     then dict_set
                            (slice_between (String.length results_prefix)
                               (String.length results_suffix) (name p))
                            p model_files
                     else model_files)
                  files acc)
             = match find (fun p => (name p =? results_file_name model_name)%string)
                       (rev files) with
               | Some p => Some p
               | None => dict_get model_name acc
               end).
  { induction files as [ | p files IH]; intros acc; [reflexivity | ].
    cbn [fold_left rev]. rewrite IH, find_app. cbn [find].
    destruct (find _ (rev files)); [reflexivity | ].
    destruct (startswith results_prefix (name p)
              && endswith results_suffix (name p)) eqn:Hacc.
    - rewrite dict_get_set. fold (model_name_of (name p)).
      apply accepted_file_name in Hacc.
      destruct (String.eqb_spec (model_name_of (name p)) model_name)
        as [E | N].
      + rewrite Hacc, E, String.eqb_refl. reflexivity.
      + destruct (String.eqb_spec (name p) (results_file_name model_name))
          as [E' | _]; [ | reflexivity].
        rewrite E', model_name_of_file_name in N. contradiction.
    - destruct (String.eqb_spec (name p) (results_file_name model_name))
        as [E' | _]; [ | reflexivity].
      rewrite E', file_name_accepted in Hacc. discriminate Hacc. }
  rewrite G. now destruct (find _ (rev globbed)).
Qed.

End FilesFacts.

(** *** The score of a case graded with its rubric *)

(** The points a judged item earned. *)
Definition earned (ps : nat * rubric_item * Z) : Q :=
  (points (snd (fst ps)) * inject_Z (snd ps))%Q.

(** X24. When the record of a case is the one the case grader returned for
    the rubric the score is computed with, no judgment is left out: the
    total is the sum, over the items with a criterion, of the points of
    the item times its score of 0 or 1, and the maximum is the sum of
    the positive points of all the items. *)
Theorem graded_case_total_is_the_points_earned (c : client)
  (model_response user_query : string) (rubric_items : list rubric_item)
  (w w' : trace (list eval_record)) (evaluations : dict judgment) :
  grade_items c model_response user_query 1 rubric_items [] w
  = (Ok evaluations, w') ->
  exists scores,
    evaluations = map stored (combine (judged 1 rubric_items) scores)
    /\ List.length scores = List.length (judged 1 rubric_items)
    /\ Forall (fun score => score = 0 \/ score = 1)%Z scores
    /\ (calculate_case_total_score evaluations rubric_items
        == sum_of (map earned (combine (judged 1 rubric_items) scores)))%Q
    /\ (calculate_max_possible_score rubric_items
        == sum_of (map credit rubric_items))%Q.
Proof.
  intros E.
  destruct (grade_items_spec c model_response user_query rubric_items 1 [] w)
    as (scores & counts & evs & E' & Hl & Hs & _).
  { intros key []. }
  rewrite E in E'. inversion E' as [[Hev Hw]]. clear E'. cbn [app].
  exists scores. split; [reflexivity | ]. split; [exact Hl | ].
  split; [exact Hs | ].
  split; [ | apply max_possible_score_credit].
  rewrite case_total_score_sum, judged_entries_counted, map_map.
  reflexivity.
Qed.

Lemma graded_case_total_witness :
  exists scores,
    [("rubric_1", entry_of item_X 1)]
    = map stored (combine (judged 1 [item_X]) scores)
    /\ List.length scores = List.length (judged 1 [item_X])
    /\ Forall (fun score => score = 0 \/ score = 1)%Z scores
    /\ (calculate_case_total_score [("rubric_1", entry_of item_X 1)] [item_X]
        == sum_of (map earned (combine (judged 1 [item_X]) scores)))%Q
    /\ (calculate_max_possible_score [item_X]
        == sum_of (map credit [item_X]))%Q.
Proof.
  apply (graded_case_total_is_the_points_earned judge_yes "Rest and fluids."
           "q" [item_X] []
           [EvCall EVALUATOR_MODEL
              (create_evaluation_prompt "X" "Rest and fluids." "q");
            EvSleep (2 # 10)]).
  vm_compute. reflexivity.
Defined.

(** *** Records written twice *)

Lemma assoc_set_same_value {K V : Type} (eqb : K -> K -> bool)
  (eqb_spec : forall a b, eqb a b = true <-> a = b)
  (k : K) (v : V) (d : assoc K V) :
  assoc_get eqb k d = Some v -> assoc_set eqb k v d = d.
Proof.
  induction d as [ | [k0 v0] d IH]; cbn [assoc_get assoc_set]; intros H.
  - discriminate H.
  - destruct (eqb k0 k) eqn:E.
    + apply eqb_spec in E. inversion H. now subst.
    + now rewrite IH.
Qed.

Section RepeatedRecords.
Variable datetime : Type.
Variable fromisoformat : string -> option datetime.
Variable strftime : datetime -> string -> string.

(** [r] is the last record of [data] that carries its case id. *)
Definition last_of_its_case (data : list eval_record) (r : eval_record)
  : Prop :=
  exists cid,
    case_id r = Some cid
    /\ find (fun r' => id_is cid (case_id r')) (rev data) = Some r.

Lemma scores_with_repeated_record (rubric_mapping : dict rubric_info)
  (data : list eval_record) (r : eval_record) :
  last_of_its_case data r ->
  calculate_model_scores datetime fromisoformat strftime (data ++ [r])
    rubric_mapping
  = calculate_model_scores datetime fromisoformat strftime data
      rubric_mapping.
Proof.
  intros (cid & Hid & Hlast).
  rewrite !scores_of_file_fold, fold_left_app. cbn [fold_left].
  rewrite <- scores_of_file_fold.
  unfold score_step at 1. rewrite Hid.
  destruct (falsy_id (Some cid)) eqn:Hf; [reflexivity | ].
  apply (assoc_set_same_value pyid_eqb pyid_eqb_eq).
  rewrite (scores_of_file_get datetime fromisoformat strftime), Hf, Hlast.
  reflexivity.
Qed.

Lemma last_of_its_case_stays (data : list eval_record) (r r' : eval_record) :
  last_of_its_case data r -> last_of_its_case data r' ->
  last_of_its_case (data ++ [r]) r'.
Proof.
  intros (cid & Hid & Hlast) (cid' & Hid' & Hlast').
  exists cid'. split; [exact Hid' | ].
  rewrite rev_app_distr. cbn [rev app find].
  destruct (id_is cid' (case_id r)) eqn:E; [ | exact Hlast'].
  rewrite Hid in E. cbn [id_is] in E. apply pyid_eqb_eq in E. subst cid'.
  congruence.
Qed.

(** X25. Writing again records that are already in an evaluation file, as a
    resumed grading run does with the records it reuses, does not change
    the case scores of the model: when every record added at the end is
    the last record of the file for its case, the scores computed from
    the longer file are those of the file. *)
Theorem repeated_records_do_not_change_the_scores
  (rubric_mapping : dict rubric_info) (data extra : list eval_record) :
  Forall (last_of_its_case data) extra ->
  calculate_model_scores datetime fromisoformat strftime (data ++ extra)
    rubric_mapping
  = calculate_model_scores datetime fromisoformat strftime data
      rubric_mapping.
Proof.
  revert data. induction extra as [ | r extra IH]; intros data H.
  - now rewrite app_nil_r.
  - inversion H as [ | ? ? Hr Hextra]; subst.
    change (data ++ r :: extra) with (data ++ [r] ++ extra).
    rewrite app_assoc, IH.
    + now apply scores_with_repeated_record.
    + eapply Forall_impl; [ | exact Hextra].
      intros r' Hr'. now apply last_of_its_case_stays.
Qed.
End RepeatedRecords.

Lemma repeated_records_witness :
  calculate_model_scores string sample_fromisoformat sample_strftime
    ([record_dated; record_undated] ++ [record_dated])
    (build_rubric_mapping [case_dated; case_undated])
  = calculate_model_scores string sample_fromisoformat sample_strftime
      [record_dated; record_undated]
      (build_rubric_mapping [case_dated; case_undated]).
Proof.
  apply repeated_records_do_not_change_the_scores.
  constructor; [ | constructor].
  exists (IdStr "a"). split; reflexivity.
Defined.

End MetricCalcMore.
